(** * The resolution-and-caching pipeline of [N.py]

  A shallow embedding of the identifier normaliser, the admission gate,
  the cache index, the quality selector, the payload decoder, the
  single-flight archiver and the two request handlers, with the
  properties the design document states about them. *)

From Stdlib Require Import ZArith Ascii String List Bool Lia DecimalString.
From stdpp Require Import base option list gmap sets strings.

Local Open Scope Z_scope.

(** ** Python strings

  A Python [str] is modelled by a Rocq [string]; the pattern matcher
  works on its list of characters. *)

Abbreviation chars := list_ascii_of_string.
Abbreviation text := string_of_list_ascii.

Module PyStr.

(** [str.isspace] on the code points below 256. *)
Definition isspace (c : ascii) : bool :=
  let n := nat_of_ascii c in
  ((9 <=? n)%nat && (n <=? 13)%nat)
  || ((28 <=? n)%nat && (n <=? 32)%nat)
  || (n =? 133)%nat || (n =? 160)%nat.

Fixpoint lstrip (l : list ascii) : list ascii :=
  match l with
  | c :: l' => if isspace c then lstrip l' else l
  | [] => []
  end.

Definition rstrip (l : list ascii) : list ascii := rev (lstrip (rev l)).

(** [inp.strip()] *)
Definition strip (s : string) : string := text (rstrip (lstrip (chars s))).

(** [s1.startswith(p)] on character lists. *)
Fixpoint starts_with (p l : list ascii) : bool :=
  match p, l with
  | [], _ => true
  | c :: p', d :: l' => Ascii.eqb c d && starts_with p' l'
  | _ :: _, [] => false
  end.

End PyStr.

(** ** Regular expressions

  The fragment of Python's [re] syntax that [YT_RE] and the bare-token
  pattern use, with the backtracking matcher written in
  continuation-passing style: alternatives are tried left to right, [?]
  is greedy, and the one capturing group records the text it consumed. *)

Module Re.

Inductive regex : Type :=
| Eps
| Lit (c : ascii)
| Class (p : ascii -> bool)
| Seq (r1 r2 : regex)
| Alt (r1 r2 : regex)
| Opt (r : regex)
| Rep (n : nat) (r : regex)
| Group (r : regex).

(** A match object, reduced to what the program reads from it:
    [m.group(1)], which is [None] when the group took no part. *)
Definition match_obj : Type := option (list ascii).

Definition cont (R : Type) : Type := list ascii -> match_obj -> option R.

Fixpoint rmatch {R} (r : regex) (s : list ascii) (cap : match_obj)
    (k : cont R) {struct r} : option R :=
  match r with
  | Eps => k s cap
  | Lit c =>
      match s with
      | d :: s' => if Ascii.eqb c d then k s' cap else None
      | [] => None
      end
  | Class p =>
      match s with
      | d :: s' => if p d then k s' cap else None
      | [] => None
      end
  | Seq r1 r2 => rmatch r1 s cap (fun s' cap' => rmatch r2 s' cap' k)
  | Alt r1 r2 =>
      match rmatch r1 s cap k with
      | Some x => Some x
      | None => rmatch r2 s cap k
      end
  | Opt r1 =>
      match rmatch r1 s cap k with
      | Some x => Some x
      | None => k s cap
      end
  | Rep n r1 =>
      (fix rep (n : nat) (s : list ascii) (cap : match_obj) (k : cont R)
         : option R :=
         match n with
         | O => k s cap
         | S n' => rmatch r1 s cap (fun s' cap' => rep n' s' cap' k)
         end) n s cap k
  | Group r1 =>
      rmatch r1 s cap
        (fun s' _ => k s' (Some (take (length s - length s') s)))
  end.

(** [pattern.search(s)]: the first start position with a match. *)
Fixpoint search (r : regex) (s : list ascii) : option match_obj :=
  match rmatch r s None (fun _ cap => Some cap) with
  | Some m => Some m
  | None =>
      match s with
      | [] => None
      | _ :: s' => search r s'
      end
  end.

(** [re.fullmatch(pattern, s)]: a match at position 0 that ends at the
    end of the string. *)
Definition fullmatch (r : regex) (s : list ascii) : option match_obj :=
  rmatch r s None
    (fun s' cap => match s' with [] => Some cap | _ :: _ => None end).

(** A literal string, character by character. *)
Fixpoint lit (p : list ascii) : regex :=
  match p with
  | [] => Eps
  | c :: p' => Seq (Lit c) (lit p')
  end.

Definition str (p : string) : regex := lit (chars p).

End Re.

(** ** Identifier normaliser *)

(** The character set [[0-9A-Za-z_-]]. *)
Definition token_char (c : ascii) : bool :=
  let n := nat_of_ascii c in
  ((48 <=? n)%nat && (n <=? 57)%nat)
  || ((65 <=? n)%nat && (n <=? 90)%nat)
  || ((97 <=? n)%nat && (n <=? 122)%nat)
  || (n =? 95)%nat || (n =? 45)%nat.

(** [(?:https?://)?] *)
Definition SCHEME_RE : Re.regex :=
  Re.Seq (Re.str "http") (Re.Seq (Re.Opt (Re.Lit "s")) (Re.str "://")).

(** [(?:www\.)?] *)
Definition WWW_RE : Re.regex := Re.str "www.".

(** [(?:youtube\.com/(?:watch\?v=|embed/|shorts/)|youtu\.be/)?] *)
Definition HOST_RE : Re.regex :=
  Re.Alt
    (Re.Seq (Re.str "youtube.com/")
       (Re.Alt (Re.str "watch?v=") (Re.Alt (Re.str "embed/") (Re.str "shorts/"))))
    (Re.str "youtu.be/").

(** [([0-9A-Za-z_-]{11})] *)
Definition ID_RE : Re.regex := Re.Group (Re.Rep 11 (Re.Class token_char)).

Definition YT_RE : Re.regex :=
  Re.Seq (Re.Opt SCHEME_RE) (Re.Seq (Re.Opt WWW_RE) (Re.Seq (Re.Opt HOST_RE) ID_RE)).

(** [r"[0-9A-Za-z_-]{11}"] of the fallback branch. *)
Definition TOKEN_RE : Re.regex := Re.Rep 11 (Re.Class token_char).

Definition canonical_url (vidid : string) : string :=
  ("https://www.youtube.com/watch?v=" ++ vidid)%string.

(** An f-string prints a missing group as [None]. *)
Definition fmt_group (g : Re.match_obj) : string :=
  match g with
  | Some v => text v
  | None => "None"
  end.

Definition normalize_youtube_input (inp : string) : string :=
  let inp := PyStr.strip inp in
  match Re.search YT_RE (chars inp) with
  | Some m => canonical_url (fmt_group m)
  | None =>
      match Re.fullmatch TOKEN_RE (chars inp) with
      | Some _ => canonical_url inp
      | None => inp
      end
  end.

Definition extract_vidid (inp : string) : option string :=
  match Re.search YT_RE (chars (PyStr.strip inp)) with
  | Some m => text <$> m
  | None =>
      match Re.fullmatch TOKEN_RE (chars (PyStr.strip inp)) with
      | Some _ => Some (PyStr.strip inp)
      | None => None
      end
  end.


(** Spec-side vocabulary for the normaliser: a well-formed token, and the
    URL shapes the pattern spells out (scheme and [www.] optional, one of
    the four host paths, then the token, then anything). *)
Definition well_formed_token (t : string) : bool :=
  (length (chars t) =? 11)%nat && forallb token_char (chars t).

Definition url_shapes : list string :=
  scheme ← ["https://"; "http://"; ""]%string;
  www ← ["www."; ""]%string;
  host ← ["youtube.com/watch?v="; "youtube.com/embed/";
          "youtube.com/shorts/"; "youtu.be/"]%string;
  [(scheme ++ www ++ host)%string].

Definition recognized_url (inp : string) : bool :=
  existsb
    (fun shape =>
       PyStr.starts_with (chars shape) (chars inp)
       && (11 <=? length (drop (length (chars shape)) (chars inp)))%nat
       && forallb token_char (take 11 (drop (length (chars shape)) (chars inp))))
    url_shapes.

(** ** Values shared by the components *)

(** [str(e)] of a raised [Exception]. *)
Definition Exception : Type := string.

Inductive HTTPException : Type :=
| HTTP (status_code : Z) (detail : string).

(** A reading of the wall clock: [datetime.datetime.utcnow()] as an
    instant, and the [%Y-%m-%d] date in Asia/Kolkata that [ist_date_str]
    prints for it. *)
Record Clock : Type := {
  utcnow : Z;
  ist_date_str : string
}.

(** [str(n)] for an integer. *)
Definition str_of_Z (n : Z) : string :=
  DecimalString.NilZero.string_of_int (Z.to_int n).

Definition try_bind {A B} (m : Exception + A) (k : A -> Exception + B)
    : Exception + B :=
  match m with
  | inl e => inl e
  | inr a => k a
  end.

Notation "'try!' x ':=' m 'in' k" := (try_bind m (fun x => k))
  (at level 10, x name, m at level 100, k at level 200, only parsing).

(** A value [json.loads] can put into a field the pipeline reads: a JSON
    scalar. A finite float [x] is held as the integer [x * 2^1074] (every
    finite double is such a multiple) together with the text [repr]
    prints for it. A list or an object in such a field, and the floats
    [inf] and [nan], are outside the model. *)
Inductive PyVal : Type :=
| PyNone
| PyBool (b : bool)
| PyInt (n : Z)
| PyFloat (scaled : Z) (repr : string)
| PyStr (s : string).

#[global] Instance PyVal_eq_dec : EqDecision PyVal.
Proof. solve_decision. Defined.

(** The types a decoded JSON value can have. *)
Inductive PyType : Type :=
| TNone | TBool | TInt | TFloat | TStr | TList | TDict.

(** [type(v).__name__] *)
Definition type_name (t : PyType) : string :=
  match t with
  | TNone => "NoneType" | TBool => "bool" | TInt => "int"
  | TFloat => "float" | TStr => "str" | TList => "list" | TDict => "dict"
  end.

Definition type_of (v : PyVal) : PyType :=
  match v with
  | PyNone => TNone | PyBool _ => TBool | PyInt _ => TInt
  | PyFloat _ _ => TFloat | PyStr _ => TStr
  end.

(** [str(v)] *)
Definition py_str (v : PyVal) : string :=
  match v with
  | PyNone => "None"
  | PyBool b => if b then "True" else "False"
  | PyInt n => str_of_Z n
  | PyFloat _ repr => repr
  | PyStr s => s
  end.

Definition FLOAT_SCALE : Z := 2 ^ 1074.

(** The number a value is, in units of [2^-1074]: [bool] is a subclass
    of [int], and numbers of the three types compare by value. *)
Definition num_val (v : PyVal) : option Z :=
  match v with
  | PyBool b => Some (if b then FLOAT_SCALE else 0)
  | PyInt n => Some (n * FLOAT_SCALE)
  | PyFloat scaled _ => Some scaled
  | PyNone | PyStr _ => None
  end.

(** [s < t] on [str]: by code points, a proper prefix coming first. *)
Fixpoint str_ltb (a b : list ascii) : bool :=
  match a, b with
  | _, [] => false
  | [], _ :: _ => true
  | c :: a', d :: b' =>
      (nat_of_ascii c <? nat_of_ascii d)%nat
      || ((nat_of_ascii c =? nat_of_ascii d)%nat && str_ltb a' b')
  end.

(** [x < y]; [None] is [TypeError]: numbers compare with numbers and
    strings with strings, nothing else compares, not even [None] with
    itself. *)
Definition py_lt (x y : PyVal) : option bool :=
  match num_val x, num_val y with
  | Some a, Some b => Some (a <? b)
  | _, _ =>
      match x, y with
      | PyStr s, PyStr t => Some (str_ltb (chars s) (chars t))
      | _, _ => None
      end
  end.

(** ['X' object has no attribute 'get'] *)
Definition no_attribute_get (t : PyType) : Exception :=
  ("'" ++ type_name t ++ "' object has no attribute 'get'")%string.

(** ['X' object is not iterable] *)
Definition not_iterable (t : PyType) : Exception :=
  ("'" ++ type_name t ++ "' object is not iterable")%string.

(** A document of [mongodb.apikeys]. A field that [check_api_key] reads
    with [.get] may be missing or null. *)
Record ApiKeyDoc : Type := {
  key : string;
  owner : string;
  daily_limit : option Z;
  used_today : option Z;
  last_used_date : option string;
  expiry_date : option Z;
  is_admin : bool;
  created_at : Z
}.

Definition set_used_today (v : option Z) (r : ApiKeyDoc) : ApiKeyDoc :=
  {| key := key r; owner := owner r; daily_limit := daily_limit r;
     used_today := v; last_used_date := last_used_date r;
     expiry_date := expiry_date r; is_admin := is_admin r;
     created_at := created_at r |}.

Definition set_last_used_date (v : option string) (r : ApiKeyDoc) : ApiKeyDoc :=
  {| key := key r; owner := owner r; daily_limit := daily_limit r;
     used_today := used_today r; last_used_date := v;
     expiry_date := expiry_date r; is_admin := is_admin r;
     created_at := created_at r |}.

(** A document of [mongodb.cache]. *)
Record CacheDoc : Type := {
  ytid : string;
  type : string;
  file_id : string;
  chat_id : Z;
  msg_id : Z;
  file_name : string;
  meta : gmap string PyVal;
  cached_at : Z
}.

(** The requests the record store has carried out, in order. *)
Inductive MongoOp : Type :=
| ApikeysFindOne (k : string)
| ApikeysSet (k : string) (used : Z) (date : string)
| ApikeysInc (k : string) (by_ : Z)
| CacheFindOne (vid ty : string)
| CacheUpsert (vid ty : string) (doc : CacheDoc).

(** A message of the cache channel: what [send_video] / [send_audio]
    posted. *)
Record Upload : Type := {
  up_media_type : string;
  up_path : string;
  up_caption : string;
  up_title : option string;
  up_file_id : string;
  up_msg_id : Z
}.

Inductive LogLevel : Type := INFO | ERROR.

(** The state the pipeline reads and writes: the two collections of the
    record store with the requests they received, the two process-wide
    containers, the download directory, the cache channel and the log. *)
Record World : Type := {
  apikeys : gmap string ApiKeyDoc;
  cache : gmap (string * string) CacheDoc;
  mongo_ops : list MongoOp;
  IN_MEMORY_CACHE : gmap string CacheDoc;
  PROCESSING_SET : gset string;
  files : gset string;
  channel : list Upload;
  logs : list (LogLevel * string)
}.

Definition with_apikeys (f : gmap string ApiKeyDoc -> gmap string ApiKeyDoc)
    (op : MongoOp) (w : World) : World :=
  {| apikeys := f (apikeys w); cache := cache w;
     mongo_ops := mongo_ops w ++ [op];
     IN_MEMORY_CACHE := IN_MEMORY_CACHE w; PROCESSING_SET := PROCESSING_SET w;
     files := files w; channel := channel w; logs := logs w |}.

Definition with_cache
    (f : gmap (string * string) CacheDoc -> gmap (string * string) CacheDoc)
    (op : MongoOp) (w : World) : World :=
  {| apikeys := apikeys w; cache := f (cache w);
     mongo_ops := mongo_ops w ++ [op];
     IN_MEMORY_CACHE := IN_MEMORY_CACHE w; PROCESSING_SET := PROCESSING_SET w;
     files := files w; channel := channel w; logs := logs w |}.

Definition with_memory (f : gmap string CacheDoc -> gmap string CacheDoc)
    (w : World) : World :=
  {| apikeys := apikeys w; cache := cache w; mongo_ops := mongo_ops w;
     IN_MEMORY_CACHE := f (IN_MEMORY_CACHE w);
     PROCESSING_SET := PROCESSING_SET w;
     files := files w; channel := channel w; logs := logs w |}.

Definition with_processing (f : gset string -> gset string) (w : World) : World :=
  {| apikeys := apikeys w; cache := cache w; mongo_ops := mongo_ops w;
     IN_MEMORY_CACHE := IN_MEMORY_CACHE w;
     PROCESSING_SET := f (PROCESSING_SET w);
     files := files w; channel := channel w; logs := logs w |}.

Definition with_files (f : gset string -> gset string) (w : World) : World :=
  {| apikeys := apikeys w; cache := cache w; mongo_ops := mongo_ops w;
     IN_MEMORY_CACHE := IN_MEMORY_CACHE w; PROCESSING_SET := PROCESSING_SET w;
     files := f (files w); channel := channel w; logs := logs w |}.

Definition with_channel (f : list Upload -> list Upload) (w : World) : World :=
  {| apikeys := apikeys w; cache := cache w; mongo_ops := mongo_ops w;
     IN_MEMORY_CACHE := IN_MEMORY_CACHE w; PROCESSING_SET := PROCESSING_SET w;
     files := files w; channel := f (channel w); logs := logs w |}.

Definition log (lvl : LogLevel) (msg : string) (w : World) : World :=
  {| apikeys := apikeys w; cache := cache w; mongo_ops := mongo_ops w;
     IN_MEMORY_CACHE := IN_MEMORY_CACHE w; PROCESSING_SET := PROCESSING_SET w;
     files := files w; channel := channel w;
     logs := logs w ++ [(lvl, msg)] |}.

(** ** Admission gate *)

(** [update_one({"key": key}, {"$set": {"used_today": 0, "last_used_date": today}})] *)
Definition apikeys_reset (k today : string) : World -> World :=
  with_apikeys
    (alter (fun r => set_last_used_date (Some today) (set_used_today (Some 0) r)) k)
    (ApikeysSet k 0 today).

(** [update_one({"key": key}, {"$inc": {"used_today": 1}})]; the store
    creates a missing field with the increment as its value. *)
Definition apikeys_inc (k : string) : World -> World :=
  with_apikeys
    (alter (fun r => set_used_today (Some (default 0 (used_today r) + 1)) r) k)
    (ApikeysInc k 1).

(** [expiry and expiry < datetime.datetime.utcnow()] *)
Definition key_expired (record : ApiKeyDoc) (clk : Clock) : bool :=
  match expiry_date record with
  | Some expiry => expiry <? utcnow clk
  | None => false
  end.

Definition check_api_key (k : string) (clk : Clock) (w : World)
    : (HTTPException + ApiKeyDoc) * World :=
  if String.eqb k "" then (inl (HTTP 401 "API key required"), w)
  else
    let w := with_apikeys id (ApikeysFindOne k) w in
    match apikeys w !! k with
    | None => (inl (HTTP 401 "Invalid API key"), w)
    | Some record =>
        if key_expired record clk then (inl (HTTP 403 "API key expired"), w)
        else
          let today := ist_date_str clk in
          let '(record, w) :=
            if decide (last_used_date record = Some today) then (record, w)
            else (set_used_today (Some 0) record, apikeys_reset k today w) in
          let used := default 0 (used_today record) in
          let limit := default 1000 (daily_limit record) in
          if limit <=? used then (inl (HTTP 429 "Daily limit reached"), w)
          else (inr record, apikeys_inc k w)
    end.

(** The attempts of one canonical day, one clock reading per attempt:
    the outcomes in order and the state they leave. *)
Fixpoint admit_all (k : string) (clks : list Clock) (w : World)
    : list (HTTPException + ApiKeyDoc) * World :=
  match clks with
  | [] => ([], w)
  | clk :: clks' =>
      let '(r, w1) := check_api_key k clk w in
      let '(rs, w2) := admit_all k clks' w1 in
      (r :: rs, w2)
  end.

Definition admitted (r : HTTPException + ApiKeyDoc) : bool :=
  match r with inr _ => true | inl _ => false end.

(** The used-today counter the store holds for a token. *)
Definition counter (k : string) (w : World) : option Z :=
  r ← apikeys w !! k; used_today r.

(** The store holds, for token [k], a record of quota [N] last used on
    [today] with [u] uses counted. *)
Definition used_on (k today : string) (N : Z) (e : option Z) (u : Z)
    (w : World) : Prop :=
  ∃ r, apikeys w !! k = Some r ∧ daily_limit r = Some N ∧ expiry_date r = e
       ∧ last_used_date r = Some today ∧ used_today r = Some u.

(** The uses the gate counts against a record at a clock reading: those
    recorded for the day of the reading, none when the record was last
    used on another day. *)
Definition counted_today (record : ApiKeyDoc) (clk : Clock) : Z :=
  if decide (last_used_date record = Some (ist_date_str clk))
  then default 0 (used_today record) else 0.

(** ** Cache index *)

Definition cache_key_of (vid media_type : string) : string :=
  (vid ++ ":" ++ media_type)%string.

Definition get_cached_file (vid media_type : string) (w : World)
    : option CacheDoc * World :=
  let cache_key := cache_key_of vid media_type in
  match IN_MEMORY_CACHE w !! cache_key with
  | Some doc => (Some doc, w)
  | None =>
      let w := with_cache id (CacheFindOne vid media_type) w in
      match cache w !! (vid, media_type) with
      | Some doc => (Some doc, with_memory <[cache_key := doc]> w)
      | None => (None, w)
      end
  end.

Definition save_cache_record (vid media_type fid : string) (chat msg : Z)
    (fname : string) (m : gmap string PyVal) (now : Z) (w : World)
    : CacheDoc * World :=
  let doc := {| ytid := vid; type := media_type; file_id := fid;
                chat_id := chat; msg_id := msg; file_name := fname;
                meta := m; cached_at := now |} in
  let w := with_cache <[(vid, media_type) := doc]> (CacheUpsert vid media_type doc) w in
  (doc, with_memory <[cache_key_of vid media_type := doc]> w).

(** ** Quality selector *)

(** An entry of the [formats] list that is an object, as far as the
    selector reads it; a field may be missing. *)
Record Format : Type := {
  f_type : option PyVal;
  height : option PyVal;
  bitrate : option PyVal
}.

(** An entry of the [formats] list: an object, or a value of another
    type. *)
Inductive FormatEntry : Type :=
| EntryDict (f : Format)
| EntryOther (t : PyType).

(** The value of [formats]: a list, or something else. Iterating a
    string gives its characters and iterating an object gives its keys,
    strings in both cases. *)
Inductive FormatsVal : Type :=
| FormatsList (l : list FormatEntry)
| FormatsStr (s : string)
| FormatsDict (keys : list string)
| FormatsOther (t : PyType).

(** The decoded metadata object, as far as the pipeline reads it. *)
Record Metadata : Type := {
  title : option PyVal;
  durationLabel : option PyVal;
  thumbnail : option PyVal;
  resolver_key : option PyVal;
  formats : option FormatsVal
}.

(** What [json.loads] returned: an object, or a value of another type. *)
Inductive OriginDoc : Type :=
| DocDict (m : Metadata)
| DocOther (t : PyType).

(** The process configuration read from the environment at start-up. *)
Record Config : Type := {
  DEFAULT_VIDEO_QUALITY : string;
  DEFAULT_AUDIO_QUALITY : string;
  CACHE_CHANNEL_ID : Z;
  DOWNLOAD_DIR : string
}.

(** Descending by key, entries with equal keys in their original
    order. *)
Fixpoint insert_desc {A K} (ltb : K -> K -> bool) (keyf : A -> K) (x : A)
    (l : list A) : list A :=
  match l with
  | [] => [x]
  | y :: l' =>
      if ltb (keyf x) (keyf y) then y :: insert_desc ltb keyf x l' else x :: l
  end.

Definition sort_desc {A K} (ltb : K -> K -> bool) (keyf : A -> K)
    (l : list A) : list A :=
  foldr (insert_desc ltb keyf) [] l.

Definition py_ltb (x y : PyVal) : bool := default false (py_lt x y).

Definition is_number (v : PyVal) : bool :=
  match num_val v with Some _ => true | None => false end.

Definition is_str (v : PyVal) : bool :=
  match v with PyStr _ => true | _ => false end.

(** [l.sort(key=..., reverse=True)]. A list of at most one entry is not
    compared at all. Otherwise the sort compares keys until the order is
    settled, which takes comparisons that link all entries; so it ends
    normally exactly when the keys are all numbers or all strings, and
    raises [TypeError] when they are not (its message names the types of
    the pair at which it failed, which depends on the order of the
    comparisons and is left out here). *)
Definition list_sort_desc {A} (keyf : A -> PyVal) (l : list A)
    : Exception + list A :=
  if (length l <=? 1)%nat then inr l
  else if forallb is_number (keyf <$> l) || forallb is_str (keyf <$> l)
  then inr (sort_desc py_ltb keyf l)
  else inl "'<' not supported between instances"%string.

(** [decrypted.get("formats", [])] *)
Definition get_formats (decrypted : OriginDoc) : Exception + FormatsVal :=
  match decrypted with
  | DocDict m => inr (default (FormatsList []) (formats m))
  | DocOther t => inl (no_attribute_get t)
  end.

(** [for f in formats] *)
Definition iterate (fmts : FormatsVal) : Exception + list FormatEntry :=
  match fmts with
  | FormatsList l => inr l
  | FormatsStr s => inr ((fun _ => EntryOther TStr) <$> chars s)
  | FormatsDict keys => inr ((fun _ => EntryOther TStr) <$> keys)
  | FormatsOther t => inl (not_iterable t)
  end.

Definition has_type (t : string) (f : Format) : bool :=
  bool_decide (f_type f = Some (PyStr t)).

(** [[f for f in formats if f.get("type") == t]]: the first entry that
    is not an object raises. *)
Fixpoint filter_type (t : string) (l : list FormatEntry)
    : Exception + list Format :=
  match l with
  | [] => inr []
  | EntryOther ty :: _ => inl (no_attribute_get ty)
  | EntryDict f :: l' =>
      try! rest := filter_type t l' in
      inr (if has_type t f then f :: rest else rest)
  end.

Definition choose_best_quality (cfg : Config) (decrypted : OriginDoc)
    (media_type : string) : Exception + string :=
  if String.eqb media_type "video" then
    try! fmts := get_formats decrypted in
    try! entries := iterate fmts in
    try! video_formats := filter_type "video" entries in
    match video_formats with
    | [] => inr (DEFAULT_VIDEO_QUALITY cfg)
    | _ :: _ =>
        try! sorted :=
          list_sort_desc (fun x => default (PyInt 0) (height x)) video_formats in
        match sorted with
        | best :: _ =>
            inr (default (DEFAULT_VIDEO_QUALITY cfg) (py_str <$> height best))
        | [] => inr (DEFAULT_VIDEO_QUALITY cfg)
        end
    end
  else
    try! fmts := get_formats decrypted in
    try! entries := iterate fmts in
    try! audio_formats := filter_type "audio" entries in
    match audio_formats with
    | [] => inr (DEFAULT_AUDIO_QUALITY cfg)
    | _ :: _ =>
        try! sorted :=
          list_sort_desc (fun x => default (PyInt 0) (bitrate x)) audio_formats in
        match sorted with
        | best :: _ =>
            inr (default (DEFAULT_AUDIO_QUALITY cfg) (py_str <$> bitrate best))
        | [] => inr (DEFAULT_AUDIO_QUALITY cfg)
        end
    end.

(** A [formats] list all of whose entries are objects. *)
Definition formats_of (l : list Format) : option FormatsVal :=
  Some (FormatsList (EntryDict <$> l)).

(** The two kinds the selector is asked about, with the name each has in
    the program, the field that carries its descriptor, and its
    configured default. *)
Inductive Kind : Type := Video | Audio.

Definition kind_name (kd : Kind) : string :=
  match kd with Video => "video" | Audio => "audio" end.

Definition descriptor (kd : Kind) (f : Format) : option PyVal :=
  match kd with Video => height f | Audio => bitrate f end.

Definition default_quality (cfg : Config) (kd : Kind) : string :=
  match kd with
  | Video => DEFAULT_VIDEO_QUALITY cfg
  | Audio => DEFAULT_AUDIO_QUALITY cfg
  end.

(** The key the sort compares: a missing descriptor counts as 0. *)
Definition score (kd : Kind) (f : Format) : PyVal :=
  default (PyInt 0) (descriptor kd f).

(** The number a numeric key is, in units of [2^-1074]. *)
Definition num_rank (v : PyVal) : Z := default 0 (num_val v).

(** What the selector prints for an entry: its descriptor, or the
    default where the entry has none. *)
Definition printed (cfg : Config) (kd : Kind) (f : Format) : string :=
  default (default_quality cfg kd) (py_str <$> descriptor kd f).

(** ** Single-flight archiver *)

(** The arguments of one [background_download_and_upload] call. *)
Record ArchiveArgs : Type := {
  a_ytid : string;
  a_media_type : string;
  a_download_url : string;
  a_title : PyVal;
  a_quality : string;
  a_meta : gmap string PyVal
}.

(** What the outside world answers to one archival run. A failed
    download may or may not have created the destination file. *)
Inductive DownloadOutcome : Type :=
| DownloadOk
| DownloadFailed (e : Exception) (file_created : bool).

Record ArchiveEnv : Type := {
  download_outcome : DownloadOutcome;
  upload_outcome : Exception + string * Z;
  save_outcome : Exception + Z;
  remove_outcome : option Exception
}.

(** [os.path.join(dir, name)] *)
Definition path_join (dir name : string) : string :=
  if PyStr.starts_with (chars "/") (chars name) then name
  else if String.eqb dir "" then name
  else if PyStr.starts_with (chars "/") (rev (chars dir)) then (dir ++ name)%string
  else (dir ++ "/" ++ name)%string.

Definition archive_filename (a : ArchiveArgs) : string :=
  let ext := if String.eqb (a_media_type a) "video" then "mp4" else "mp3" in
  (a_ytid a ++ "_" ++ a_media_type a ++ "_" ++ a_quality a ++ "." ++ ext)%string.

Definition archive_filepath (cfg : Config) (a : ArchiveArgs) : string :=
  path_join (DOWNLOAD_DIR cfg) (archive_filename a).

Definition archive_key (a : ArchiveArgs) : string :=
  cache_key_of (a_ytid a) (a_media_type a).

(** [\w] on a [str], for the code points up to 255: the letters and
    digits of [str.isalnum] and the underscore. *)
Definition word_char (c : ascii) : bool :=
  let n := nat_of_ascii c in
  ((48 <=? n) && (n <=? 57) || (65 <=? n) && (n <=? 90)
   || (97 <=? n) && (n <=? 122) || (n =? 95)
   || (n =? 170) || (n =? 178) || (n =? 179) || (n =? 181) || (n =? 185)
   || (n =? 186) || (188 <=? n) && (n <=? 190)
   || (192 <=? n) && (n <=? 214) || (216 <=? n) && (n <=? 246)
   || (248 <=? n))%nat.

(** [re.sub(r'[^\w\-_\. ]', '_', name)]: [re.sub] raises [TypeError] on
    anything but a string. *)
Definition sanitize_filename (name : PyVal) : Exception + string :=
  match name with
  | PyStr s =>
      inr (text ((fun c =>
                    if word_char c || Ascii.eqb c "-" || Ascii.eqb c "_"
                       || Ascii.eqb c "." || Ascii.eqb c " "
                    then c else "_"%char) <$> chars s))
  | v =>
      inl ("expected string or bytes-like object, got '"
           ++ type_name (type_of v) ++ "'")%string
  end.

(** The title as a string, where it is one. *)
Definition title_text (v : PyVal) : string :=
  match v with PyStr s => s | _ => "" end.

(** [upload_to_telegram]: the message posted to the cache channel. The
    title is a string here, a run with another title having raised
    before. *)
Definition uploaded (cfg : Config) (a : ArchiveArgs) (fid : string) (mid : Z)
    : Upload :=
  {| up_media_type := if String.eqb (a_media_type a) "video" then "video" else "audio";
     up_path := archive_filepath cfg a;
     up_caption := substring 0 1000 (title_text (a_title a));
     up_title := if String.eqb (a_media_type a) "video" then None
                 else Some (substring 0 64 (title_text (a_title a)));
     up_file_id := fid;
     up_msg_id := mid |}.

(** Where a run of the coroutine is suspended. [Entry] is a task that has
    been created and not yet scheduled; the [At...] points are the awaits
    on the download, on the upload, on the store write and on
    [session.close()] in the [finally] block, which is taken not to
    raise; [Done] is the coroutine having returned and [Crashed] the
    coroutine having raised, which ends the task. *)
Inductive pc : Type :=
| Entry
| AtDownload
| AtUpload
| AtSave (fid : string) (mid : Z)
| AtFinally
| Done
| Crashed (e : Exception).

(** The [except Exception] handler of the coroutine. *)
Definition task_failed (a : ArchiveArgs) (e : Exception) (w : World) : pc * World :=
  (AtFinally,
   log ERROR ("Background task failed for " ++ archive_key a ++ ": " ++ e) w).

(** One scheduling of the coroutine: the awaited operation takes effect
    and the code runs on to its next await. The event loop switches tasks
    only at an await, so each step is atomic. The first step marks the
    key and then computes [safe_title], outside the [try]: if that
    raises, the coroutine ends there, with neither handler nor cleanup. *)
Definition task_step (cfg : Config) (a : ArchiveArgs) (env : ArchiveEnv)
    (p : pc) (w : World) : pc * World :=
  let cache_key := archive_key a in
  let filepath := archive_filepath cfg a in
  match p with
  | Entry =>
      if decide (cache_key ∈ PROCESSING_SET w) then
        (Done, log INFO ("Already processing " ++ cache_key ++ ", skipping") w)
      else
        let w := with_processing (fun s => s ∪ {[cache_key]}) w in
        match sanitize_filename (a_title a) with
        | inl e => (Crashed e, w)
        | inr name =>
            let safe_title := substring 0 100 name in
            (AtDownload,
             log INFO ("Downloading " ++ a_ytid a ++ " to " ++ filepath) w)
        end
  | AtDownload =>
      match download_outcome env with
      | DownloadOk =>
          let w := with_files (fun s => s ∪ {[filepath]}) w in
          (AtUpload,
           log INFO ("Uploading " ++ archive_filename a ++ " to Telegram") w)
      | DownloadFailed e file_created =>
          let w := if file_created
                   then with_files (fun s => s ∪ {[filepath]}) w else w in
          task_failed a e w
      end
  | AtUpload =>
      match upload_outcome env with
      | inr (fid, mid) =>
          (AtSave fid mid,
           with_channel (fun c => c ++ [uploaded cfg a fid mid]) w)
      | inl e =>
          task_failed a e (log ERROR ("Telegram upload failed: " ++ e) w)
      end
  | AtSave fid mid =>
      match save_outcome env with
      | inr now =>
          let m := a_meta a ∪ {[ "title" := a_title a;
                                 "quality" := PyStr (a_quality a) ]} in
          let '(_, w) :=
            save_cache_record (a_ytid a) (a_media_type a) fid
              (CACHE_CHANNEL_ID cfg) mid (archive_filename a) m now w in
          (AtFinally,
           log INFO ("Cached " ++ cache_key ++ " as file_id " ++ fid) w)
      | inl e => task_failed a e w
      end
  | AtFinally =>
      let w :=
        if decide (filepath ∈ files w) then
          match remove_outcome env with
          | None => with_files (fun s => s ∖ {[filepath]}) w
          | Some e =>
              log ERROR ("Failed to delete " ++ filepath ++ ": " ++ e) w
          end
        else w in
      (Done, with_processing (fun s => s ∖ {[cache_key]}) w)
  | Done => (Done, w)
  | Crashed e => (Crashed e, w)
  end.

Fixpoint run_task (cfg : Config) (a : ArchiveArgs) (env : ArchiveEnv)
    (fuel : nat) (p : pc) (w : World) : pc * World :=
  match fuel with
  | O => (p, w)
  | S n =>
      let '(p', w') := task_step cfg a env p w in
      run_task cfg a env n p' w'
  end.

(** One call run on its own from creation: five schedulings cover the
    longest path. *)
Definition background_download_and_upload (cfg : Config) (a : ArchiveArgs)
    (env : ArchiveEnv) (w : World) : pc * World :=
  run_task cfg a env 5 Entry w.

(** Two tasks on the event loop. A schedule names, step by step, the task
    that runs next; scheduling a task that has returned changes nothing. *)
Record Task : Type := {
  t_args : ArchiveArgs;
  t_env : ArchiveEnv;
  t_pc : pc
}.

Record Sys : Type := {
  task0 : Task;
  task1 : Task;
  world : World
}.

Definition task_of (who : bool) (s : Sys) : Task :=
  if who then task1 s else task0 s.

Definition at_pc (p : pc) (t : Task) : Task :=
  {| t_args := t_args t; t_env := t_env t; t_pc := p |}.

Definition sys_step (cfg : Config) (who : bool) (s : Sys) : Sys :=
  let t := task_of who s in
  let '(p, w) := task_step cfg (t_args t) (t_env t) (t_pc t) (world s) in
  if who then {| task0 := task0 s; task1 := at_pc p t; world := w |}
  else {| task0 := at_pc p t; task1 := task1 s; world := w |}.

Definition run_schedule (cfg : Config) (sch : list bool) (s : Sys) : Sys :=
  foldl (fun s who => sys_step cfg who s) s sch.

Definition spawn (a : ArchiveArgs) (env : ArchiveEnv) : Task :=
  {| t_args := a; t_env := env; t_pc := Entry |}.

Definition in_flight (p : pc) : bool :=
  match p with
  | AtDownload | AtUpload | AtSave _ _ | AtFinally => true
  | Entry | Done | Crashed _ => false
  end.

Definition is_done (p : pc) : bool :=
  match p with Done => true | _ => false end.

(** A task has settled when its coroutine has returned or raised. *)
Definition settled (p : pc) : bool :=
  match p with Done | Crashed _ => true | _ => false end.

Definition is_entry (p : pc) : bool :=
  match p with Entry => true | _ => false end.

(** The two calls overlap in a schedule when one of them is first
    scheduled while the other is in flight. *)
Definition overlapping (cfg : Config) (sch : list bool) (s : Sys) : Prop :=
  ∃ (pre post : list bool) (who : bool),
    sch = pre ++ who :: post
    ∧ is_entry (t_pc (task_of who (run_schedule cfg pre s))) = true
    ∧ in_flight (t_pc (task_of (negb who) (run_schedule cfg pre s))) = true.

Definition all_succeed (env : ArchiveEnv) : bool :=
  match download_outcome env, upload_outcome env, save_outcome env with
  | DownloadOk, inr _, inr _ => true
  | _, _, _ => false
  end.

Definition is_cache_upsert (op : MongoOp) : bool :=
  match op with CacheUpsert _ _ _ => true | _ => false end.

(** The record writes among the requests the store received. *)
Definition cache_writes (w : World) : list MongoOp :=
  List.filter is_cache_upsert (mongo_ops w).

(** How many uploads and record writes a run still has before it when
    suspended at a given point. *)
Definition uploads_ahead (p : pc) : nat :=
  match p with
  | Entry | AtDownload | AtUpload => 1
  | AtSave _ _ | AtFinally | Done | Crashed _ => 0
  end.

Definition writes_ahead (p : pc) : nat :=
  match p with
  | Entry | AtDownload | AtUpload | AtSave _ _ => 1
  | AtFinally | Done | Crashed _ => 0
  end.

(** What holds of the one run that archives key [K], started in [w0]
    with [K] unmarked and with a title that is a string: the mark is set
    exactly while the run is in
    flight, and what it has uploaded and written, with what it may still
    upload and write, stays within one of each; when nothing fails it is
    exactly one of each. *)
Definition runner_inv (K : string) (w0 : World) (env : ArchiveEnv) (p : pc)
    (w : World) : Prop :=
  (is_entry p = true -> K ∉ PROCESSING_SET w)
  ∧ (in_flight p = true -> K ∈ PROCESSING_SET w)
  ∧ (is_done p = true -> K ∉ PROCESSING_SET w)
  ∧ (length (channel w) + uploads_ahead p <= length (channel w0) + 1)%nat
  ∧ (length (cache_writes w) + writes_ahead p
     <= length (cache_writes w0) + 1)%nat
  ∧ (all_succeed env = true ->
     (length (channel w) + uploads_ahead p = length (channel w0) + 1)%nat
     ∧ (length (cache_writes w) + writes_ahead p
        = length (cache_writes w0) + 1)%nat).

(** Two tasks for key [K], [r] the one that runs the archival, its title
    a string, and the other one not yet scheduled, or already
    returned. *)
Definition phase (other_at : pc -> bool) (K : string) (w0 : World) (r : bool)
    (s : Sys) : Prop :=
  archive_key (t_args (task0 s)) = K
  ∧ archive_key (t_args (task1 s)) = K
  ∧ is_str (a_title (t_args (task_of r s))) = true
  ∧ other_at (t_pc (task_of (negb r) s)) = true
  ∧ runner_inv K w0 (t_env (task_of r s)) (t_pc (task_of r s)) (world s).

(** ** Resolution orchestrator *)

(** [s.replace(old, new)] for a non-empty [old]; [skip] counts the
    characters of an occurrence still to be dropped. *)
Fixpoint replace_from (old new : list ascii) (skip : nat) (l : list ascii)
    : list ascii :=
  match l with
  | [] => []
  | c :: l' =>
      match skip with
      | S n => replace_from old new n l'
      | O =>
          if PyStr.starts_with old l
          then new ++ replace_from old new (length old - 1) l'
          else c :: replace_from old new 0 l'
      end
  end.

Definition replace (old new s : string) : string :=
  text (replace_from (chars old) (chars new) 0 (chars s)).

(** What the outside world answers to one request: the clock, the origin
    service behind [savetube_info] and [savetube_download], and the blob
    store's file-location lookup. [savetube_info] returns what
    [json.loads] made of the payload; [savetube_download] is given
    [decrypted.get("key")], the quality and the kind. *)
Record RequestEnv : Type := {
  clock : Clock;
  savetube_info : string -> Exception + OriginDoc;
  savetube_download : PyVal -> string -> string -> Exception + string;
  get_telegram_download_url : string -> string
}.

(** The [result] object of a successful reply. *)
Record ResultBody : Type := {
  r_title : PyVal;
  r_duration : PyVal;
  r_quality : PyVal;
  r_source : string;
  r_url : string;
  r_file_id : option string;
  r_telegram_msg : option (Z * Z * string)
}.

Inductive Response : Type :=
| Raised (e : HTTPException)
| JSONResponse (status_code : Z) (message : string)
| Success (result : ResultBody).

(** [d.get(k, "Unknown")] on a metadata map. *)
Definition get_or_unknown (m : gmap string PyVal) (k : string) : PyVal :=
  default (PyStr "Unknown") (m !! k).

(** [quality or choose_best_quality(...)]: an absent or empty hint is
    falsy. *)
Definition truthy (q : option string) : option string :=
  match q with
  | Some s => if String.eqb s "" then None else Some s
  | None => None
  end.

(** The [result] object the handlers build from a cached record. *)
Definition hit_reply (env : RequestEnv) (cached : CacheDoc) : ResultBody :=
  {| r_title := get_or_unknown (meta cached) "title";
     r_duration := get_or_unknown (meta cached) "duration";
     r_quality := get_or_unknown (meta cached) "quality";
     r_source := "telegram_cache";
     r_url := get_telegram_download_url env (file_id cached);
     r_file_id := Some (file_id cached);
     r_telegram_msg :=
       Some (chat_id cached, msg_id cached,
             ("https://t.me/c/" ++ replace "-100" "" (str_of_Z (chat_id cached))
              ++ "/" ++ str_of_Z (msg_id cached))%string) |}.

(** [quality or choose_best_quality(decrypted, media_type)] *)
Definition selected_quality (cfg : Config) (decrypted : OriginDoc)
    (media_type : string) (quality : option string) : Exception + string :=
  match truthy quality with
  | Some q => inr q
  | None => choose_best_quality cfg decrypted media_type
  end.

(** The [result] object the handlers build from the origin's answers. *)
Definition origin_reply (decrypted : Metadata) (selected download_url : string)
    : ResultBody :=
  {| r_title := default (PyStr "Unknown") (title decrypted);
     r_duration := default (PyStr "Unknown") (durationLabel decrypted);
     r_quality := PyStr selected;
     r_source := "savetube";
     r_url := download_url;
     r_file_id := None;
     r_telegram_msg := None |}.

(** The arguments the handlers give to [background_download_and_upload]. *)
Definition archive_args (vidid media_type : string) (decrypted : Metadata)
    (selected download_url : string) : ArchiveArgs :=
  {| a_ytid := vidid;
     a_media_type := media_type;
     a_download_url := download_url;
     a_title := default (PyStr vidid) (title decrypted);
     a_quality := selected;
     a_meta :=
       {[ "duration" := default (PyStr "Unknown") (durationLabel decrypted);
          "thumbnail" := default PyNone (thumbnail decrypted) ]} |}.

(** The body shared by [ytmp4] and [ytmp3]: the reply, the state left
    behind, and the archival task handed to [asyncio.create_task], if
    any. Whatever raises between the creation of the session and the
    reply is caught, logged and answered with status 500. *)
Definition resolve (cfg : Config) (media_type label : string)
    (env : RequestEnv) (url api_key : string) (quality : option string)
    (w : World) : Response * World * option ArchiveArgs :=
  match check_api_key api_key (clock env) w with
  | (inl e, w) => (Raised e, w, None)
  | (inr _, w) =>
      let yt_url := normalize_youtube_input url in
      let vidid :=
        match extract_vidid url with
        | Some v => if String.eqb v "" then extract_vidid yt_url else Some v
        | None => extract_vidid yt_url
        end in
      match truthy vidid with
      | None => (JSONResponse 400 "Invalid YouTube URL or ID", w, None)
      | Some vidid =>
          match get_cached_file vidid media_type w with
          | (Some cached, w) => (Success (hit_reply env cached), w, None)
          | (None, w) =>
              let failed (e : Exception) :=
                (JSONResponse 500 e, log ERROR (label ++ " error: " ++ e) w,
                 @None ArchiveArgs) in
              match savetube_info env yt_url with
              | inl e => failed e
              | inr decrypted =>
                  match selected_quality cfg decrypted media_type quality with
                  | inl e => failed e
                  | inr selected =>
                      match decrypted with
                      | DocOther t => failed (no_attribute_get t)
                      | DocDict m =>
                          match savetube_download env
                                  (default PyNone (resolver_key m))
                                  selected media_type with
                          | inl e => failed e
                          | inr download_url =>
                              (Success (origin_reply m selected download_url),
                               w,
                               Some (archive_args vidid media_type m selected
                                       download_url))
                          end
                      end
                  end
              end
          end
      end
  end.

Definition ytmp4 (cfg : Config) : RequestEnv -> string -> string ->
    option string -> World -> Response * World * option ArchiveArgs :=
  resolve cfg "video" "YTMP4".

Definition ytmp3 (cfg : Config) : RequestEnv -> string -> string ->
    option string -> World -> Response * World * option ArchiveArgs :=
  resolve cfg "audio" "YTMP3".

(** The entries of the [formats] list that are objects. *)
Definition format_entries (decrypted : OriginDoc) : list Format :=
  match decrypted with
  | DocDict m =>
      match formats m with
      | Some (FormatsList l) =>
          omap (fun e => match e with EntryDict f => Some f | _ => None end) l
      | _ => []
      end
  | DocOther _ => []
  end.

(** The qualities the metadata offers for a kind, as the handlers would
    print them. *)
Definition renditions (decrypted : OriginDoc) (media_type : string)
    : list string :=
  omap (fun f =>
          if has_type media_type f
          then py_str <$> (if String.eqb media_type "video"
                           then height f else bitrate f)
          else None)
       (format_entries decrypted).

Definition is_cache_op (op : MongoOp) : bool :=
  match op with
  | CacheFindOne _ _ | CacheUpsert _ _ _ => true
  | _ => false
  end.

(** ** Payload decoding *)

(** Python [bytes]: a list of 8-bit characters. *)
Abbreviation bytes := (list ascii).

Definition byte_val (c : ascii) : Z := Z.of_N (N_of_ascii c).
Definition byte_of (n : Z) : ascii := ascii_of_N (Z.to_N n).

Module Base64.

Definition alphabet : list ascii :=
  chars "ABCDEFGHIJKLMNOPQRSTUVWXYZabcdefghijklmnopqrstuvwxyz0123456789+/".

Definition enc6 (n : Z) : ascii := nth (Z.to_nat n) alphabet "A"%char.

Fixpoint index_of (c : ascii) (l : list ascii) (i : Z) : option Z :=
  match l with
  | [] => None
  | d :: l' => if Ascii.eqb c d then Some i else index_of c l' (i + 1)
  end.

Definition dec6 (c : ascii) : option Z := index_of c alphabet 0.

(** [base64.b64encode]: three bytes make four characters; a last group
    of one or two bytes is padded with [=]. *)
Fixpoint b2a (l : bytes) : list ascii :=
  match l with
  | [] => []
  | [a] =>
      let a := byte_val a in
      [enc6 (a / 4); enc6 (a mod 4 * 16); "="; "="]%char
  | [a; b] =>
      let a := byte_val a in
      let b := byte_val b in
      [enc6 (a / 4); enc6 (a mod 4 * 16 + b / 16); enc6 (b mod 16 * 4); "="%char]
  | a :: b :: c :: l' =>
      let a := byte_val a in
      let b := byte_val b in
      let c := byte_val c in
      enc6 (a / 4) :: enc6 (a mod 4 * 16 + b / 16)
        :: enc6 (b mod 16 * 4 + c / 64) :: enc6 (c mod 64) :: b2a l'
  end.

Definition b64encode (data : bytes) : string := text (b2a data).

(** [binascii.a2b_base64] without strict mode: characters outside the
    alphabet are skipped, a complete pad sequence ends the parse, and an
    incomplete last group is an error. [quad_pos] is the position in the
    current group of four, [leftchar] the bits carried over, [pads] the
    pad characters seen since the last data character. *)
Fixpoint a2b (l : list ascii) (quad_pos : nat) (leftchar : Z) (pads : nat)
    : Exception + bytes :=
  match l with
  | [] =>
      match quad_pos with
      | O => inr []
      | 1%nat => inl "Invalid base64-encoded string"%string
      | _ => inl "Incorrect padding"%string
      end
  | c :: l' =>
      if Ascii.eqb c "=" then
        if (2 <=? quad_pos)%nat then
          if (4 <=? quad_pos + S pads)%nat then inr []
          else a2b l' quad_pos leftchar (S pads)
        else a2b l' quad_pos leftchar pads
      else
        match dec6 c with
        | None => a2b l' quad_pos leftchar pads
        | Some v =>
            match quad_pos with
            | O => a2b l' 1 v 0
            | 1%nat =>
                try! out := a2b l' 2 (v mod 16) 0 in
                inr (byte_of ((leftchar * 4 + v / 16) mod 256) :: out)
            | 2%nat =>
                try! out := a2b l' 3 (v mod 4) 0 in
                inr (byte_of ((leftchar * 16 + v / 4) mod 256) :: out)
            | _ =>
                try! out := a2b l' 0 0 0 in
                inr (byte_of ((leftchar * 64 + v) mod 256) :: out)
            end
        end
  end.

(** [base64.b64decode(s)] for a [str]: the text must be ASCII. *)
Definition b64decode (s : string) : Exception + bytes :=
  if forallb (fun c => byte_val c <? 128) (chars s) then a2b (chars s) 0 0 0
  else inl "string argument should contain only ASCII characters"%string.

End Base64.

(** [bytes.fromhex] *)
Definition hex_val (c : ascii) : Z :=
  let n := Z.of_nat (nat_of_ascii c) in
  if (48 <=? n) && (n <=? 57) then n - 48
  else if (65 <=? n) && (n <=? 70) then n - 55
  else n - 87.

Fixpoint fromhex_chars (l : list ascii) : bytes :=
  match l with
  | hi :: lo :: l' => byte_of (hex_val hi * 16 + hex_val lo) :: fromhex_chars l'
  | _ => []
  end.

Definition AES_HEX_KEY : string := "C5D58EF67A7584E4A29F6C35BBC4EB12".
Definition AES_KEY_BYTES : bytes := fromhex_chars (chars AES_HEX_KEY).

Definition xor_byte (a b : ascii) : ascii :=
  match a, b with
  | Ascii a0 a1 a2 a3 a4 a5 a6 a7, Ascii b0 b1 b2 b3 b4 b5 b6 b7 =>
      Ascii (xorb a0 b0) (xorb a1 b1) (xorb a2 b2) (xorb a3 b3)
            (xorb a4 b4) (xorb a5 b5) (xorb a6 b6) (xorb a7 b7)
  end.

Definition xor_bytes (x y : bytes) : bytes := zip_with xor_byte x y.

Module Pkcs7.

(** [Crypto.Util.Padding.pad(data, block_size)] *)
Definition pad (data : bytes) (block_size : nat) : bytes :=
  let padding_len := (block_size - length data mod block_size)%nat in
  data ++ replicate padding_len (byte_of (Z.of_nat padding_len)).

(** [Crypto.Util.Padding.unpad(padded_data, block_size, style='pkcs7')] *)
Definition unpad (padded_data : bytes) (block_size : nat) : Exception + bytes :=
  let pdata_len := length padded_data in
  if (pdata_len =? 0)%nat then
    inl "Zero-length input cannot be unpadded"%string
  else if negb (pdata_len mod block_size =? 0)%nat then
    inl "Input data is not padded"%string
  else
    let padding_len := Z.to_nat (byte_val (List.last padded_data "000"%char)) in
    if (padding_len <? 1)%nat || (Nat.min block_size pdata_len <? padding_len)%nat
    then inl "Padding is incorrect."%string
    else if bool_decide
              (drop (pdata_len - padding_len) padded_data
               = replicate padding_len (byte_of (Z.of_nat padding_len)))
    then inr (take (pdata_len - padding_len) padded_data)
    else inl "PKCS#7 padding is incorrect."%string.

End Pkcs7.

Section Payload.

(** The block cipher of [Crypto.Cipher.AES] on one 16-byte block, and the
    text codec and JSON parser of the standard library, are taken as
    given. *)
Variable Doc : Type.
Variable aes_encrypt_block : bytes -> bytes -> bytes.
Variable aes_decrypt_block : bytes -> bytes -> bytes.
Variable decode_utf8 : bytes -> Exception + string.
Variable json_loads : string -> Exception + Doc.

(** Cipher-block chaining over [n] blocks, [prev] being the previous
    ciphertext block (the initialisation vector for the first). *)
Fixpoint cbc_encrypt_blocks (k : bytes) (n : nat) (prev data : bytes) : bytes :=
  match n with
  | O => []
  | S n' =>
      let c := aes_encrypt_block k (xor_bytes (take 16 data) prev) in
      c ++ cbc_encrypt_blocks k n' c (drop 16 data)
  end.

Fixpoint cbc_decrypt_blocks (k : bytes) (n : nat) (prev data : bytes) : bytes :=
  match n with
  | O => []
  | S n' =>
      let c := take 16 data in
      xor_bytes (aes_decrypt_block k c) prev
        ++ cbc_decrypt_blocks k n' c (drop 16 data)
  end.

(** [AES.new(key, AES.MODE_CBC, iv=iv).encrypt(data)] *)
Definition cbc_encrypt (k iv data : bytes) : Exception + bytes :=
  if negb (length iv =? 16)%nat then inl "Incorrect IV length"%string
  else if negb (length data mod 16 =? 0)%nat
  then inl "Data must be padded to 16 byte boundary in CBC mode"%string
  else inr (cbc_encrypt_blocks k (length data / 16) iv data).

(** [AES.new(key, AES.MODE_CBC, iv=iv).decrypt(ciphertext)] *)
Definition cbc_decrypt (k iv ciphertext : bytes) : Exception + bytes :=
  if negb (length iv =? 16)%nat then inl "Incorrect IV length"%string
  else if negb (length ciphertext mod 16 =? 0)%nat
  then inl "Data must be padded to 16 byte boundary in CBC mode"%string
  else inr (cbc_decrypt_blocks k (length ciphertext / 16) iv ciphertext).

(** The body of the [try] block. *)
Definition decode_payload (b64_encrypted : string) : Exception + Doc :=
  try! raw := Base64.b64decode b64_encrypted in
  let iv := take 16 raw in
  let ciphertext := drop 16 raw in
  try! decrypted := cbc_decrypt AES_KEY_BYTES iv ciphertext in
  try! unpadded := Pkcs7.unpad decrypted 16 in
  try! s := decode_utf8 unpadded in
  json_loads s.

(** The handler logs the failure and raises it again. *)
Definition decrypt_savetube_data (b64_encrypted : string) (w : World)
    : (Exception + Doc) * World :=
  match decode_payload b64_encrypted with
  | inl e => (inl e, log ERROR ("Decryption failed: " ++ e) w)
  | inr d => (inr d, w)
  end.

(** The encryption scheme the decoder is set against: pad, chain under
    the fixed key from the given initialisation vector, put the vector in
    front, encode. *)
Definition encrypt_payload (iv plaintext : bytes) : Exception + string :=
  try! ciphertext := cbc_encrypt AES_KEY_BYTES iv (Pkcs7.pad plaintext 16) in
  inr (Base64.b64encode (iv ++ ciphertext)).

End Payload.

(** A stand-in cipher for running the scheme on an example: each block
    is combined with the key. *)
Definition toy_cipher (k block : bytes) : bytes := xor_bytes block k.


(** ** Sample data *)

Definition sample_cfg : Config :=
  {| DEFAULT_VIDEO_QUALITY := "720"; DEFAULT_AUDIO_QUALITY := "320";
     CACHE_CHANNEL_ID := -1001234567890; DOWNLOAD_DIR := "./downloads" |}.

Definition video_format (h : Z) : Format :=
  {| f_type := Some (PyStr "video"); height := Some (PyInt h); bitrate := None |}.

Definition audio_format (b : Z) : Format :=
  {| f_type := Some (PyStr "audio"); height := None; bitrate := Some (PyInt b) |}.

Definition sample_metadata : Metadata :=
  {| title := Some (PyStr "Never Gonna Give You Up");
     durationLabel := Some (PyStr "3:33");
     thumbnail := None;
     resolver_key := Some (PyStr "k0");
     formats := formats_of [video_format 480; video_format 720; audio_format 128] |}.

(** The same document with a null title. *)
Definition untitled_metadata : Metadata :=
  {| title := Some PyNone;
     durationLabel := durationLabel sample_metadata;
     thumbnail := thumbnail sample_metadata;
     resolver_key := resolver_key sample_metadata;
     formats := formats sample_metadata |}.

Definition sample_token : ApiKeyDoc :=
  {| key := "abc"; owner := "user"; daily_limit := Some 2;
     used_today := Some 0; last_used_date := None; expiry_date := None;
     is_admin := false; created_at := 0 |}.

Definition sample_world : World :=
  {| apikeys := {[ "abc"%string := sample_token ]}; cache := ∅;
     mongo_ops := []; IN_MEMORY_CACHE := ∅; PROCESSING_SET := ∅;
     files := ∅; channel := []; logs := [] |}.

Definition sample_clock : Clock :=
  {| utcnow := 1700000000; ist_date_str := "2023-11-15" |}.

Definition sample_env : RequestEnv :=
  {| clock := sample_clock;
     savetube_info := fun _ => inr (DocDict sample_metadata);
     savetube_download := fun _ q _ =>
       inr ("https://cdn.example/" ++ q)%string;
     get_telegram_download_url := fun fid =>
       ("https://api.telegram.org/file/" ++ fid)%string |}.

Definition sample_args : ArchiveArgs :=
  {| a_ytid := "dQw4w9WgXcQ"; a_media_type := "video";
     a_download_url := "https://cdn.example/720";
     a_title := PyStr "Never Gonna Give You Up"; a_quality := "720";
     a_meta := ∅ |}.

Definition sample_archive_env : ArchiveEnv :=
  {| download_outcome := DownloadOk;
     upload_outcome := inr ("file-1"%string, 42);
     save_outcome := inr 1700000100;
     remove_outcome := None |}.

Definition scenario_world : World :=
  {| apikeys := {[ "abc"%string :=
                   {| key := "abc"; owner := "user"; daily_limit := Some 1000;
                      used_today := Some 0; last_used_date := None;
                      expiry_date := None; is_admin := false;
                      created_at := 0 |} ]};
     cache := ∅; mongo_ops := []; IN_MEMORY_CACHE := ∅; PROCESSING_SET := ∅;
     files := ∅; channel := []; logs := [] |}.

Definition source_of (resp : Response) : option string :=
  match resp with
  | Success res => Some (r_source res)
  | _ => None
  end.

Definition title_of (resp : Response) : option PyVal :=
  match resp with
  | Success res => Some (r_title res)
  | _ => None
  end.

(** The end-to-end scenario: a first request for an uncached video, a
    second one while the archival of the first is in flight, and a third
    one after that archival has completed. The observations are the
    source of each reply, the titles of the first and the third, the
    points the two archival tasks are at after their first scheduling,
    the number of uploads at the end and the counter of the token. *)
Definition scenario : list (option string) * list (option PyVal)
                      * list pc * nat * option Z :=
  let url := "https://youtu.be/dQw4w9WgXcQ"%string in
  let '(resp1, w, task1) := ytmp4 sample_cfg sample_env url "abc" None scenario_world in
  let a1 := default sample_args task1 in
  let '(p1, w) := task_step sample_cfg a1 sample_archive_env Entry w in
  let '(resp2, w, task2) := ytmp4 sample_cfg sample_env url "abc" None w in
  let a2 := default sample_args task2 in
  let '(p2, w) := task_step sample_cfg a2 sample_archive_env Entry w in
  let '(p1', w) := run_task sample_cfg a1 sample_archive_env 4 p1 w in
  let '(resp3, w, task3) := ytmp4 sample_cfg sample_env url "abc" None w in
  ([source_of resp1; source_of resp2; source_of resp3],
   [title_of resp1; title_of resp3],
   [p1; p2; p1'],
   length (channel w),
   counter "abc" w).

(** ** Admission gate, between awaits *)

(** Where one [check_api_key] call is suspended: not yet scheduled; at
    the await on [find_one]; at the await on the [$set] that resets the
    counter, holding the record as read; at the await on the [$inc],
    holding the record the quota check has passed; returned or raised. *)
Inductive gate_pc : Type :=
| GEntry
| GAtFind
| GAtReset (record : ApiKeyDoc)
| GAtInc (record : ApiKeyDoc)
| GDone (result : HTTPException + ApiKeyDoc).

(** The quota check on the record the coroutine holds. *)
Definition quota_check (record : ApiKeyDoc) : gate_pc :=
  let used := default 0 (used_today record) in
  let limit := default 1000 (daily_limit record) in
  if limit <=? used then GDone (inl (HTTP 429 "Daily limit reached"))
  else GAtInc record.

(** One scheduling of the coroutine: the awaited store operation takes
    effect and the code runs on to its next await. *)
Definition gate_step (k : string) (clk : Clock) (p : gate_pc) (w : World)
    : gate_pc * World :=
  match p with
  | GEntry =>
      if String.eqb k "" then (GDone (inl (HTTP 401 "API key required")), w)
      else (GAtFind, w)
  | GAtFind =>
      let w := with_apikeys id (ApikeysFindOne k) w in
      match apikeys w !! k with
      | None => (GDone (inl (HTTP 401 "Invalid API key")), w)
      | Some record =>
          if key_expired record clk
          then (GDone (inl (HTTP 403 "API key expired")), w)
          else if decide (last_used_date record = Some (ist_date_str clk))
          then (quota_check record, w)
          else (GAtReset record, w)
      end
  | GAtReset record =>
      (quota_check (set_used_today (Some 0) record),
       apikeys_reset k (ist_date_str clk) w)
  | GAtInc record => (GDone (inr record), apikeys_inc k w)
  | GDone result => (GDone result, w)
  end.

Fixpoint gate_run (k : string) (clk : Clock) (fuel : nat) (p : gate_pc)
    (w : World) : gate_pc * World :=
  match fuel with
  | O => (p, w)
  | S n =>
      let '(p', w') := gate_step k clk p w in
      gate_run k clk n p' w'
  end.

(** Two requests with the same token on the event loop. *)
Record GateSys : Type := {
  gate0 : gate_pc;
  gate1 : gate_pc;
  gate_world : World
}.

Definition gate_sys_step (k : string) (clk0 clk1 : Clock) (who : bool)
    (s : GateSys) : GateSys :=
  if who then
    let '(p, w) := gate_step k clk1 (gate1 s) (gate_world s) in
    {| gate0 := gate0 s; gate1 := p; gate_world := w |}
  else
    let '(p, w) := gate_step k clk0 (gate0 s) (gate_world s) in
    {| gate0 := p; gate1 := gate1 s; gate_world := w |}.

Definition gate_schedule (k : string) (clk0 clk1 : Clock) (sch : list bool)
    (s : GateSys) : GateSys :=
  foldl (fun s who => gate_sys_step k clk0 clk1 who s) s sch.

(** The store never holds more uses for the token than its quota. *)
Definition within_quota (k : string) (w : World) : Prop :=
  ∀ r, apikeys w !! k = Some r ->
       0 <= default 1000 (daily_limit r)
       ∧ default 0 (used_today r) <= default 1000 (daily_limit r).

(** ** Usage statistics *)

(** What a record adds to the usage of [today]: its counter if it was
    last used on that day, a missing counter counting 0. *)
Definition usage_of (today : string) (r : ApiKeyDoc) : Z :=
  if decide (last_used_date r = Some today) then default 0 (used_today r)
  else 0.

Definition sum_list_Z (l : list Z) : Z := foldr Z.add 0 l.

(** The loop over [find({"last_used_date": today})]. *)
Definition sum_used_today (today : string) (w : World) : Z :=
  sum_list_Z ((fun kr => usage_of today kr.2) <$> map_to_list (apikeys w)).

Record Stats : Type := {
  total_downloads : nat;
  today_usage : Z
}.

(** [api_stats]: the number of cached records and the usage of the day;
    nothing is written. *)
Definition api_stats (clk : Clock) (w : World) : Stats :=
  {| total_downloads := size (cache w);
     today_usage := sum_used_today (ist_date_str clk) w |}.

(** ** Replies of the handlers *)

(** The record [save_cache_record] writes for a finished archival. *)
Definition archived_doc (cfg : Config) (a : ArchiveArgs) (fid : string)
    (mid now : Z) : CacheDoc :=
  {| ytid := a_ytid a; type := a_media_type a; file_id := fid;
     chat_id := CACHE_CHANNEL_ID cfg; msg_id := mid;
     file_name := archive_filename a;
     meta := a_meta a ∪ {[ "title" := a_title a;
                           "quality" := PyStr (a_quality a) ]};
     cached_at := now |}.

(** The paths through a handler, after the admission gate answered
    [res] and left [w1]: the reply, the state and the task created. *)
Inductive resolve_path (cfg : Config) (media_type label : string)
    (env : RequestEnv) (url : string) (quality : option string)
    (res : HTTPException + ApiKeyDoc) (w1 : World)
    : Response -> World -> option ArchiveArgs -> Prop :=
| path_rejected e :
    res = inl e ->
    resolve_path cfg media_type label env url quality res w1 (Raised e) w1 None
| path_invalid :
    admitted res = true -> extract_vidid url = None ->
    resolve_path cfg media_type label env url quality res w1
      (JSONResponse 400 "Invalid YouTube URL or ID") w1 None
| path_hit v cached w2 :
    admitted res = true -> extract_vidid url = Some v ->
    get_cached_file v media_type w1 = (Some cached, w2) ->
    resolve_path cfg media_type label env url quality res w1
      (Success (hit_reply env cached)) w2 None
| path_info_failed v w2 e :
    admitted res = true -> extract_vidid url = Some v ->
    get_cached_file v media_type w1 = (None, w2) ->
    savetube_info env (normalize_youtube_input url) = inl e ->
    resolve_path cfg media_type label env url quality res w1
      (JSONResponse 500 e) (log ERROR (label ++ " error: " ++ e) w2) None
| path_selector_failed v w2 decrypted e :
    admitted res = true -> extract_vidid url = Some v ->
    get_cached_file v media_type w1 = (None, w2) ->
    savetube_info env (normalize_youtube_input url) = inr decrypted ->
    selected_quality cfg decrypted media_type quality = inl e ->
    resolve_path cfg media_type label env url quality res w1
      (JSONResponse 500 e) (log ERROR (label ++ " error: " ++ e) w2) None
| path_not_object v w2 t selected :
    admitted res = true -> extract_vidid url = Some v ->
    get_cached_file v media_type w1 = (None, w2) ->
    savetube_info env (normalize_youtube_input url) = inr (DocOther t) ->
    selected_quality cfg (DocOther t) media_type quality = inr selected ->
    resolve_path cfg media_type label env url quality res w1
      (JSONResponse 500 (no_attribute_get t))
      (log ERROR (label ++ " error: " ++ no_attribute_get t) w2) None
| path_download_failed v w2 m selected e :
    admitted res = true -> extract_vidid url = Some v ->
    get_cached_file v media_type w1 = (None, w2) ->
    savetube_info env (normalize_youtube_input url) = inr (DocDict m) ->
    selected_quality cfg (DocDict m) media_type quality = inr selected ->
    savetube_download env (default PyNone (resolver_key m)) selected media_type
    = inl e ->
    resolve_path cfg media_type label env url quality res w1
      (JSONResponse 500 e) (log ERROR (label ++ " error: " ++ e) w2) None
| path_origin v w2 m selected download_url :
    admitted res = true -> extract_vidid url = Some v ->
    get_cached_file v media_type w1 = (None, w2) ->
    savetube_info env (normalize_youtube_input url) = inr (DocDict m) ->
    selected_quality cfg (DocDict m) media_type quality = inr selected ->
    savetube_download env (default PyNone (resolver_key m)) selected media_type
    = inr download_url ->
    resolve_path cfg media_type label env url quality res w1
      (Success (origin_reply m selected download_url))
      w2
      (Some (archive_args v media_type m selected download_url)).

(** ** Token administration *)

(** The functions of this part act on the token collection alone. An
    instant is a count of microseconds from [datetime.min]. *)
Abbreviation ApiKeys := (gmap string ApiKeyDoc).

Definition DAY : Z := 86400000000.
Definition DATETIME_MAX : Z := 3652059 * DAY - 1.

(** [datetime.timedelta(days=d)]; [None] is [OverflowError]. *)
Definition timedelta_days (d : Z) : option Z :=
  if Z.abs d <=? 999999999 then Some (d * DAY) else None.

(** [t + delta] on a [datetime]; [None] is [OverflowError]. *)
Definition datetime_add (t delta : Z) : option Z :=
  let r := t + delta in
  if (0 <=? r) && (r <=? DATETIME_MAX) then Some r else None.

(** What the store keeps of a [datetime]: BSON dates have millisecond
    precision. *)
Definition bson_datetime (t : Z) : Z := t - t mod 1000.

(** BSON integers have at most eight bytes. *)
Definition bson_int_ok (n : Z) : bool := (- 2 ^ 63 <=? n) && (n <? 2 ^ 63).

Definition stored (doc : ApiKeyDoc) : ApiKeyDoc :=
  {| key := key doc; owner := owner doc; daily_limit := daily_limit doc;
     used_today := used_today doc; last_used_date := last_used_date doc;
     expiry_date := bson_datetime <$> expiry_date doc;
     is_admin := is_admin doc; created_at := bson_datetime (created_at doc) |}.

Inductive CreateError : Type := OverflowError | DuplicateKeyError.

(** [token] is the value [secrets.token_urlsafe(32)] returns, [now] and
    [now'] the two readings of [utcnow()]. The collection has a unique
    index on [key], so [insert_one] fails on a key that is present. *)
Definition create_api_key (token owner : string) (daily_limit days_valid : Z)
    (is_admin : bool) (now now' : Z) (coll : ApiKeys)
    : (CreateError + ApiKeyDoc) * ApiKeys :=
  let expiry : option (option Z) :=
    if days_valid =? 0 then Some None
    else Some <$> (delta ← timedelta_days days_valid; datetime_add now delta) in
  match expiry with
  | None => (inl OverflowError, coll)
  | Some expiry =>
      let doc := {| key := token; owner := owner;
                    daily_limit := Some daily_limit; used_today := Some 0;
                    last_used_date := None; expiry_date := expiry;
                    is_admin := is_admin; created_at := now' |} in
      if negb (bson_int_ok daily_limit) then (inl OverflowError, coll)
      else
        match coll !! token with
        | Some _ => (inl DuplicateKeyError, coll)
        | None => (inr doc, <[token := stored doc]> coll)
        end
  end.

(** The session checks: [api_key] is the cookie, absent or a string. *)
Definition get_current_user (api_key : option string) (coll : ApiKeys)
    : option ApiKeyDoc :=
  match api_key with
  | None => None
  | Some k => if String.eqb k "" then None else coll !! k
  end.

Definition get_current_admin (api_key : option string) (coll : ApiKeys)
    : option ApiKeyDoc :=
  match api_key with
  | None => None
  | Some k =>
      if String.eqb k "" then None
      else r ← coll !! k; if is_admin r then Some r else None
  end.

Inductive AdminReply : Type :=
| AdminRaised (e : HTTPException)
| AdminFailed (e : CreateError)
| AdminOk (success : bool) (payload : string).

(** [admin_create_key_api], with the four fields of the form already
    read. *)
Definition admin_create_key_api (admin : option ApiKeyDoc)
    (token owner : string) (daily_limit days_valid : Z) (is_admin : bool)
    (now now' : Z) (coll : ApiKeys) : AdminReply * ApiKeys :=
  match admin with
  | None => (AdminRaised (HTTP 401 "Admin access required"), coll)
  | Some _ =>
      match create_api_key token owner daily_limit days_valid is_admin
              now now' coll with
      | (inl e, coll) => (AdminFailed e, coll)
      | (inr key_data, coll) => (AdminOk true (key key_data), coll)
      end
  end.

Definition delete_user_api (api_key : string) (admin : option ApiKeyDoc)
    (coll : ApiKeys) : AdminReply * ApiKeys :=
  match admin with
  | None => (AdminRaised (HTTP 401 "Admin access required"), coll)
  | Some _ =>
      match coll !! api_key with
      | Some _ => (AdminOk true "User deleted successfully", delete api_key coll)
      | None => (AdminOk false "User not found", coll)
      end
  end.

(** The two administrator routes, with their dependency resolved as the
    framework resolves it. [get_current_admin] declares one parameter,
    [api_key], to be read from the cookie. [POST /admin/create_key] has
    no path parameter and the cookie is what the dependency gets.
    [DELETE /admin/user/{api_key}] has a path parameter of that very
    name, and the framework fills every parameter of that name, the
    dependency's too, from the path: the administrator check is made on
    the key to delete, and the cookie is not read. The key is a segment
    of the path and so is not empty. *)
Definition create_key_route (cookie : option string)
    (token owner : string) (daily_limit days_valid : Z) (is_admin : bool)
    (now now' : Z) (coll : ApiKeys) : AdminReply * ApiKeys :=
  admin_create_key_api (get_current_admin cookie coll)
    token owner daily_limit days_valid is_admin now now' coll.

Definition delete_user_route (api_key : string) (cookie : option string)
    (coll : ApiKeys) : AdminReply * ApiKeys :=
  delete_user_api api_key (get_current_admin (Some api_key) coll) coll.

(** [startup_event], on the token collection and the log; the creation
    of the indexes and the start of the client are taken to succeed. *)
Definition startup_event (token : string) (now now' : Z)
    (coll : ApiKeys) (lg : list (LogLevel * string))
    : option CreateError * ApiKeys * list (LogLevel * string) :=
  let lg := lg ++ [(INFO, "Pyrogram client started"%string)] in
  if (size coll =? 0)%nat then
    match create_api_key token "admin" 10000 365 true now now' coll with
    | (inl e, coll) => (Some e, coll, lg)
    | (inr key_data, coll) =>
        (None, coll,
         lg ++ [(INFO, ("Created default admin key: " ++ key key_data)%string)])
    end
  else (None, coll, lg).

(** ** Link to a cached file *)

Module Telegram.

(** What the second attempt of [get_telegram_download_url] meets: an
    exception anywhere in it, or an HTTP status with, for status 200,
    the [file_path] of the answer if [data["ok"]] and it are both
    truthy. *)
Inductive Fallback : Type :=
| FallbackRaised (e2 : Exception)
| FallbackAnswer (status : Z) (file_path : option string).

Definition file_url (BOT_TOKEN file_path : string) : string :=
  ("https://api.telegram.org/file/bot" ++ BOT_TOKEN ++ "/" ++ file_path)%string.

Definition get_file_url (BOT_TOKEN file_id : string) : string :=
  ("https://api.telegram.org/bot" ++ BOT_TOKEN ++ "/getFile?file_id=" ++ file_id)%string.

(** [get_file] is the outcome of [pyrogram_client.get_file(file_id)]:
    an exception or the [file_path] of the file. *)
Definition get_telegram_download_url (BOT_TOKEN : string)
    (get_file : Exception + string) (fallback : Fallback) (file_id : string)
    (w : World) : string * World :=
  match get_file with
  | inr file_path => (file_url BOT_TOKEN file_path, w)
  | inl e =>
      let w := log ERROR ("Failed to get Telegram download URL: " ++ e) w in
      match fallback with
      | FallbackRaised e2 =>
          (get_file_url BOT_TOKEN file_id,
           log ERROR ("Fallback method also failed: " ++ e2) w)
      | FallbackAnswer status file_path =>
          match (if status =? 200 then file_path else None) with
          | Some file_path => (file_url BOT_TOKEN file_path, w)
          | None => (get_file_url BOT_TOKEN file_id, w)
          end
      end
  end.

End Telegram.

(** ** More sample data *)

(** A token of share one, last used on the day of [sample_clock] with no
    use counted. *)
Definition same_day_world : World :=
  {| apikeys := {[ "abc"%string :=
                   {| key := "abc"; owner := "user"; daily_limit := Some 1;
                      used_today := Some 0;
                      last_used_date := Some "2023-11-15"%string;
                      expiry_date := None; is_admin := false;
                      created_at := 0 |} ]};
     cache := ∅; mongo_ops := []; IN_MEMORY_CACHE := ∅; PROCESSING_SET := ∅;
     files := ∅; channel := []; logs := [] |}.

(** The state after the sample video has been archived. *)
Definition archived_world : World :=
  (background_download_and_upload sample_cfg sample_args sample_archive_env
     sample_world).2.

Definition sample_url : string := "https://youtu.be/dQw4w9WgXcQ".

Definition reply_of (resp : Response) : ResultBody :=
  match resp with
  | Success res => res
  | _ => origin_reply sample_metadata "" ""
  end.

(** A collection with an administrator's token and a user's. *)
Definition sample_tokens : ApiKeys :=
  {[ "root-key"%string :=
       {| key := "root-key"; owner := "admin"; daily_limit := Some 10000;
          used_today := Some 0; last_used_date := None; expiry_date := None;
          is_admin := true; created_at := 0 |};
     "abc"%string := sample_token ]}.

(** The sample environment with an origin whose document has a null
    title. *)
Definition untitled_env : RequestEnv :=
  {| clock := sample_clock;
     savetube_info := fun _ => inr (DocDict untitled_metadata);
     savetube_download := savetube_download sample_env;
     get_telegram_download_url := get_telegram_download_url sample_env |}.

(** The task the handlers create for such a document. *)
Definition untitled_args : ArchiveArgs :=
  archive_args "dQw4w9WgXcQ" "video" untitled_metadata "720"
    "https://cdn.example/720".

(** An environment whose file links are built by
    [Telegram.get_telegram_download_url], the first attempt succeeding. *)
Definition linking_env : RequestEnv :=
  {| clock := sample_clock;
     savetube_info := savetube_info sample_env;
     savetube_download := savetube_download sample_env;
     get_telegram_download_url := fun file_id =>
       (Telegram.get_telegram_download_url "123:TOKEN"
          (inr ("videos/" ++ file_id)%string) (Telegram.FallbackRaised "")
          file_id sample_world).1 |}.

(** A token made at an instant of the year 1997, good for thirty days. *)
Definition created_sample : (CreateError + ApiKeyDoc) * ApiKeys :=
  create_api_key "tok" "user" 5 30 false 63000000000000000 63000000000000001 ∅.

Definition created_world : World :=
  {| apikeys := created_sample.2;
     cache := ∅; mongo_ops := []; IN_MEMORY_CACHE := ∅; PROCESSING_SET := ∅;
     files := ∅; channel := []; logs := [] |}.

Definition early_clock : Clock :=
  {| utcnow := 63000000000000500; ist_date_str := "1997-05-23" |}.

(** * Properties *)

(** ** Strings *)

Lemma chars_text (l : list ascii) : chars (text l) = l.
Proof. apply list_ascii_of_string_of_list_ascii. Qed.

Lemma text_chars (s : string) : text (chars s) = s.
Proof. apply string_of_list_ascii_of_string. Qed.

Lemma chars_app (a b : string) : chars (a ++ b) = chars a ++ chars b.
Proof. induction a as [|c a IH]; simpl; [done | by rewrite IH]. Qed.

Lemma chars_inj (a b : string) : chars a = chars b -> a = b.
Proof. intros H. rewrite <- (text_chars a), <- (text_chars b). by rewrite H. Qed.

Lemma chars_strip (s : string) :
  chars (PyStr.strip s) = PyStr.rstrip (PyStr.lstrip (chars s)).
Proof. apply chars_text. Qed.

Lemma lstrip_head (l : list ascii) :
  match PyStr.lstrip l with
  | [] => True
  | c :: _ => PyStr.isspace c = false
  end.
Proof.
  induction l as [|c l IH]; simpl; [done |].
  destruct (PyStr.isspace c) eqn:E; [exact IH | exact E].
Qed.

Lemma lstrip_fixed (l : list ascii) :
  match l with [] => True | c :: _ => PyStr.isspace c = false end ->
  PyStr.lstrip l = l.
Proof. destruct l as [|c l]; simpl; [done |]. by intros ->. Qed.

Lemma lstrip_snoc (l : list ascii) (c : ascii) :
  PyStr.isspace c = false -> PyStr.lstrip (l ++ [c]) = PyStr.lstrip l ++ [c].
Proof.
  intros Hc. induction l as [|d l IH]; simpl.
  - by rewrite Hc.
  - destruct (PyStr.isspace d); [exact IH | done].
Qed.

Lemma rstrip_head (l : list ascii) :
  match l with [] => True | c :: _ => PyStr.isspace c = false end ->
  match PyStr.rstrip l with [] => True | c :: _ => PyStr.isspace c = false end.
Proof.
  destruct l as [|c l]; [done |]. intros Hc. unfold PyStr.rstrip.
  change (rev (c :: l)) with (rev l ++ [c]).
  rewrite lstrip_snoc by done. rewrite rev_app_distr. simpl. exact Hc.
Qed.

Lemma lstrip_idem (l : list ascii) : PyStr.lstrip (PyStr.lstrip l) = PyStr.lstrip l.
Proof. apply lstrip_fixed, lstrip_head. Qed.

Lemma rstrip_idem (l : list ascii) : PyStr.rstrip (PyStr.rstrip l) = PyStr.rstrip l.
Proof. unfold PyStr.rstrip. by rewrite rev_involutive, lstrip_idem. Qed.

Lemma strip_idem (s : string) : PyStr.strip (PyStr.strip s) = PyStr.strip s.
Proof.
  unfold PyStr.strip at 1. rewrite chars_strip.
  rewrite (lstrip_fixed (PyStr.rstrip _)) by apply rstrip_head, lstrip_head.
  by rewrite rstrip_idem.
Qed.

Lemma strip_no_space (l : list ascii) :
  forallb (fun c => negb (PyStr.isspace c)) l = true ->
  PyStr.rstrip (PyStr.lstrip l) = l.
Proof.
  intros H.
  assert (Hhead : ∀ l' : list ascii,
             forallb (fun c => negb (PyStr.isspace c)) l' = true ->
             PyStr.lstrip l' = l').
  { intros [|c l']; simpl; [done |].
    intros [Hc _]%andb_prop. by apply negb_true_iff in Hc as ->. }
  rewrite Hhead by done. unfold PyStr.rstrip.
  rewrite Hhead; [apply rev_involutive |].
  rewrite forallb_forall in *. intros c Hc. apply H. by apply in_rev.
Qed.

Lemma token_char_not_space (c : ascii) :
  token_char c = true -> PyStr.isspace c = false.
Proof. destruct c as [[] [] [] [] [] [] [] []]; vm_compute; congruence. Qed.

(** ** The matcher *)

Lemma rmatch_lit {R} (p s : list ascii) (cap : Re.match_obj) (k : Re.cont R) :
  Re.rmatch (Re.lit p) s cap k
  = if PyStr.starts_with p s then k (drop (length p) s) cap else None.
Proof.
  revert s. induction p as [|c p IH]; intros s; simpl; [done |].
  destruct s as [|d s]; [done |]. simpl.
  destruct (Ascii.eqb c d); simpl; [apply IH | done].
Qed.

Lemma rmatch_rep_class {R} (f : ascii -> bool) (n : nat) (s : list ascii)
    (cap : Re.match_obj) (k : Re.cont R) :
  Re.rmatch (Re.Rep n (Re.Class f)) s cap k
  = if (n <=? length s)%nat && forallb f (take n s)
    then k (drop n s) cap else None.
Proof.
  revert s. induction n as [|n IH]; intros s.
  - simpl. by rewrite drop_0.
  - destruct s as [|d s]; [done |].
    change (Re.rmatch (Re.Rep (S n) (Re.Class f)) (d :: s) cap k)
      with (if f d then Re.rmatch (Re.Rep n (Re.Class f)) s cap k else None).
    rewrite IH. simpl. destruct (f d); [done |].
    by rewrite andb_false_r.
Qed.

Lemma rmatch_id {R} (s : list ascii) (cap : Re.match_obj) (k : Re.cont R) :
  Re.rmatch ID_RE s cap k
  = if (11 <=? length s)%nat && forallb token_char (take 11 s)
    then k (drop 11 s) (Some (take 11 s)) else None.
Proof.
  unfold ID_RE.
  change (Re.rmatch (Re.Group ?r) s cap k)
    with (Re.rmatch r s cap
            (fun s' _ => k s' (Some (take (length s - length s') s)))).
  rewrite rmatch_rep_class.
  destruct (11 <=? length s)%nat eqn:Hlen; [|done].
  apply Nat.leb_le in Hlen. simpl andb.
  destruct (forallb token_char (take 11 s)); [|done].
  rewrite length_drop. do 3 f_equal. lia.
Qed.

(** A successful match is a successful call of the continuation. *)
Lemma rmatch_success {R} (r : Re.regex) :
  ∀ (s : list ascii) (cap : Re.match_obj) (k : Re.cont R) (x : R),
    Re.rmatch r s cap k = Some x -> ∃ s' cap', k s' cap' = Some x.
Proof.
  induction r as [|c|p|r1 IH1 r2 IH2|r1 IH1 r2 IH2|r1 IH1|n r1 IH1|r1 IH1];
    intros s cap k x H; simpl in H.
  - eauto.
  - destruct s as [|d s]; [done |]. destruct (Ascii.eqb c d); [eauto | done].
  - destruct s as [|d s]; [done |]. destruct (p d); [eauto | done].
  - apply IH1 in H as (s' & cap' & H). eauto.
  - destruct (Re.rmatch r1 s cap k) eqn:E; [|eauto].
    inversion H; subst. eauto.
  - destruct (Re.rmatch r1 s cap k) eqn:E; [|eauto].
    inversion H; subst. eauto.
  - revert s cap H. induction n as [|n IHn]; intros s cap H; [eauto |].
    apply IH1 in H as (s' & cap' & H). eauto.
  - apply IH1 in H as (s' & cap' & H). eauto.
Qed.

(** ** The identifier pattern *)

Lemma yt_re_unfold {R} (s : list ascii) (cap : Re.match_obj) (k : Re.cont R) :
  Re.rmatch YT_RE s cap k
  = Re.rmatch (Re.Opt SCHEME_RE) s cap (fun s1 c1 =>
      Re.rmatch (Re.Opt WWW_RE) s1 c1 (fun s2 c2 =>
        Re.rmatch (Re.Opt HOST_RE) s2 c2 (fun s3 c3 =>
          Re.rmatch ID_RE s3 c3 k))).
Proof. reflexivity. Qed.

(** Whatever the pattern matches, group 1 is eleven token characters. *)
Lemma yt_re_captures {R} (s : list ascii) (cap : Re.match_obj)
    (k : Re.cont R) (x : R) :
  Re.rmatch YT_RE s cap k = Some x ->
  ∃ (s' v : list ascii),
    k s' (Some v) = Some x ∧ length v = 11%nat ∧ forallb token_char v = true.
Proof.
  rewrite yt_re_unfold. intros H.
  apply rmatch_success in H as (s1 & c1 & H).
  apply rmatch_success in H as (s2 & c2 & H).
  apply rmatch_success in H as (s3 & c3 & H).
  rewrite rmatch_id in H.
  destruct (11 <=? length s3)%nat eqn:Hlen; [|done].
  destruct (forallb token_char (take 11 s3)) eqn:Htok; [|done].
  simpl in H. apply Nat.leb_le in Hlen.
  exists (drop 11 s3), (take 11 s3). split_and!; [done | | done].
  rewrite length_take. lia.
Qed.

Lemma search_unfold (r : Re.regex) (s : list ascii) :
  Re.search r s
  = match Re.rmatch r s None (fun _ cap => Some cap) with
    | Some m => Some m
    | None => match s with [] => None | _ :: s' => Re.search r s' end
    end.
Proof. by destruct s. Qed.

Lemma search_captures (s : list ascii) (m : Re.match_obj) :
  Re.search YT_RE s = Some m ->
  ∃ v, m = Some v ∧ length v = 11%nat ∧ forallb token_char v = true.
Proof.
  induction s as [|c s IH]; rewrite search_unfold;
    destruct (Re.rmatch YT_RE _ None (fun _ cap => Some cap)) eqn:E;
    intros H; try done;
    try (inversion H; subst;
         apply yt_re_captures in E as (s1 & v & Hk & Hlen & Htok);
         inversion Hk; subst; by eauto).
  by apply IH.
Qed.

Lemma search_at_start (r : Re.regex) (s : list ascii) (m : Re.match_obj) :
  Re.rmatch r s None (fun _ cap => Some cap) = Some m -> Re.search r s = Some m.
Proof. intros H. destruct s; simpl; by rewrite H. Qed.

(** Behind a spelled-out shape the three optional prefixes are taken
    greedily and the rest of the pattern continues after the shape. *)
Lemma prefix_shape {R} (shape : string) (r : Re.regex) (s : list ascii)
    (cap : Re.match_obj) (k : Re.cont R) (x : R) :
  shape ∈ url_shapes ->
  Re.rmatch r s cap k = Some x ->
  Re.rmatch
    (Re.Seq (Re.Opt SCHEME_RE) (Re.Seq (Re.Opt WWW_RE) (Re.Seq (Re.Opt HOST_RE) r)))
    (chars shape ++ s) cap k = Some x.
Proof.
  intros Hshape Hr.
  let l := eval vm_compute in url_shapes in change url_shapes with l in Hshape.
  repeat (apply elem_of_cons in Hshape as [-> | Hshape]);
    [.. | by apply elem_of_nil in Hshape];
    cbn; by rewrite Hr.
Qed.

Lemma yt_re_shape (shape : string) (t rest : list ascii) :
  shape ∈ url_shapes ->
  length t = 11%nat -> forallb token_char t = true ->
  Re.search YT_RE (chars shape ++ t ++ rest) = Some (Some t).
Proof.
  intros Hshape Hlen Htok. apply search_at_start.
  apply (prefix_shape shape ID_RE); [done |].
  rewrite rmatch_id, length_app, take_app_length' by done.
  rewrite Htok. replace (11 <=? length t + length rest)%nat with true; [done |].
  symmetry. apply Nat.leb_le. lia.
Qed.

(** On a run of eleven token characters none of the optional prefixes
    can match: each needs a [:] or a [.] within its first eight
    characters. *)
Ltac split_token t Htok :=
  do 11 (destruct t as [|? t]; [discriminate |]);
  simpl in Htok;
  repeat match type of Htok with
         | _ && _ = true => apply andb_prop in Htok as [? Htok]
         end.

Ltac compare_chars :=
  repeat first
    [ reflexivity
    | match goal with
      | H : token_char ":" = true |- _ => discriminate H
      | H : token_char "." = true |- _ => discriminate H
      | H : token_char "/" = true |- _ => discriminate H
      | |- context [Ascii.eqb ?a ?b] =>
          let E := fresh "E" in
          destruct (Ascii.eqb a b) eqn:E;
          [apply Ascii.eqb_eq in E; first [discriminate E | subst] |]
      end ].

Lemma scheme_fails {R} (t rest : list ascii) (cap : Re.match_obj) (k : Re.cont R) :
  length t = 11%nat -> forallb token_char t = true ->
  Re.rmatch SCHEME_RE (t ++ rest) cap k = None.
Proof. intros Hlen Htok. split_token t Htok. cbn -[Ascii.eqb]. compare_chars. Qed.

Lemma www_fails {R} (t rest : list ascii) (cap : Re.match_obj) (k : Re.cont R) :
  length t = 11%nat -> forallb token_char t = true ->
  Re.rmatch WWW_RE (t ++ rest) cap k = None.
Proof. intros Hlen Htok. split_token t Htok. cbn -[Ascii.eqb]. compare_chars. Qed.

Lemma host_fails {R} (t rest : list ascii) (cap : Re.match_obj) (k : Re.cont R) :
  length t = 11%nat -> forallb token_char t = true ->
  Re.rmatch HOST_RE (t ++ rest) cap k = None.
Proof. intros Hlen Htok. split_token t Htok. cbn -[Ascii.eqb]. compare_chars. Qed.

(** So a run of eleven token characters at the start of the input is
    what group 1 captures, whatever follows it. *)
Lemma yt_re_token_run (t rest : list ascii) :
  length t = 11%nat -> forallb token_char t = true ->
  Re.search YT_RE (t ++ rest) = Some (Some t).
Proof.
  intros Hlen Htok. apply search_at_start. rewrite yt_re_unfold.
  change (Re.rmatch (Re.Opt ?r) ?s ?c ?k)
    with (match Re.rmatch r s c k with Some x => Some x | None => k s c end).
  rewrite scheme_fails by done.
  change (Re.rmatch (Re.Opt ?r) ?s ?c ?k)
    with (match Re.rmatch r s c k with Some x => Some x | None => k s c end).
  rewrite www_fails by done.
  change (Re.rmatch (Re.Opt ?r) ?s ?c ?k)
    with (match Re.rmatch r s c k with Some x => Some x | None => k s c end).
  rewrite host_fails by done.
  rewrite rmatch_id, length_app, take_app_length' by done.
  rewrite Htok. replace (11 <=? length t + length rest)%nat with true; [done |].
  symmetry. apply Nat.leb_le. lia.
Qed.

(** The [re.fullmatch] fallback of both functions is never reached: an
    input it accepts is already matched by the search. *)
Lemma fullmatch_token (s : list ascii) (m : Re.match_obj) :
  Re.fullmatch TOKEN_RE s = Some m ->
  length s = 11%nat ∧ forallb token_char s = true.
Proof.
  unfold Re.fullmatch, TOKEN_RE. rewrite rmatch_rep_class.
  destruct (11 <=? length s)%nat eqn:Hlen; [|done].
  destruct (forallb token_char (take 11 s)) eqn:Htok; [|done]. simpl.
  destruct (drop 11 s) eqn:Hdrop; [|done]. intros _.
  apply Nat.leb_le in Hlen.
  assert (length (drop 11 s) = 0%nat) as Hd by by rewrite Hdrop.
  rewrite length_drop in Hd.
  split; [lia |]. rewrite take_ge in Htok by lia. done.
Qed.

Lemma fallback_unreachable (s : list ascii) :
  Re.search YT_RE s = None -> Re.fullmatch TOKEN_RE s = None.
Proof.
  intros Hs. destruct (Re.fullmatch TOKEN_RE s) eqn:Hf; [|done].
  apply fullmatch_token in Hf as [Hlen Htok].
  pose proof (yt_re_token_run s [] Hlen Htok) as H.
  rewrite app_nil_r in H. congruence.
Qed.

(** ** Identifier normaliser *)

Example extract_watch :
  extract_vidid "https://www.youtube.com/watch?v=dQw4w9WgXcQ"
  = Some "dQw4w9WgXcQ"%string.
Proof. reflexivity. Qed.

Example extract_short_link :
  extract_vidid "  youtu.be/dQw4w9WgXcQ?t=10 " = Some "dQw4w9WgXcQ"%string.
Proof. reflexivity. Qed.

Example extract_no_run : extract_vidid "not a link" = None.
Proof. reflexivity. Qed.

Example normalize_bare :
  normalize_youtube_input "dQw4w9WgXcQ"
  = "https://www.youtube.com/watch?v=dQw4w9WgXcQ"%string.
Proof. reflexivity. Qed.

Lemma well_formed_token_chars (t : string) :
  well_formed_token t = true ->
  length (chars t) = 11%nat ∧ forallb token_char (chars t) = true.
Proof.
  unfold well_formed_token. intros [Hlen Htok]%andb_prop.
  by apply Nat.eqb_eq in Hlen.
Qed.

(** Any of the spelled-out URL shapes followed by a well-formed token
    yields that token, whatever comes after it. *)
Lemma extract_recognized_url (inp shape t rest : string) :
  shape ∈ url_shapes ->
  well_formed_token t = true ->
  PyStr.strip inp = (shape ++ t ++ rest)%string ->
  extract_vidid inp = Some t.
Proof.
  intros Hshape [Hlen Htok]%well_formed_token_chars Hinp.
  unfold extract_vidid. rewrite Hinp, !chars_app.
  rewrite yt_re_shape by done. simpl. by rewrite text_chars.
Qed.

(** A bare well-formed token yields itself. *)
Lemma extract_bare_token (inp : string) :
  well_formed_token (PyStr.strip inp) = true ->
  extract_vidid inp = Some (PyStr.strip inp).
Proof.
  intros [Hlen Htok]%well_formed_token_chars. unfold extract_vidid.
  pose proof (yt_re_token_run _ [] Hlen Htok) as H.
  rewrite app_nil_r in H. rewrite H. simpl. by rewrite text_chars.
Qed.

(** The identifier that comes out is always eleven token characters. *)
Lemma extract_well_formed (inp v : string) :
  extract_vidid inp = Some v -> well_formed_token v = true.
Proof.
  unfold extract_vidid.
  destruct (Re.search YT_RE _) as [m|] eqn:Hs.
  - apply search_captures in Hs as (l & -> & Hlen & Htok). simpl.
    intros [= <-]. unfold well_formed_token.
    rewrite chars_text, Hlen, Htok. done.
  - by rewrite (fallback_unreachable _ Hs).
Qed.

(** C4, at the failing input: twelve token characters are neither a
    well-formed token nor one of the URL shapes, and [extract_vidid]
    answers with their first eleven instead of nothing. *)
Theorem extract_vidid_truncates_long_token :
  well_formed_token "abcdefghijkl" = false
  ∧ recognized_url "abcdefghijkl" = false
  ∧ extract_vidid "abcdefghijkl" = Some "abcdefghijk"%string.
Proof. by vm_compute. Qed.

Lemma strip_canonical (v : list ascii) :
  forallb token_char v = true ->
  PyStr.strip (canonical_url (text v)) = canonical_url (text v).
Proof.
  intros Htok. unfold PyStr.strip. rewrite strip_no_space; [apply text_chars |].
  unfold canonical_url. rewrite chars_app, chars_text, forallb_app.
  apply andb_true_intro. split; [by vm_compute |].
  rewrite forallb_forall in *. intros c Hc.
  by rewrite (token_char_not_space c (Htok c Hc)).
Qed.

Lemma normalize_canonical (v : list ascii) :
  length v = 11%nat -> forallb token_char v = true ->
  normalize_youtube_input (canonical_url (text v)) = canonical_url (text v).
Proof.
  intros Hlen Htok. unfold normalize_youtube_input.
  rewrite strip_canonical by done.
  unfold canonical_url at 1. rewrite chars_app, chars_text.
  pose proof (yt_re_shape "https://www.youtube.com/watch?v=" v [])
    as H.
  rewrite app_nil_r in H. rewrite H; [done | | done | done].
  let l := eval vm_compute in url_shapes in change url_shapes with l.
  set_solver.
Qed.

Lemma normalize_cases (inp : string) :
  (∀ v, extract_vidid inp = Some v ->
        normalize_youtube_input inp = canonical_url v)
  ∧ (extract_vidid inp = None ->
     normalize_youtube_input inp = PyStr.strip inp)
  ∧ normalize_youtube_input (normalize_youtube_input inp)
    = normalize_youtube_input inp.
Proof.
  destruct (Re.search YT_RE (chars (PyStr.strip inp))) as [m|] eqn:Hs.
  - apply search_captures in Hs as Hm. destruct Hm as (l & -> & Hlen & Htok).
    assert (Hn : normalize_youtube_input inp = canonical_url (text l))
      by (unfold normalize_youtube_input; by rewrite Hs).
    assert (He : extract_vidid inp = Some (text l))
      by (unfold extract_vidid; by rewrite Hs).
    rewrite He, Hn.
    split_and!; [by intros v [= <-] | done | by apply normalize_canonical].
  - pose proof (fallback_unreachable _ Hs) as Hf.
    assert (Hn : normalize_youtube_input inp = PyStr.strip inp)
      by (unfold normalize_youtube_input; by rewrite Hs, Hf).
    assert (He : extract_vidid inp = None)
      by (unfold extract_vidid; by rewrite Hs, Hf).
    rewrite He, Hn. split_and!; [done | done |].
    unfold normalize_youtube_input. by rewrite strip_idem, Hs, Hf.
Qed.

(** C10: [normalize_youtube_input] agrees with [extract_vidid] on every
    input (the canonical URL of the identifier found, else the stripped
    input) and applying it twice is applying it once. *)
Theorem normalize_coherent_and_idempotent (inp : string) :
  (∀ v, extract_vidid inp = Some v ->
        normalize_youtube_input inp = canonical_url v)
  ∧ (extract_vidid inp = None ->
     normalize_youtube_input inp = PyStr.strip inp)
  ∧ normalize_youtube_input (normalize_youtube_input inp)
    = normalize_youtube_input inp.
Proof. exact (normalize_cases inp). Qed.

(** ** Admission gate *)

Lemma key_given (k : string) : k ≠ ""%string -> String.eqb k "" = false.
Proof. intros H. by apply String.eqb_neq. Qed.

(** A record last used today with [u < N] uses: the attempt is admitted
    and counted. *)
Lemma check_admits (k today : string) (N : Z) (e : option Z) (u : Z)
    (clk : Clock) (w : World) :
  k ≠ ""%string -> used_on k today N e u w -> ist_date_str clk = today ->
  match e with Some x => x <? utcnow clk | None => false end = false ->
  u < N ->
  ∃ r w', check_api_key k clk w = (inr r, w')
          ∧ used_on k today N e (u + 1) w'.
Proof.
  intros Hk (r & Hr & HN & He & Hd & Hu) Hday Hexp Hlt.
  unfold check_api_key. rewrite (key_given k Hk). simpl.
  rewrite Hr. unfold key_expired. rewrite He, Hexp, Hday.
  rewrite decide_True by done. rewrite Hu, HN. simpl.
  replace (N <=? u) with false by (symmetry; apply Z.leb_gt; lia).
  eexists _, _. split; [done |].
  exists (set_used_today (Some (u + 1)) r). simpl.
  rewrite lookup_alter_eq, Hr. simpl. by rewrite Hu.
Qed.

(** With the quota used up the attempt is rejected and the collection is
    left as it was. *)
Lemma check_rejects (k today : string) (N : Z) (e : option Z) (u : Z)
    (clk : Clock) (w : World) :
  k ≠ ""%string -> used_on k today N e u w -> ist_date_str clk = today ->
  match e with Some x => x <? utcnow clk | None => false end = false ->
  N <= u ->
  ∃ w', check_api_key k clk w = (inl (HTTP 429 "Daily limit reached"), w')
        ∧ apikeys w' = apikeys w.
Proof.
  intros Hk (r & Hr & HN & He & Hd & Hu) Hday Hexp Hle.
  unfold check_api_key. rewrite (key_given k Hk). simpl.
  rewrite Hr. unfold key_expired. rewrite He, Hexp, Hday.
  rewrite decide_True by done. rewrite Hu, HN. simpl.
  replace (N <=? u) with true by (symmetry; apply Z.leb_le; lia).
  eexists. split; done.
Qed.

(** First use on a day other than the recorded one: the counter is set
    to 0 in the store and in the record the quota check reads, whatever
    it was before. *)
Lemma check_rollover (k : string) (N : Z) (r : ApiKeyDoc) (clk : Clock)
    (w : World) :
  k ≠ ""%string -> apikeys w !! k = Some r -> daily_limit r = Some N ->
  key_expired r clk = false ->
  last_used_date r ≠ Some (ist_date_str clk) ->
  (N <= 0 ->
   ∃ w', check_api_key k clk w = (inl (HTTP 429 "Daily limit reached"), w')
         ∧ used_on k (ist_date_str clk) N (expiry_date r) 0 w')
  ∧ (1 <= N ->
     ∃ w', check_api_key k clk w = (inr (set_used_today (Some 0) r), w')
           ∧ used_on k (ist_date_str clk) N (expiry_date r) 1 w'
           ∧ mongo_ops w'
             = mongo_ops w ++ [ApikeysFindOne k;
                               ApikeysSet k 0 (ist_date_str clk);
                               ApikeysInc k 1]).
Proof.
  intros Hk Hr HN Hexp Hday.
  unfold check_api_key. rewrite (key_given k Hk). simpl.
  rewrite Hr, Hexp. rewrite decide_False by done. simpl. rewrite HN. simpl.
  split; intros HN'.
  - replace (N <=? 0) with true by (symmetry; apply Z.leb_le; lia).
    eexists. split; [done |].
    eexists. simpl. rewrite lookup_alter_eq, Hr. simpl. done.
  - replace (N <=? 0) with false by (symmetry; apply Z.leb_gt; lia).
    eexists. split; [done |]. split.
    + eexists. simpl. rewrite lookup_alter_eq, lookup_alter_eq, Hr. simpl. done.
    + simpl. by rewrite <- !app_assoc.
Qed.

Lemma admit_all_app (k : string) (l1 l2 : list Clock) (w : World) :
  admit_all k (l1 ++ l2) w
  = let '(rs1, w1) := admit_all k l1 w in
    let '(rs2, w2) := admit_all k l2 w1 in
    (rs1 ++ rs2, w2).
Proof.
  revert w. induction l1 as [|c l1 IH]; intros w; simpl.
  - by destruct (admit_all k l2 w).
  - destruct (check_api_key k c w) as [r w1]. rewrite IH.
    destruct (admit_all k l1 w1) as [rs1 w2].
    by destruct (admit_all k l2 w2).
Qed.

(** While the quota lasts, every attempt of the day is admitted and
    raises the counter by one. *)
Lemma admit_all_within_quota (k today : string) (N : Z) (e : option Z)
    (clks : list Clock) :
  k ≠ ""%string ->
  Forall (fun c => ist_date_str c = today
                   ∧ match e with Some x => x <? utcnow c | None => false end
                     = false) clks ->
  ∀ (u : Z) (w : World),
    used_on k today N e u w -> u + Z.of_nat (length clks) <= N ->
    ∃ rs w', admit_all k clks w = (rs, w')
             ∧ admitted <$> rs = replicate (length clks) true
             ∧ used_on k today N e (u + Z.of_nat (length clks)) w'.
Proof.
  intros Hk Hall. induction Hall as [|c clks [Hday Hexp] Hall IH];
    intros u w Hu Hle; simpl.
  - eexists _, _. split_and!; [done | done |]. by rewrite Z.add_0_r.
  - simpl in Hle.
    destruct (check_admits k today N e u c w) as (r & w1 & Hc & Hu1);
      [done | done | done | done | lia |].
    rewrite Hc.
    destruct (IH (u + 1) w1 Hu1) as (rs & w' & Hrs & Hadm & Hu'); [lia |].
    rewrite Hrs. eexists _, _. split_and!; [done | |].
    + rewrite fmap_cons, Hadm. done.
    + replace (u + Z.of_nat (S (length clks)))
        with (u + 1 + Z.of_nat (length clks)) by lia. done.
Qed.

Lemma used_on_counter (k today : string) (N : Z) (e : option Z) (u : Z)
    (w : World) :
  used_on k today N e u w -> counter k w = Some u.
Proof. intros (r & Hr & _ & _ & _ & Hu). unfold counter. by rewrite Hr. Qed.

Lemma used_on_apikeys (k today : string) (N : Z) (e : option Z) (u : Z)
    (w w' : World) :
  apikeys w' = apikeys w -> used_on k today N e u w -> used_on k today N e u w'.
Proof. intros Heq (r & Hr). exists r. by rewrite Heq. Qed.

(** The first attempt of a token with no use counted today. *)
Lemma check_first_of_day (k : string) (N : Z) (r : ApiKeyDoc) (clk : Clock)
    (w : World) :
  k ≠ ""%string -> apikeys w !! k = Some r -> daily_limit r = Some N ->
  key_expired r clk = false ->
  last_used_date r ≠ Some (ist_date_str clk) ∨ used_today r = Some 0 ->
  (N <= 0 ->
   ∃ w', check_api_key k clk w = (inl (HTTP 429 "Daily limit reached"), w')
         ∧ used_on k (ist_date_str clk) N (expiry_date r) 0 w')
  ∧ (1 <= N ->
     ∃ r' w', check_api_key k clk w = (inr r', w')
              ∧ used_on k (ist_date_str clk) N (expiry_date r) 1 w').
Proof.
  intros Hk Hr HN Hexp Hfresh.
  destruct (decide (last_used_date r = Some (ist_date_str clk))) as [Hd|Hd].
  - destruct Hfresh as [Hne|Hu]; [done |].
    assert (Hon : used_on k (ist_date_str clk) N (expiry_date r) 0 w)
      by (exists r; done).
    split; intros HN'.
    + destruct (check_rejects k _ N _ 0 clk w Hk Hon) as (w' & Hc & Heq);
        [done | exact Hexp | lia |].
      exists w'. split; [done |]. by apply (used_on_apikeys _ _ _ _ _ w).
    + destruct (check_admits k _ N _ 0 clk w Hk Hon) as (r' & w' & Hc & Hon');
        [done | exact Hexp | lia |].
      by exists r', w'.
  - destruct (check_rollover k N r clk w) as [H0 H1]; try done.
    split; intros HN'; [by apply H0 |].
    destruct (H1 HN') as (w' & Hc & Hon & _). by eexists _, w'.
Qed.

(** C1: a token of quota [N] with no use counted today is admitted on
    each of its first [N] attempts of the day, the counter reading [i]
    after the [i]-th; the next attempt is rejected with status 429 and
    leaves the counter at [N]; and the first attempt of another day finds
    the counter set to 0 before the quota is checked, so it is admitted
    and the counter reads 1. *)
Theorem admission_quota_per_day (k today : string) (N : Z) (r : ApiKeyDoc)
    (w : World) (clks : list Clock) :
  k ≠ ""%string -> apikeys w !! k = Some r -> daily_limit r = Some N ->
  0 <= N ->
  last_used_date r ≠ Some today ∨ used_today r = Some 0 ->
  length clks = S (Z.to_nat N) ->
  Forall (fun c => ist_date_str c = today ∧ key_expired r c = false) clks ->
  ∃ rs w',
    admit_all k clks w = (rs, w')
    ∧ admitted <$> rs = replicate (Z.to_nat N) true ++ [false]
    ∧ last rs = Some (inl (HTTP 429 "Daily limit reached"))
    ∧ (∀ i : nat, (1 <= i <= Z.to_nat N)%nat ->
         counter k (admit_all k (take i clks) w).2 = Some (Z.of_nat i))
    ∧ counter k w' = Some N
    ∧ (1 <= N ->
       apikeys w' = apikeys (admit_all k (take (Z.to_nat N) clks) w).2)
    ∧ (1 <= N ->
       ∀ clk', ist_date_str clk' ≠ today -> key_expired r clk' = false ->
         ∃ r' w'',
           check_api_key k clk' w' = (inr r', w'')
           ∧ used_today r' = Some 0
           ∧ counter k w'' = Some 1
           ∧ mongo_ops w''
             = mongo_ops w' ++ [ApikeysFindOne k;
                                ApikeysSet k 0 (ist_date_str clk');
                                ApikeysInc k 1]).
Proof.
  intros Hk Hr HN Hpos Hfresh Hlen Hall.
  destruct clks as [|c0 rest]; [done |].
  apply Forall_cons in Hall as [[Hday0 Hexp0] Hall].
  injection Hlen as Hlen. subst today.
  destruct (check_first_of_day k N r c0 w Hk Hr HN Hexp0 Hfresh) as [H0 H1].
  destruct (decide (N = 0)) as [->|Hnz].
  - destruct rest; [|done].
    destruct H0 as (w' & Hc & Hon); [done |].
    exists [inl (HTTP 429 "Daily limit reached")], w'. simpl. rewrite Hc.
    split_and!; try done; try lia.
    by apply used_on_counter in Hon.
  - destruct H1 as (r0 & w1 & Hc & Hon1); [lia |].
    set (e := expiry_date r) in *.
    assert (Hall' : Forall (fun c => ist_date_str c = ist_date_str c0
                         ∧ match e with Some x => x <? utcnow c | None => false end
                           = false) rest)
      by (eapply Forall_impl; [exact Hall | by intros c [? ?]]).
    assert (Hprefix : ∀ i : nat, (i <= length rest)%nat ->
              1 + Z.of_nat i <= N ->
              ∃ rs w2, admit_all k (take i rest) w1 = (rs, w2)
                       ∧ admitted <$> rs = replicate i true
                       ∧ used_on k (ist_date_str c0) N e (1 + Z.of_nat i) w2).
    { intros i Hi HiN.
      destruct (admit_all_within_quota k (ist_date_str c0) N e (take i rest) Hk)
        with (u := 1) (w := w1) as (rs & w2 & Hrs & Hadm & Hon2).
      - by apply Forall_take.
      - done.
      - rewrite length_take. lia.
      - rewrite length_take in Hadm, Hon2.
        replace (i `min` length rest)%nat with i in * by lia. eauto. }
    destruct (Hprefix (length rest - 1)%nat) as (rs & w2 & Hrs & Hadm & Hon2);
      [lia | lia |].
    replace (1 + Z.of_nat (length rest - 1)) with N in Hon2 by lia.
    destruct (last rest) as [cl|] eqn:Hlast;
      [|apply last_None in Hlast; subst rest; simpl in Hlen; lia].
    assert (Hsplit : rest = take (length rest - 1) rest ++ [cl]).
    { apply last_Some in Hlast as [l' ->].
      rewrite length_app. simpl.
      replace (length l' + 1 - 1)%nat with (length l') by lia.
      by rewrite take_app_length. }
    assert (Hcl : ist_date_str cl = ist_date_str c0
                  ∧ match e with Some x => x <? utcnow cl | None => false end
                    = false).
    { rewrite Forall_forall in Hall'. apply Hall'.
      rewrite Hsplit. apply elem_of_app. right. constructor. }
    destruct Hcl as [Hdayl Hexpl].
    destruct (check_rejects k _ N e N cl w2 Hk Hon2 Hdayl Hexpl) as (w' & Hcr & Heq);
      [lia |].
    assert (Hon' : used_on k (ist_date_str c0) N e N w')
      by by apply (used_on_apikeys _ _ _ _ _ w2).
    exists (inr r0 :: rs ++ [inl (HTTP 429 "Daily limit reached")]), w'.
    assert (Hrun : admit_all k (c0 :: rest) w
                   = (inr r0 :: rs ++ [inl (HTTP 429 "Daily limit reached")], w')).
    { simpl. rewrite Hc, Hsplit, admit_all_app, Hrs. simpl. by rewrite Hcr. }
    split_and!.
    + exact Hrun.
    + rewrite fmap_cons, fmap_app, Hadm. simpl.
      replace (Z.to_nat N) with (S (length rest - 1)) by lia. done.
    + change (inr r0 :: rs ++ [inl (HTTP 429 "Daily limit reached")])
        with ((inr r0 :: rs) ++ [inl (HTTP 429 "Daily limit reached")]).
      apply last_snoc.
    + intros i Hi. destruct i as [|i]; [lia |]. simpl. rewrite Hc.
      destruct (Hprefix i) as (rs' & w3 & Hrs' & _ & Hon3); [lia | lia |].
      rewrite Hrs'. simpl. apply used_on_counter in Hon3. rewrite Hon3.
      f_equal. lia.
    + by apply used_on_counter in Hon'.
    + intros _. replace (Z.to_nat N) with (S (length rest - 1)) by lia.
      simpl. rewrite Hc, Hrs. simpl. done.
    + intros _ clk' Hday' Hexp'.
      destruct Hon' as (r2 & Hr2 & HN2 & He2 & Hd2 & Hu2).
      destruct (check_rollover k N r2 clk' w') as [_ Hroll]; try done.
      * unfold key_expired in *. rewrite He2. exact Hexp'.
      * rewrite Hd2. congruence.
      * destruct Hroll as (w'' & Hc'' & Hon'' & Hops); [lia |].
        eexists _, w''. split_and!; [exact Hc'' | done | | done].
        by apply used_on_counter in Hon''.
Qed.

(** ** Cache index *)

(** C5: a pair held by the process-local map is answered from the map,
    with no request to the store and no change of state; a pair only the
    store holds is fetched with one query and put into the map; and
    right after [save_cache_record] the lookup of that pair answers with
    the very record written, again with no request to the store. *)
Theorem cache_index_read_through :
  (∀ (vid ty : string) (w : World) (doc : CacheDoc),
     IN_MEMORY_CACHE w !! cache_key_of vid ty = Some doc ->
     get_cached_file vid ty w = (Some doc, w))
  ∧ (∀ (vid ty : string) (w : World) (doc : CacheDoc),
       IN_MEMORY_CACHE w !! cache_key_of vid ty = None ->
       cache w !! (vid, ty) = Some doc ->
       ∃ w', get_cached_file vid ty w = (Some doc, w')
             ∧ IN_MEMORY_CACHE w' !! cache_key_of vid ty = Some doc
             ∧ mongo_ops w' = mongo_ops w ++ [CacheFindOne vid ty]
             ∧ get_cached_file vid ty w' = (Some doc, w'))
  ∧ (∀ (vid ty fid : string) (chat msg : Z) (fname : string)
       (m : gmap string PyVal) (now : Z) (w : World),
       ∃ doc w1,
         save_cache_record vid ty fid chat msg fname m now w = (doc, w1)
         ∧ doc = {| ytid := vid; type := ty; file_id := fid; chat_id := chat;
                    msg_id := msg; file_name := fname; meta := m;
                    cached_at := now |}
         ∧ cache w1 !! (vid, ty) = Some doc
         ∧ get_cached_file vid ty w1 = (Some doc, w1)).
Proof.
  split_and!.
  - intros vid ty w doc Hmem. unfold get_cached_file. by rewrite Hmem.
  - intros vid ty w doc Hmem Hst. unfold get_cached_file. rewrite Hmem.
    simpl. rewrite Hst. eexists. split_and!; [done | | done |].
    + simpl. apply lookup_insert_eq.
    + simpl. by rewrite lookup_insert_eq.
  - intros vid ty fid chat msg fname m now w. unfold save_cache_record.
    eexists _, _. split_and!; [done | done | |].
    + simpl. apply lookup_insert_eq.
    + unfold get_cached_file. simpl. by rewrite lookup_insert_eq.
Qed.

(** A pair neither the map nor the store holds: one query, no record. *)
Lemma get_cached_file_miss (vid ty : string) (w : World) :
  IN_MEMORY_CACHE w !! cache_key_of vid ty = None ->
  cache w !! (vid, ty) = None ->
  get_cached_file vid ty w
  = (None, with_cache id (CacheFindOne vid ty) w).
Proof.
  intros Hmem Hst. unfold get_cached_file. rewrite Hmem. simpl. by rewrite Hst.
Qed.

(** ** Quality selector *)

Lemma insert_desc_head {A K} (ltb : K -> K -> bool) (keyf : A -> K)
    (x y : A) (l : list A) :
  head (insert_desc ltb keyf x (y :: l))
  = Some (if ltb (keyf x) (keyf y) then y else x).
Proof. simpl. by destruct (ltb (keyf x) (keyf y)). Qed.

(** Where the comparison of the keys is the order of a number attached
    to each entry, the head of the sorted list is the first entry of the
    original list whose number is maximal. *)
Lemma sort_desc_head {A K} (ltb : K -> K -> bool) (keyf : A -> K)
    (rank : A -> Z) (l : list A) :
  (∀ x y, x ∈ l -> y ∈ l -> ltb (keyf x) (keyf y) = (rank x <? rank y)) ->
  l ≠ [] ->
  ∃ (i : nat) (best : A),
    head (sort_desc ltb keyf l) = Some best
    ∧ l !! i = Some best
    ∧ (∀ f, f ∈ l -> rank f <= rank best)
    ∧ (∀ (j : nat) f, (j < i)%nat -> l !! j = Some f -> rank f < rank best).
Proof.
  induction l as [|x l IH]; [done |]. intros Hlt _.
  destruct l as [|y l].
  - exists 0%nat, x. simpl. split_and!; [done | done | | intros; lia].
    intros f Hf. apply list_elem_of_singleton in Hf as ->. lia.
  - destruct IH as (i & best & Hhd & Hi & Hmax & Hfirst); [| done |].
    { intros a b Ha Hb. apply Hlt; by apply elem_of_cons; right. }
    change (sort_desc ltb keyf (x :: y :: l))
      with (insert_desc ltb keyf x (sort_desc ltb keyf (y :: l))).
    destruct (sort_desc ltb keyf (y :: l)) as [|b rest]; [done |].
    simpl in Hhd. injection Hhd as ->.
    rewrite insert_desc_head.
    rewrite (Hlt x best);
      [| by apply elem_of_cons; left
       | apply elem_of_cons; right; by eapply list_elem_of_lookup_2].
    destruct (rank x <? rank best) eqn:Hcmp.
    + apply Z.ltb_lt in Hcmp. exists (S i), best.
      split_and!; [done | done | |].
      * intros f [->|Hf]%elem_of_cons; [lia | by apply Hmax].
      * intros [|j] f Hj Hf; simpl in Hf.
        -- injection Hf as <-. done.
        -- apply (Hfirst j); [lia | done].
    + apply Z.ltb_ge in Hcmp. exists 0%nat, x.
      split_and!; [done | done | | intros; lia].
      intros f [->|Hf]%elem_of_cons; [lia |].
      specialize (Hmax f Hf). lia.
Qed.

Lemma py_ltb_numbers (x y : PyVal) :
  is_number x = true -> is_number y = true ->
  py_ltb x y = (num_rank x <? num_rank y).
Proof.
  unfold is_number, py_ltb, py_lt, num_rank.
  by destruct (num_val x), (num_val y).
Qed.

Lemma num_rank_int (n : Z) : num_rank (PyInt n) = n * FLOAT_SCALE.
Proof. reflexivity. Qed.

Lemma float_scale_pos : 0 < FLOAT_SCALE.
Proof. reflexivity. Qed.

(** On integers the order of the ranks is the order of the integers. *)
Lemma num_rank_int_le (n n' : Z) :
  num_rank (PyInt n) <= num_rank (PyInt n') ↔ n <= n'.
Proof.
  rewrite !num_rank_int. pose proof float_scale_pos.
  split; [apply Z.mul_le_mono_pos_r | by apply Z.mul_le_mono_nonneg_r; lia];
    done.
Qed.

Lemma filter_type_objects (t : string) (l : list Format) :
  filter_type t (EntryDict <$> l) = inr (List.filter (has_type t) l).
Proof.
  induction l as [|f l IH]; [done |].
  rewrite fmap_cons. cbn [filter_type]. rewrite IH. cbn [try_bind].
  cbn [List.filter]. by destruct (has_type t f).
Qed.

Lemma list_sort_desc_numbers {A} (keyf : A -> PyVal) (l : list A) :
  (∀ f, f ∈ l -> is_number (keyf f) = true) ->
  list_sort_desc keyf l = inr (sort_desc py_ltb keyf l).
Proof.
  intros Hnum. unfold list_sort_desc.
  destruct (length l <=? 1)%nat eqn:Hlen.
  - apply Nat.leb_le in Hlen.
    destruct l as [|x [|y l]]; [done | done | simpl in Hlen; lia].
  - assert (forallb is_number (keyf <$> l) = true) as ->; [|done].
    apply forallb_forall. intros k Hk. apply list_elem_of_In in Hk.
    apply list_elem_of_fmap in Hk as (f & -> & Hf). by apply Hnum.
Qed.

Lemma choose_best_quality_kind (cfg : Config) (decrypted : OriginDoc)
    (kd : Kind) :
  choose_best_quality cfg decrypted (kind_name kd)
  = try! fmts := get_formats decrypted in
    try! entries := iterate fmts in
    try! matching := filter_type (kind_name kd) entries in
    match matching with
    | [] => inr (default_quality cfg kd)
    | _ :: _ =>
        try! sorted := list_sort_desc (score kd) matching in
        match sorted with
        | best :: _ => inr (printed cfg kd best)
        | [] => inr (default_quality cfg kd)
        end
    end.
Proof. by destruct kd. Qed.

(** C7: the selector is a function of the metadata and the kind alone.
    On a document whose renditions are objects, those of the kind being
    the entries whose [type] is the kind's name and each of them having
    a number for its descriptor (or none, which counts as 0): with no
    entry of the kind it answers with the configured default; otherwise
    with the descriptor, printed, of the first entry of the kind among
    those whose descriptor is largest. *)
Theorem choose_best_quality_spec (cfg : Config) (m : Metadata) (kd : Kind)
    (l : list Format) :
  formats m = formats_of l ∨ (formats m = None ∧ l = []) ->
  let matching :=
    List.filter (fun f => bool_decide (f_type f = Some (PyStr (kind_name kd))))
      l in
  (∀ f, f ∈ matching -> is_number (score kd f) = true) ->
  (matching = [] ->
   choose_best_quality cfg (DocDict m) (kind_name kd)
   = inr (default_quality cfg kd))
  ∧ (matching ≠ [] ->
     ∃ (i : nat) (best : Format),
       matching !! i = Some best
       ∧ (∀ f, f ∈ matching ->
            num_rank (score kd f) <= num_rank (score kd best))
       ∧ (∀ (j : nat) f, (j < i)%nat -> matching !! j = Some f ->
            num_rank (score kd f) < num_rank (score kd best))
       ∧ choose_best_quality cfg (DocDict m) (kind_name kd)
         = inr (printed cfg kd best)
       ∧ (∀ q, descriptor kd best = Some q ->
            choose_best_quality cfg (DocDict m) (kind_name kd)
            = inr (py_str q))
       ∧ (∀ n, descriptor kd best = Some (PyInt n) ->
            ∀ f n', f ∈ matching -> descriptor kd f = Some (PyInt n') ->
                    n' <= n)).
Proof.
  intros Hshape matching Hnum.
  assert (choose_best_quality cfg (DocDict m) (kind_name kd)
          = match matching with
            | [] => inr (default_quality cfg kd)
            | _ :: _ =>
                match sort_desc py_ltb (score kd) matching with
                | best :: _ => inr (printed cfg kd best)
                | [] => inr (default_quality cfg kd)
                end
            end) as ->.
  { rewrite choose_best_quality_kind. unfold get_formats. cbn [try_bind].
    assert (iterate (default (FormatsList []) (formats m))
            = inr (EntryDict <$> l)) as ->.
    { by destruct Hshape as [->|[-> ->]]. }
    cbn [try_bind]. rewrite filter_type_objects. cbn [try_bind].
    change (List.filter (has_type (kind_name kd)) l) with matching.
    destruct matching as [|f0 rest] eqn:Hm; [done |].
    rewrite list_sort_desc_numbers by done. done. }
  split.
  - by intros ->.
  - intros Hne.
    destruct (sort_desc_head py_ltb (score kd) (fun f => num_rank (score kd f))
                matching) as (i & best & Hhd & Hi & Hmax & Hfirst); [| done |].
    { intros x y Hx Hy. apply py_ltb_numbers; by apply Hnum. }
    exists i, best.
    destruct matching as [|f0 rest] eqn:Hm; [done |]. rewrite <- Hm in *.
    destruct (sort_desc py_ltb (score kd) matching) as [|b rest']; [done |].
    simpl in Hhd. injection Hhd as ->.
    split_and!; try done.
    + intros q Hq. unfold printed. by rewrite Hq.
    + intros n Hn f n' Hf Hn'. specialize (Hmax f Hf).
      unfold score in Hmax. rewrite Hn, Hn' in Hmax. simpl in Hmax.
      by apply num_rank_int_le.
Qed.

Example choose_best_of_three :
  choose_best_quality sample_cfg
    (DocDict {| title := None; durationLabel := None; thumbnail := None;
                resolver_key := None;
                formats := formats_of [video_format 480; video_format 720;
                                       video_format 1080] |})
    "video" = inr "1080"%string.
Proof. reflexivity. Qed.

Example choose_best_no_video :
  choose_best_quality sample_cfg
    (DocDict {| title := None; durationLabel := None; thumbnail := None;
                resolver_key := None; formats := formats_of [audio_format 128] |})
    "video" = inr "720"%string.
Proof. reflexivity. Qed.

Example sort_desc_keeps_order_of_equals :
  sort_desc Z.ltb fst [(2, "a"); (5, "b"); (5, "c"); (1, "d"); (2, "e")]%string
  = [(5, "b"); (5, "c"); (2, "a"); (2, "e"); (1, "d")]%string.
Proof. reflexivity. Qed.

(** Outside that shape the selector does what the interpreter does with
    the values: a single entry with a null descriptor is printed as
    [None]; a null descriptor beside a number cannot be compared and the
    sort raises; strings are compared as strings; a [formats] that is
    null cannot be iterated; an entry that is not an object has no
    [get]. *)
Example choose_best_null_descriptor :
  let doc l := DocDict {| title := None; durationLabel := None;
                          thumbnail := None; resolver_key := None;
                          formats := Some (FormatsList l) |} in
  let video h := EntryDict {| f_type := Some (PyStr "video"); height := h;
                              bitrate := None |} in
  choose_best_quality sample_cfg (doc [video (Some PyNone)]) "video"
  = inr "None"%string
  ∧ (∃ e, choose_best_quality sample_cfg
            (doc [video (Some PyNone); video (Some (PyInt 480))]) "video"
          = inl e)
  ∧ choose_best_quality sample_cfg
      (doc [video (Some (PyStr "720")); video (Some (PyStr "1080"))]) "video"
    = inr "720"%string
  ∧ choose_best_quality sample_cfg
      (doc [video None; video (Some (PyInt (-5)))]) "video"
    = inr "720"%string
  ∧ choose_best_quality sample_cfg
      (doc [video (Some (PyInt 480)); EntryOther TInt]) "video"
    = inl "'int' object has no attribute 'get'"%string
  ∧ choose_best_quality sample_cfg
      (DocDict {| title := None; durationLabel := None; thumbnail := None;
                  resolver_key := None;
                  formats := Some (FormatsOther TNone) |}) "video"
    = inl "'NoneType' object is not iterable"%string
  ∧ choose_best_quality sample_cfg (DocOther TList) "video"
    = inl "'list' object has no attribute 'get'"%string.
Proof. cbv zeta. split_and!; try done. by eexists. Qed.

(** ** Resolution orchestrator *)

Lemma extract_strip (inp : string) :
  extract_vidid (PyStr.strip inp) = extract_vidid inp.
Proof. unfold extract_vidid. by rewrite strip_idem. Qed.

Lemma extract_normalized_none (inp : string) :
  extract_vidid inp = None ->
  extract_vidid (normalize_youtube_input inp) = None.
Proof.
  intros H. destruct (normalize_cases inp) as (_ & Hn & _).
  by rewrite (Hn H), extract_strip.
Qed.

(** What admission does to the state: it talks to the key collection
    only. *)
Lemma check_api_key_frame (k : string) (clk : Clock) (w w1 : World)
    (res : HTTPException + ApiKeyDoc) :
  check_api_key k clk w = (res, w1) ->
  cache w1 = cache w
  ∧ IN_MEMORY_CACHE w1 = IN_MEMORY_CACHE w
  ∧ PROCESSING_SET w1 = PROCESSING_SET w
  ∧ files w1 = files w ∧ channel w1 = channel w
  ∧ ∃ ops, mongo_ops w1 = mongo_ops w ++ ops
           ∧ Forall (fun op => is_cache_op op = false) ops.
Proof.
  unfold check_api_key.
  destruct (String.eqb k ""); [intros [= <- <-] |].
  { split_and!; try done. exists []. by rewrite app_nil_r. }
  simpl. destruct (apikeys w !! k) as [r|]; [|intros [= <- <-]].
  2: { split_and!; try done. eexists. split; [done |]. by repeat constructor. }
  destruct (key_expired r clk); [intros [= <- <-] |].
  { split_and!; try done. eexists. split; [done |]. by repeat constructor. }
  destruct (decide (last_used_date r = Some (ist_date_str clk))); simpl;
    match goal with |- context [?a <=? ?b] => destruct (a <=? b) end;
    intros [= <- <-]; simpl; split_and!; try done;
    rewrite <- ?app_assoc; eexists; (split; [done |]); by repeat constructor.
Qed.

(** An admitted attempt leaves the counter one above the uses counted
    against the record at that clock reading, and it has written to the
    store to do so. *)
Lemma check_api_key_admitted (k : string) (clk : Clock) (w w1 : World)
    (record : ApiKeyDoc) :
  check_api_key k clk w = (inr record, w1) ->
  ∃ r0, apikeys w !! k = Some r0
        ∧ counter k w1 = Some (counted_today r0 clk + 1)
        ∧ ApikeysInc k 1 ∈ mongo_ops w1.
Proof.
  unfold check_api_key, counted_today.
  destruct (String.eqb k ""); [done |]. simpl.
  destruct (apikeys w !! k) as [r0|] eqn:Hr; [|done].
  destruct (key_expired r0 clk); [done |].
  destruct (decide (last_used_date r0 = Some (ist_date_str clk))); simpl;
    match goal with |- context [?a <=? ?b] => destruct (a <=? b) end;
    intros [= <- <-]; exists r0; unfold counter; simpl;
    rewrite ?lookup_alter_eq, Hr; simpl; case_decide; try done;
    (split_and!; [done | done |]);
    apply elem_of_app; right; constructor.
Qed.

(** C9: once a request is admitted, an input in which no identifier is
    recognised is answered with status 400 at once. Handling it touches
    nothing: the state the handler leaves is the state admission left,
    so after admission there is no request to the store, no lookup in
    the cache, no change of the token's counter, and no archival is
    dispatched. Admission itself has made no request to the cache
    collection either. *)
Theorem invalid_reference_fails_fast (cfg : Config) (env : RequestEnv)
    (url k : string) (quality : option string) (w w1 : World)
    (record : ApiKeyDoc) :
  check_api_key k (clock env) w = (inr record, w1) ->
  extract_vidid url = None ->
  ytmp4 cfg env url k quality w
  = (JSONResponse 400 "Invalid YouTube URL or ID", w1, None)
  ∧ ytmp3 cfg env url k quality w
    = (JSONResponse 400 "Invalid YouTube URL or ID", w1, None)
  ∧ cache w1 = cache w
  ∧ IN_MEMORY_CACHE w1 = IN_MEMORY_CACHE w
  ∧ (∃ ops, mongo_ops w1 = mongo_ops w ++ ops
            ∧ Forall (fun op => is_cache_op op = false) ops).
Proof.
  intros Hadm Hurl.
  pose proof (extract_normalized_none url Hurl) as Hnorm.
  destruct (check_api_key_frame _ _ _ _ _ Hadm) as (Hc & Hm & _ & _ & _ & Hops).
  unfold ytmp4, ytmp3, resolve. rewrite Hadm, Hurl, Hnorm. simpl.
  split_and!; done.
Qed.

(** A reply that comes from the origin carries the quality the handler
    selected: the hint whenever one is given and not empty, the
    selector's choice otherwise. The same quality goes into the download
    request and into the archival task. *)
Lemma resolve_origin_reply (cfg : Config) (media_type label : string)
    (env : RequestEnv) (url k : string) (quality : option string)
    (w w' : World) (res : ResultBody) (task : option ArchiveArgs) :
  resolve cfg media_type label env url k quality w = (Success res, w', task) ->
  r_source res = "savetube"%string ->
  ∃ m a selected,
    savetube_info env (normalize_youtube_input url) = inr (DocDict m)
    ∧ task = Some a
    ∧ selected_quality cfg (DocDict m) media_type quality = inr selected
    ∧ r_quality res = PyStr selected
    ∧ a_quality a = selected
    ∧ savetube_download env (default PyNone (resolver_key m)) selected
        media_type
      = inr (r_url res).
Proof.
  unfold resolve.
  destruct (check_api_key k (clock env) w) as [[e|r] w1]; [done |].
  destruct (truthy _) as [vidid|]; [|done].
  destruct (get_cached_file vidid media_type w1) as [[cached|] w2].
  { intros [= <- <- <-]. done. }
  destruct (savetube_info env (normalize_youtube_input url))
    as [e|decrypted]; [done |].
  destruct (selected_quality cfg decrypted media_type quality)
    as [e|selected] eqn:Hsel; [done |].
  destruct decrypted as [m|t]; [|done].
  destruct (savetube_download env _ _ media_type) as [e|download_url] eqn:Hd;
    [done |].
  intros [= <- <- <-] _. eexists _, _, _. split_and!; done.
Qed.

Lemma sample_request_with_hint :
  ∃ res w' task,
    ytmp4 sample_cfg sample_env "https://youtu.be/dQw4w9WgXcQ" "abc"
      (Some "9999"%string) sample_world = (Success res, w', task)
    ∧ r_source res = "savetube"%string
    ∧ r_quality res = PyStr "9999".
Proof.
  eexists _, _, _. split; [vm_compute; reflexivity |]. by split.
Qed.

(** C8, as stated, fails: a hint that names none of the renditions is
    used all the same. *)
Lemma preferred_quality_not_checked :
  ¬ (∀ (cfg : Config) (env : RequestEnv) (url k q : string) (w w' : World)
       (res : ResultBody) (task : option ArchiveArgs) (decrypted : OriginDoc)
       (choice : string),
       ytmp4 cfg env url k (Some q) w = (Success res, w', task) ->
       r_source res = "savetube"%string ->
       savetube_info env (normalize_youtube_input url) = inr decrypted ->
       q ∉ renditions decrypted "video" ->
       choose_best_quality cfg decrypted "video" = inr choice ->
       r_quality res = PyStr choice).
Proof.
  intros H.
  destruct sample_request_with_hint as (res & w' & task & Hreq & Hsrc & Hq).
  specialize (H _ _ _ _ _ _ _ _ _ (DocDict sample_metadata) "720"%string
                Hreq Hsrc eq_refl).
  rewrite Hq in H.
  assert (Hnot : "9999"%string ∉ renditions (DocDict sample_metadata) "video")
    by (apply (bool_decide_unpack _); by vm_compute).
  specialize (H Hnot eq_refl). discriminate H.
Qed.

(** C8, amended: on a cache miss the quality of the reply, of the
    download request and of the archival task is the hint whenever a
    non-empty hint is supplied, present among the renditions or not; the
    selector's choice is used when the hint is absent or empty. *)
Theorem preferred_quality_overrides (cfg : Config) (env : RequestEnv)
    (url k : string) (quality : option string) (w w' : World)
    (res : ResultBody) (task : option ArchiveArgs) (kd : Kind) :
  (if kd is Video then ytmp4 else ytmp3) cfg env url k quality w
  = (Success res, w', task) ->
  r_source res = "savetube"%string ->
  ∃ m a,
    savetube_info env (normalize_youtube_input url) = inr (DocDict m)
    ∧ task = Some a
    ∧ r_quality res = PyStr (a_quality a)
    ∧ savetube_download env (default PyNone (resolver_key m)) (a_quality a)
        (kind_name kd)
      = inr (r_url res)
    ∧ (∀ q, quality = Some q -> q ≠ ""%string -> a_quality a = q)
    ∧ (quality = None ∨ quality = Some ""%string ->
       choose_best_quality cfg (DocDict m) (kind_name kd)
       = inr (a_quality a)).
Proof.
  intros Hreq Hsrc.
  assert (Hres : ∃ label,
            resolve cfg (kind_name kd) label env url k quality w
            = (Success res, w', task))
    by (destruct kd; eexists; exact Hreq).
  destruct Hres as [label Hres].
  destruct (resolve_origin_reply _ _ _ _ _ _ _ _ _ _ _ Hres Hsrc)
    as (m & a & selected & Hinfo & -> & Hsel & Hq & Ha & Hd).
  exists m, a. unfold selected_quality in Hsel. subst selected.
  split_and!; [done | done | done | done | |].
  - intros q -> Hne. simpl in Hsel. rewrite (key_given q Hne) in Hsel.
    by injection Hsel.
  - by intros [-> | ->].
Qed.

Lemma preferred_quality_overrides_witness :
  ∃ a, (ytmp4 sample_cfg sample_env "https://youtu.be/dQw4w9WgXcQ" "abc"
          (Some "9999"%string) sample_world).2 = Some a
       ∧ a_quality a = "9999"%string.
Proof.
  destruct (ytmp4 sample_cfg sample_env "https://youtu.be/dQw4w9WgXcQ" "abc"
              (Some "9999"%string) sample_world) as [[resp w'] task] eqn:Hreq.
  assert (Hres : ∃ res, resp = Success res ∧ r_source res = "savetube"%string).
  { vm_compute in Hreq. injection Hreq as <- _ _. eexists. by split. }
  destruct Hres as (res & -> & Hsrc).
  destruct (preferred_quality_overrides sample_cfg sample_env _ _ _ _ _ _ _
              Video Hreq Hsrc)
    as (decrypted & a & _ & -> & _ & _ & Hhint & _).
  exists a. split; [done |]. by apply Hhint.
Defined.


(** ** Single-flight archiver *)

Lemma cache_writes_log (lvl : LogLevel) (msg : string) (w : World) :
  cache_writes (log lvl msg w) = cache_writes w.
Proof. done. Qed.

Lemma runner_inv_log (K : string) (w0 : World) (env : ArchiveEnv) (p : pc)
    (lvl : LogLevel) (msg : string) (w : World) :
  runner_inv K w0 env p w -> runner_inv K w0 env p (log lvl msg w).
Proof. done. Qed.

Lemma task_step_not_entry (cfg : Config) (a : ArchiveArgs) (env : ArchiveEnv)
    (p : pc) (w : World) :
  is_entry (task_step cfg a env p w).1 = false.
Proof.
  destruct p; simpl; try done.
  - destruct (decide _); [done |]. by destruct (sanitize_filename _).
  - by destruct (download_outcome env).
  - by destruct (upload_outcome env) as [e|[fid mid]].
  - by destruct (save_outcome env).
Qed.

(** The first scheduling of a call that finds the key unmarked: the key
    is marked; then a title that is a string takes the run to the
    download, and any other title makes [sanitize_filename] raise, which
    ends the run with the mark set. *)
Lemma task_step_enter (cfg : Config) (a : ArchiveArgs) (env : ArchiveEnv)
    (w : World) :
  archive_key a ∉ PROCESSING_SET w ->
  is_str (a_title a) = true ->
  task_step cfg a env Entry w
  = (AtDownload,
     log INFO ("Downloading " ++ a_ytid a ++ " to " ++ archive_filepath cfg a)
       (with_processing (fun s => s ∪ {[archive_key a]}) w)).
Proof.
  intros Hfree Hstr. cbn [task_step]. rewrite decide_False by done.
  by destruct (a_title a).
Qed.

Lemma task_step_crash (cfg : Config) (a : ArchiveArgs) (env : ArchiveEnv)
    (w : World) :
  archive_key a ∉ PROCESSING_SET w ->
  is_str (a_title a) = false ->
  ∃ e, sanitize_filename (a_title a) = inl e
       ∧ task_step cfg a env Entry w
         = (Crashed e, with_processing (fun s => s ∪ {[archive_key a]}) w).
Proof.
  intros Hfree Hstr. cbn [task_step]. rewrite decide_False by done.
  destruct (a_title a); try done; by eexists.
Qed.

(** A call that finds the key marked returns at its first scheduling,
    and all it does is write a log line. *)
Lemma task_step_skip (cfg : Config) (a : ArchiveArgs) (env : ArchiveEnv)
    (w : World) :
  archive_key a ∈ PROCESSING_SET w ->
  task_step cfg a env Entry w
  = (Done,
     log INFO ("Already processing " ++ archive_key a ++ ", skipping") w).
Proof. intros H. simpl. by rewrite decide_True. Qed.

Lemma marked_after_add (K : string) (s : gset string) : K ∈ s ∪ {[K]}.
Proof. apply elem_of_union_r. by apply elem_of_singleton. Qed.

Lemma unmarked_after_discard (K : string) (s : gset string) : K ∉ s ∖ {[K]}.
Proof. rewrite elem_of_difference, elem_of_singleton. tauto. Qed.

Ltac solve_runner Hfl Hok :=
  unfold cache_writes in *; simpl;
  rewrite ?List.filter_app, ?length_app; simpl;
  split_and!;
  first [ done
        | lia
        | intros _; by apply Hfl
        | intros _; apply marked_after_add
        | intros _; apply unmarked_after_discard
        | let H := fresh in intros H; destruct (Hok H); split; lia ].

Lemma runner_step (cfg : Config) (a : ArchiveArgs) (env : ArchiveEnv)
    (w0 : World) (p : pc) (w : World) :
  is_str (a_title a) = true ->
  runner_inv (archive_key a) w0 env p w ->
  runner_inv (archive_key a) w0 env
    (task_step cfg a env p w).1 (task_step cfg a env p w).2.
Proof.
  intros Hstr (Hentry & Hfl & Hdone & Hup & Hwr & Hok).
  unfold all_succeed in Hok. unfold runner_inv, all_succeed.
  destruct p; simpl in Hentry, Hfl, Hdone, Hup, Hwr, Hok;
    [rewrite task_step_enter by (by try apply Hentry) | simpl..].
  - solve_runner Hfl Hok.
  - destruct (download_outcome env) as [|e [|]]; solve_runner Hfl Hok.
  - destruct (download_outcome env) as [|e0 created];
      destruct (upload_outcome env) as [e|[fid0 mid0]];
      solve_runner Hfl Hok.
  - destruct (download_outcome env) as [|e0 created];
      destruct (upload_outcome env) as [e1|[fid1 mid1]];
      destruct (save_outcome env) as [e|now];
      solve_runner Hfl Hok.
  - destruct (decide _); [destruct (remove_outcome env) |];
      solve_runner Hfl Hok.
  - solve_runner Hfl Hok.
  - solve_runner Hfl Hok.
Qed.

Lemma sys_step_same (cfg : Config) (b : bool) (s : Sys) :
  let t := task_of b s in
  task_of b (sys_step cfg b s)
  = at_pc (task_step cfg (t_args t) (t_env t) (t_pc t) (world s)).1 t
  ∧ world (sys_step cfg b s)
    = (task_step cfg (t_args t) (t_env t) (t_pc t) (world s)).2.
Proof.
  unfold sys_step.
  destruct (task_step cfg _ _ _ (world s)) as [p w]. by destruct b.
Qed.

Lemma sys_step_other (cfg : Config) (b : bool) (s : Sys) :
  task_of (negb b) (sys_step cfg b s) = task_of (negb b) s.
Proof.
  unfold sys_step.
  destruct (task_step cfg _ _ _ (world s)) as [p w]. by destruct b.
Qed.

Lemma sys_step_args (cfg : Config) (b : bool) (s : Sys) :
  t_args (task0 (sys_step cfg b s)) = t_args (task0 s)
  ∧ t_args (task1 (sys_step cfg b s)) = t_args (task1 s).
Proof.
  unfold sys_step.
  destruct (task_step cfg _ _ _ (world s)) as [p w]. by destruct b.
Qed.

Lemma run_schedule_app (cfg : Config) (l1 l2 : list bool) (s : Sys) :
  run_schedule cfg (l1 ++ l2) s = run_schedule cfg l2 (run_schedule cfg l1 s).
Proof. apply foldl_app. Qed.

(** A task that has been scheduled is never back at its entry. *)
Lemma entry_before_step (cfg : Config) (b c : bool) (s : Sys) :
  is_entry (t_pc (task_of b (sys_step cfg c s))) = true ->
  is_entry (t_pc (task_of b s)) = true ∧ c = negb b.
Proof.
  destruct (decide (c = b)) as [->|Hne].
  - destruct (sys_step_same cfg b s) as [-> _]. simpl.
    by rewrite task_step_not_entry.
  - assert (b = negb c) as -> by by destruct b, c.
    rewrite sys_step_other, negb_involutive. done.
Qed.

Lemma entry_before_run (cfg : Config) (b : bool) (l : list bool) (s : Sys) :
  is_entry (t_pc (task_of b (run_schedule cfg l s))) = true ->
  is_entry (t_pc (task_of b s)) = true ∧ Forall (fun c => c = negb b) l.
Proof.
  revert s. induction l as [|c l IH]; intros s H; [done |].
  simpl in H. apply IH in H as [H Hall].
  apply entry_before_step in H as [H ->]. split; [done |]. by constructor.
Qed.

(** While the other task waits at its entry, the steps are the
    runner's. *)
Lemma phase_runner_step (cfg : Config) (other_at : pc -> bool) (K : string)
    (w0 : World) (r : bool) (s : Sys) :
  phase other_at K w0 r s -> phase other_at K w0 r (sys_step cfg r s).
Proof.
  intros (HK0 & HK1 & Hstr & Hother & Hinv).
  destruct (sys_step_args cfg r s) as [Ha0 Ha1].
  destruct (sys_step_same cfg r s) as [Hsame Hworld].
  unfold phase. rewrite Ha0, Ha1, sys_step_other, Hsame, Hworld. simpl.
  split_and!; try done.
  assert (HK : archive_key (t_args (task_of r s)) = K) by by destruct r.
  rewrite <- HK in *. by apply runner_step.
Qed.

(** Once the other task has returned, no step changes that. *)
Lemma phase_done_step (cfg : Config) (K : string) (w0 : World) (r c : bool)
    (s : Sys) :
  phase is_done K w0 r s -> phase is_done K w0 r (sys_step cfg c s).
Proof.
  intros Hph. destruct (decide (c = r)) as [->|Hne];
    [by apply phase_runner_step |].
  assert (c = negb r) as -> by by destruct c, r.
  destruct Hph as (HK0 & HK1 & Hstr & Hother & Hinv).
  destruct (sys_step_args cfg (negb r) s) as [Ha0 Ha1].
  destruct (sys_step_same cfg (negb r) s) as [Hsame Hworld].
  pose proof (sys_step_other cfg (negb r) s) as Hrun.
  rewrite negb_involutive in Hrun.
  unfold phase. rewrite Ha0, Ha1, Hsame, Hworld, Hrun.
  destruct (t_pc (task_of (negb r) s)); try done.
Qed.

Lemma phase_done_run (cfg : Config) (K : string) (w0 : World) (r : bool)
    (l : list bool) (s : Sys) :
  phase is_done K w0 r s -> phase is_done K w0 r (run_schedule cfg l s).
Proof.
  revert s. induction l as [|c l IH]; intros s H; [done |].
  simpl. by apply IH, phase_done_step.
Qed.

Lemma phase_entry_run (cfg : Config) (K : string) (w0 : World) (r : bool)
    (l : list bool) (s : Sys) :
  phase is_entry K w0 r s ->
  is_entry (t_pc (task_of (negb r) (run_schedule cfg l s))) = true ->
  phase is_entry K w0 r (run_schedule cfg l s) ∧ Forall (fun c => c = r) l.
Proof.
  revert s. induction l as [|c l IH]; intros s Hph Hend; [done |].
  simpl in *.
  destruct (entry_before_run cfg _ _ _ Hend) as [Hc _].
  apply entry_before_step in Hc as [_ ->]. rewrite negb_involutive in *.
  destruct (IH (sys_step cfg r s)) as [H Hall];
    [by apply phase_runner_step | done |].
  split; [done | by constructor].
Qed.

(** The other task scheduled while the runner is in flight: it finds the
    key marked and returns. *)
Lemma phase_skip (cfg : Config) (K : string) (w0 : World) (r : bool) (s : Sys) :
  phase is_entry K w0 r s ->
  in_flight (t_pc (task_of r s)) = true ->
  phase is_done K w0 r (sys_step cfg (negb r) s).
Proof.
  intros (HK0 & HK1 & Hstr & Hother & Hinv) Hfl.
  destruct (sys_step_args cfg (negb r) s) as [Ha0 Ha1].
  destruct (sys_step_same cfg (negb r) s) as [Hsame Hworld].
  pose proof (sys_step_other cfg (negb r) s) as Hrun.
  rewrite negb_involutive in Hrun.
  assert (HK : archive_key (t_args (task_of (negb r) s)) = K) by by destruct r.
  assert (Hmarked : K ∈ PROCESSING_SET (world s)) by by apply Hinv.
  destruct (t_pc (task_of (negb r) s)) eqn:Hpc; try done.
  rewrite task_step_skip in Hsame, Hworld by by rewrite HK.
  unfold phase. rewrite Ha0, Ha1, Hsame, Hworld, Hrun. simpl.
  split_and!; try done.
Qed.

Lemma run_schedule_env (cfg : Config) (b : bool) (l : list bool) (s : Sys) :
  t_env (task_of b (run_schedule cfg l s)) = t_env (task_of b s).
Proof.
  revert s. induction l as [|c l IH]; intros s; [done |].
  simpl. rewrite IH. unfold sys_step.
  destruct (task_step cfg _ _ _ (world s)) as [p w]. by destruct b, c.
Qed.

(** The single-flight guard for calls whose title is a string: a call
    that finds its key marked returns at once, having done nothing but
    log; and of two calls for one key that overlap, whatever the
    schedule and whatever the outside world answers, only one gets past
    the check: when both have returned there has been at most one upload
    and at most one record write, exactly one of each when nothing
    failed for the call that ran, and the key is unmarked. *)
Lemma single_flight_for_titled_calls (cfg : Config) (a0 a1 : ArchiveArgs)
    (env0 env1 : ArchiveEnv) (w : World) (sch : list bool) :
  let s0 := {| task0 := spawn a0 env0; task1 := spawn a1 env1; world := w |} in
  let s := run_schedule cfg sch s0 in
  archive_key a0 = archive_key a1 ->
  is_str (a_title a0) = true -> is_str (a_title a1) = true ->
  archive_key a0 ∉ PROCESSING_SET w ->
  overlapping cfg sch s0 ->
  is_done (t_pc (task0 s)) = true ->
  is_done (t_pc (task1 s)) = true ->
  (∀ (a : ArchiveArgs) (env : ArchiveEnv) (w' : World),
     archive_key a ∈ PROCESSING_SET w' ->
     task_step cfg a env Entry w'
     = (Done,
        log INFO ("Already processing " ++ archive_key a ++ ", skipping") w'))
  ∧ (length (channel (world s)) <= length (channel w) + 1)%nat
  ∧ (length (cache_writes (world s)) <= length (cache_writes w) + 1)%nat
  ∧ (archive_key a0 ∉ PROCESSING_SET (world s))
  ∧ (∀ first : bool,
       head sch = Some first ->
       all_succeed (if first then env1 else env0) = true ->
       (length (channel (world s)) = length (channel w) + 1)%nat
       ∧ (length (cache_writes (world s)) = length (cache_writes w) + 1)%nat).
Proof.
  intros s0 s Hkey Hstr0 Hstr1 Hfree (pre & post & who & -> & Hentry & Hfl)
    Hd0 Hd1.
  split; [intros a env w'; apply task_step_skip |].
  remember (negb who) as r eqn:Hr.
  assert (Hwho : who = negb r) by (subst r; by rewrite negb_involutive).
  clear Hr.
  assert (Hstart : phase is_entry (archive_key a0) w r s0).
  { unfold phase, runner_inv, s0. destruct r; simpl; by split_and!. }
  rewrite Hwho in Hentry.
  destruct (phase_entry_run cfg _ w r pre s0 Hstart Hentry) as [Hph1 Hpre].
  pose proof (phase_skip cfg _ w r _ Hph1 Hfl) as Hph2.
  pose proof (phase_done_run cfg _ w r post _ Hph2) as Hend.
  assert (Hs : s = run_schedule cfg post
                     (sys_step cfg (negb r) (run_schedule cfg pre s0))).
  { unfold s. rewrite run_schedule_app. simpl. by rewrite <- Hwho. }
  rewrite <- Hs in Hend.
  destruct Hend as (_ & _ & _ & _ & Hinv).
  assert (Hdone : is_done (t_pc (task_of r s)) = true) by by destruct r.
  destruct Hinv as (_ & _ & Hunmarked & Hup & Hwr & Hok).
  destruct (t_pc (task_of r s)); try done. simpl in *.
  split_and!; [lia | lia | by apply Hunmarked |].
  intros first Hfirst Hsucc.
  assert (first = r) as ->.
  { destruct pre as [|c pre].
    - simpl in Hfl. by destruct r.
    - apply Forall_cons in Hpre as [-> _]. simpl in Hfirst. congruence. }
  assert (t_env (task_of r s) = if r then env1 else env0) as Henv
    by (unfold s; rewrite run_schedule_env; by destruct r).
  rewrite Henv in Hok. destruct (Hok Hsucc). lia.
Qed.

(** Once a run has raised with the key marked, nothing unmarks the key:
    the run takes no further step, and the other call, when it is
    scheduled, finds the mark, logs and returns. *)
Lemma crashed_run (cfg : Config) (K : string) (r : bool) (e : Exception)
    (l : list bool) :
  ∀ s : Sys,
    archive_key (t_args (task_of (negb r) s)) = K ->
    t_pc (task_of r s) = Crashed e ->
    is_entry (t_pc (task_of (negb r) s)) || is_done (t_pc (task_of (negb r) s))
    = true ->
    K ∈ PROCESSING_SET (world s) ->
    let s' := run_schedule cfg l s in
    t_pc (task_of r s') = Crashed e
    ∧ is_entry (t_pc (task_of (negb r) s')) || is_done (t_pc (task_of (negb r) s'))
      = true
    ∧ (negb r ∈ l -> is_done (t_pc (task_of (negb r) s')) = true)
    ∧ (is_done (t_pc (task_of (negb r) s)) = true ->
       is_done (t_pc (task_of (negb r) s')) = true)
    ∧ PROCESSING_SET (world s') = PROCESSING_SET (world s)
    ∧ channel (world s') = channel (world s)
    ∧ mongo_ops (world s') = mongo_ops (world s)
    ∧ cache (world s') = cache (world s)
    ∧ IN_MEMORY_CACHE (world s') = IN_MEMORY_CACHE (world s)
    ∧ files (world s') = files (world s).
Proof.
  induction l as [|c l IH]; intros s HK Hr Ho Hmark.
  { cbv zeta. simpl. split_and!; try done. by intros ?%elem_of_nil. }
  cbv zeta. cbn [run_schedule foldl].
  change (foldl (fun s who => sys_step cfg who s) (sys_step cfg c s) l)
    with (run_schedule cfg l (sys_step cfg c s)).
  destruct (decide (c = r)) as [->|Hne].
  - destruct (sys_step_same cfg r s) as [Hsame Hworld].
    pose proof (sys_step_other cfg r s) as Hoth.
    rewrite Hr in Hsame, Hworld. cbn [task_step fst snd] in Hsame, Hworld.
    destruct (IH (sys_step cfg r s)) as (H1 & H2 & H3 & H4 & H5);
      [by rewrite Hoth | by rewrite Hsame | by rewrite Hoth
      | by rewrite Hworld |].
    rewrite Hworld, Hoth in *.
    split_and!; try done; try tauto.
    intros [Hc|Hin]%elem_of_cons; [by destruct r | by apply H3].
  - assert (c = negb r) as -> by by destruct c, r.
    destruct (sys_step_same cfg (negb r) s) as [Hsame Hworld].
    pose proof (sys_step_other cfg (negb r) s) as Hoth.
    rewrite negb_involutive in Hoth.
    assert (is_done (task_step cfg (t_args (task_of (negb r) s))
                       (t_env (task_of (negb r) s))
                       (t_pc (task_of (negb r) s)) (world s)).1 = true
            ∧ ∃ lg, (task_step cfg (t_args (task_of (negb r) s))
                       (t_env (task_of (negb r) s))
                       (t_pc (task_of (negb r) s)) (world s)).2
                    = {| apikeys := apikeys (world s); cache := cache (world s);
                         mongo_ops := mongo_ops (world s);
                         IN_MEMORY_CACHE := IN_MEMORY_CACHE (world s);
                         PROCESSING_SET := PROCESSING_SET (world s);
                         files := files (world s); channel := channel (world s);
                         logs := lg |}) as [Hdone [lg Hw]].
    { destruct (t_pc (task_of (negb r) s)) eqn:Hpc; try done.
      - rewrite task_step_skip by by rewrite HK. split; [done |].
        by eexists.
      - split; [done |]. exists (logs (world s)). by destruct (world s). }
    destruct (IH (sys_step cfg (negb r) s)) as (H1 & H2 & H3 & H4 & H5);
      [ by rewrite Hsame | by rewrite Hoth
      | rewrite Hsame; cbn [at_pc t_pc]; rewrite Hdone; by rewrite orb_true_r
      | rewrite Hworld, Hw; done |].
    rewrite Hsame in H4. cbn [at_pc t_pc] in H4. specialize (H4 Hdone).
    rewrite Hworld, Hw in H5. cbn in H5.
    split_and!; try done; try tauto.
Qed.

(** C2, where the code departs from it: at a title that is not a string
    the in-flight mark is never released. Of two calls for one key, the
    one scheduled first marks the key and then raises on the title,
    before the [try]; the other finds the mark and returns. Both have
    settled, nothing has been uploaded, no record has been written, and
    the key is still marked. *)
Theorem single_flight_mark_outlives_crash (cfg : Config) (a0 a1 : ArchiveArgs)
    (env0 env1 : ArchiveEnv) (w : World) (sch : list bool) (first : bool) :
  let s0 := {| task0 := spawn a0 env0; task1 := spawn a1 env1; world := w |} in
  let s := run_schedule cfg sch s0 in
  archive_key a0 = archive_key a1 ->
  archive_key a0 ∉ PROCESSING_SET w ->
  head sch = Some first ->
  is_str (a_title (if first then a1 else a0)) = false ->
  negb first ∈ sch ->
  settled (t_pc (task0 s)) = true ∧ settled (t_pc (task1 s)) = true
  ∧ (∃ e, t_pc (task_of first s) = Crashed e)
  ∧ t_pc (task_of (negb first) s) = Done
  ∧ channel (world s) = channel w
  ∧ mongo_ops (world s) = mongo_ops w
  ∧ cache (world s) = cache w
  ∧ archive_key a0 ∈ PROCESSING_SET (world s).
Proof.
  intros s0 s Hkey Hfree Hhead Hstr Hother.
  destruct sch as [|c sch]; [done |]. injection Hhead as ->.
  apply elem_of_cons in Hother as [Hother|Hother]; [by destruct first |].
  assert (s = run_schedule cfg sch (sys_step cfg first s0)) as Hs by done.
  clearbody s. subst s.
  set (a := if first then a1 else a0) in *.
  assert (archive_key a = archive_key a0) as Ha by (subst a; by destruct first).
  destruct (task_step_crash cfg a (if first then env1 else env0) w)
    as (e & _ & Hstep); [by rewrite Ha | done |].
  destruct (sys_step_same cfg first s0) as [Hsame Hworld].
  pose proof (sys_step_other cfg first s0) as Hoth.
  assert (task_of first s0 = spawn a (if first then env1 else env0)) as Hme
    by (subst a; by destruct first).
  rewrite Hme in Hsame, Hworld. cbn [spawn t_args t_env t_pc] in Hsame, Hworld.
  change (world s0) with w in Hworld, Hsame.
  rewrite Hstep in Hsame, Hworld. cbn [fst snd] in Hsame, Hworld.
  destruct (crashed_run cfg (archive_key a0) first e sch (sys_step cfg first s0))
    as (Hr & _ & Hdone & _ & Hproc & Hchan & Hops & Hcache & _).
  - rewrite Hoth. by destruct first.
  - by rewrite Hsame.
  - rewrite Hoth. by destruct first.
  - rewrite Hworld, <- Ha. cbn. apply marked_after_add.
  - specialize (Hdone Hother).
    rewrite Hworld in Hproc, Hchan, Hops, Hcache. cbn in Hproc, Hchan, Hops, Hcache.
    set (s := run_schedule cfg sch (sys_step cfg first s0)) in *.
    assert (t_pc (task_of (negb first) s) = Done) as Hd
      by (by destruct (t_pc (task_of (negb first) s))).
    split_and!.
    + destruct first; cbn [task_of negb] in *; [by rewrite Hd | by rewrite Hr].
    + destruct first; cbn [task_of negb] in *; [by rewrite Hr | by rewrite Hd].
    + by exists e.
    + done.
    + done.
    + done.
    + done.
    + rewrite Hproc, <- Ha. apply marked_after_add.
Qed.

Lemma add_then_discard (K : string) (s : gset string) :
  K ∉ s -> (s ∪ {[K]}) ∖ {[K]} = s.
Proof.
  intros HK. apply set_eq. intros x.
  rewrite elem_of_difference, elem_of_union, elem_of_singleton.
  split; [by intros [[?|?] ?] |].
  intros Hx. split; [by left | by intros ->].
Qed.

Lemma add_then_discard' (K : string) (s : gset string) :
  (s ∪ {[K]}) ∖ {[K]} = s ∖ {[K]}.
Proof.
  apply set_eq. intros x.
  rewrite !elem_of_difference, elem_of_union, elem_of_singleton.
  split; [by intros [[?|?] ?] | intros [? ?]; split; [by left | done]].
Qed.

Lemma discard_absent (K : string) (s : gset string) : K ∉ s -> s = s ∖ {[K]}.
Proof.
  intros HK. apply set_eq. intros x.
  rewrite elem_of_difference, elem_of_singleton.
  split; [intros Hx; split; [done | by intros ->] | by intros [? ?]].
Qed.

Ltac in_log :=
  first [ by (apply elem_of_app; right; constructor)
        | apply elem_of_app; left; in_log ].

Lemma run_task_step (cfg : Config) (a : ArchiveArgs) (env : ArchiveEnv)
    (n : nat) (p : pc) (w : World) :
  run_task cfg a env (S n) p w
  = run_task cfg a env n (task_step cfg a env p w).1 (task_step cfg a env p w).2.
Proof. simpl. by destruct (task_step cfg a env p w). Qed.

Lemma run_task_done (cfg : Config) (a : ArchiveArgs) (env : ArchiveEnv)
    (n : nat) (w : World) :
  run_task cfg a env n Done w = (Done, w).
Proof. induction n as [|n IH]; [done |]. by rewrite run_task_step. Qed.

Lemma run_task_crashed (cfg : Config) (a : ArchiveArgs) (env : ArchiveEnv)
    (n : nat) (e : Exception) (w : World) :
  run_task cfg a env n (Crashed e) w = (Crashed e, w).
Proof. induction n as [|n IH]; [done |]. by rewrite run_task_step. Qed.

(** What the [finally] block leaves. *)
Lemma finally_step (cfg : Config) (a : ArchiveArgs) (env : ArchiveEnv) (w : World) :
  ∃ w',
    task_step cfg a env AtFinally w = (Done, w')
    ∧ PROCESSING_SET w' = PROCESSING_SET w ∖ {[archive_key a]}
    ∧ (remove_outcome env = None ->
       files w' = files w ∖ {[archive_filepath cfg a]})
    ∧ cache w' = cache w
    ∧ IN_MEMORY_CACHE w' = IN_MEMORY_CACHE w
    ∧ mongo_ops w' = mongo_ops w
    ∧ logs w `prefix_of` logs w'.
Proof.
  cbn [task_step].
  case_decide; [destruct (remove_outcome env) eqn:Hr |];
    (eexists; split; [reflexivity |]); simpl;
    split_and!; try done;
    first [ by apply prefix_app_r | intros _; by apply discard_absent ].
Qed.

(** What the run leaves when it comes to the [finally] block. *)
Lemma body_steps (cfg : Config) (a : ArchiveArgs) (env : ArchiveEnv) (w : World) :
  archive_key a ∉ PROCESSING_SET w ->
  is_str (a_title a) = true ->
  ∃ (n : nat) (w1 : World),
    (n < 5)%nat
    ∧ run_task cfg a env 5 Entry w = run_task cfg a env (S n) AtFinally w1
    ∧ PROCESSING_SET w1 = PROCESSING_SET w ∪ {[archive_key a]}
    ∧ (files w1 = files w ∨ files w1 = files w ∪ {[archive_filepath cfg a]})
    ∧ (all_succeed env = false ->
       cache w1 = cache w
       ∧ IN_MEMORY_CACHE w1 = IN_MEMORY_CACHE w
       ∧ mongo_ops w1 = mongo_ops w
       ∧ ∃ e : Exception,
           (ERROR, "Background task failed for " ++ archive_key a ++ ": " ++ e)%string
           ∈ logs w1).
Proof.
  intros Hfree Hstr. unfold all_succeed.
  rewrite run_task_step, task_step_enter by done.
  cbn [fst snd].
  rewrite run_task_step. cbn [task_step].
  destruct (download_outcome env) as [|e created].
  2: { exists 2%nat. eexists. split; [lia |]. split; [reflexivity |].
       destruct created; simpl; split_and!; try done; try (by right); try (by left);
       intros _; split_and!; try done; exists e; in_log. }
  cbn [fst snd]. rewrite run_task_step. cbn [task_step].
  destruct (upload_outcome env) as [e|[fid mid]].
  { exists 1%nat. eexists. split; [lia |]. split; [reflexivity |].
    simpl; split_and!; try done; try (by right);
    intros _; split_and!; try done; exists e; in_log. }
  cbn [fst snd]. rewrite run_task_step. cbn [task_step].
  destruct (save_outcome env) as [e|now].
  { exists 0%nat. eexists. split; [lia |]. split; [reflexivity |].
    simpl; split_and!; try done; try (by right);
    intros _; split_and!; try done; exists e; in_log. }
  exists 0%nat. eexists. split; [lia |]. split; [reflexivity |].
  simpl; split_and!; try done; by right.
Qed.

(** The cleanup of a run whose title is a string: having got past the
    check it always comes to its end by returning, whatever the
    download, the upload and the record write did: the key is unmarked
    again and no other mark is touched, the temporary file is gone
    unless the operating system refused to remove it, and when a step
    failed neither the store nor the process-local map has been written
    and the failure is in the log. *)
Lemma archival_cleanup_for_titled_call (cfg : Config) (a : ArchiveArgs)
    (env : ArchiveEnv) (w : World) :
  archive_key a ∉ PROCESSING_SET w ->
  is_str (a_title a) = true ->
  ∃ w',
    background_download_and_upload cfg a env w = (Done, w')
    ∧ (archive_key a ∉ PROCESSING_SET w')
    ∧ PROCESSING_SET w' = PROCESSING_SET w
    ∧ (remove_outcome env = None ->
       files w' = files w ∖ {[archive_filepath cfg a]})
    ∧ (all_succeed env = false ->
       cache w' = cache w
       ∧ IN_MEMORY_CACHE w' = IN_MEMORY_CACHE w
       ∧ mongo_ops w' = mongo_ops w
       ∧ ∃ e : Exception,
           (ERROR, "Background task failed for " ++ archive_key a ++ ": " ++ e)%string
           ∈ logs w').
Proof.
  intros Hfree Hstr. unfold background_download_and_upload.
  destruct (body_steps cfg a env w Hfree Hstr)
    as (n & w1 & Hn & -> & Hmark & Hfiles & Hfail).
  destruct (finally_step cfg a env w1)
    as (w' & Hstep & Hmark' & Hrm & Hcache & Hmem & Hops & Hlogs).
  exists w'. rewrite run_task_step, Hstep. cbn [fst snd].
  rewrite run_task_done, Hmark', Hmark, Hcache, Hmem, Hops.
  split_and!.
  - done.
  - apply unmarked_after_discard.
  - by apply add_then_discard.
  - intros Hr. rewrite (Hrm Hr).
    destruct Hfiles as [-> | ->]; [done | apply add_then_discard'].
  - intros Hf. destruct (Hfail Hf) as (? & ? & ? & e & He).
    split_and!; try done. exists e.
    destruct Hlogs as [l ->]. apply elem_of_app. by left.
Qed.

(** C3, where the code departs from it: the cleanup does not run for
    every archival run. [safe_title] is computed after the key has been
    marked and before the [try]; at a title that is not a string (the
    handlers pass on whatever the origin's document holds) that raises,
    and the run ends there, however often it is scheduled: it never
    returns, neither the handler nor the cleanup runs, nothing is
    logged, and the state is the one it found with the key marked. From
    then on every call for the key finds the mark and returns at once,
    so the pair is not archived again. *)
Theorem archival_crash_skips_cleanup (cfg : Config) (a : ArchiveArgs)
    (env : ArchiveEnv) (w : World) (fuel : nat) :
  archive_key a ∉ PROCESSING_SET w ->
  is_str (a_title a) = false ->
  let w' := with_processing (fun s => s ∪ {[archive_key a]}) w in
  (∃ e, sanitize_filename (a_title a) = inl e
        ∧ run_task cfg a env (S fuel) Entry w = (Crashed e, w'))
  ∧ archive_key a ∈ PROCESSING_SET w'
  ∧ logs w' = logs w ∧ files w' = files w
  ∧ (∀ (a' : ArchiveArgs) (env' : ArchiveEnv),
       archive_key a' = archive_key a ->
       background_download_and_upload cfg a' env' w'
       = (Done,
          log INFO ("Already processing " ++ archive_key a' ++ ", skipping") w')).
Proof.
  intros Hfree Hstr w'. split_and!; try done.
  - destruct (task_step_crash cfg a env w Hfree Hstr) as (e & He & Hstep).
    exists e. split; [done |].
    rewrite run_task_step, Hstep. cbn [fst snd]. apply run_task_crashed.
  - apply marked_after_add.
  - intros a' env' Hkey. unfold background_download_and_upload.
    rewrite run_task_step, task_step_skip.
    + cbn [fst snd]. apply run_task_done.
    + rewrite Hkey. apply marked_after_add.
Qed.

(** Such a task is what a handler creates when the origin's document has
    a null title: [decrypted.get("title", vidid)] is then [None], the
    reply says so, and the task crashes with the key left marked. *)
Example null_title_reaches_the_archiver :
  ∃ res w1,
    ytmp4 sample_cfg untitled_env sample_url "abc" None sample_world
    = (Success res, w1, Some untitled_args)
    ∧ r_title res = PyNone
    ∧ a_title untitled_args = PyNone
    ∧ PROCESSING_SET w1 = ∅
    ∧ background_download_and_upload sample_cfg untitled_args
        sample_archive_env w1
      = (Crashed "expected string or bytes-like object, got 'NoneType'",
         with_processing (fun s => s ∪ {[archive_key untitled_args]}) w1).
Proof. eexists _, _. split; [by vm_compute |]. by split_and!. Qed.

(** When nothing fails the record is published: the store and the
    process-local map hold it, under the identifier and kind of the call
    and with the file reference the upload returned. *)
Lemma archival_success_publishes (cfg : Config) (a : ArchiveArgs)
    (env : ArchiveEnv) (w : World) :
  archive_key a ∉ PROCESSING_SET w ->
  is_str (a_title a) = true ->
  all_succeed env = true ->
  ∃ w' doc fid mid,
    background_download_and_upload cfg a env w = (Done, w')
    ∧ upload_outcome env = inr (fid, mid)
    ∧ cache w' !! (a_ytid a, a_media_type a) = Some doc
    ∧ IN_MEMORY_CACHE w' !! archive_key a = Some doc
    ∧ ytid doc = a_ytid a ∧ type doc = a_media_type a
    ∧ file_id doc = fid ∧ msg_id doc = mid
    ∧ chat_id doc = CACHE_CHANNEL_ID cfg
    ∧ meta doc !! "title"%string
      = Some (default (a_title a) (a_meta a !! "title"%string))
    ∧ channel w' = channel w ++ [uploaded cfg a fid mid].
Proof.
  intros Hfree Hstr Hok. unfold all_succeed in Hok.
  unfold background_download_and_upload.
  rewrite run_task_step, task_step_enter by done.
  cbn [fst snd]. rewrite run_task_step. cbn [task_step].
  destruct (download_outcome env) as [|e created]; [|done].
  cbn [fst snd]. rewrite run_task_step. cbn [task_step].
  destruct (upload_outcome env) as [e|[fid mid]]; [done |].
  cbn [fst snd]. rewrite run_task_step. cbn [task_step].
  destruct (save_outcome env) as [e|now]; [done |].
  unfold save_cache_record. cbn [fst snd].
  match goal with
  | |- context [run_task _ _ _ 1 AtFinally ?w1] =>
      destruct (finally_step cfg a env w1)
        as (w' & Hstep & _ & _ & Hcache & Hmem & _ & _)
  end.
  rewrite run_task_step, Hstep. cbn [fst snd]. rewrite run_task_done.
  eexists w', _, fid, mid. split; [done |]. split; [done |].
  rewrite Hcache, Hmem. simpl.
  split_and!; try (by apply lookup_insert_eq); try done.
  - cbn [meta]. rewrite lookup_union.
    destruct (a_meta a !! "title"%string) as [v|]; [done |].
    by rewrite lookup_insert_eq.
  - cbn [task_step] in Hstep.
    case_decide; [destruct (remove_outcome env) |]; by injection Hstep as <-.
Qed.

Example replace_channel_prefix :
  replace "-100" "" (str_of_Z (-1001234567890)) = "1234567890"%string.
Proof. reflexivity. Qed.

Example sample_filepath :
  archive_filepath sample_cfg sample_args
  = "./downloads/dQw4w9WgXcQ_video_720.mp4"%string.
Proof. reflexivity. Qed.

(** The end-to-end scenario: origin, origin again with the second
    archival dropped, then the cache with the same title; one upload in
    all, three uses counted. *)
Example end_to_end_scenario :
  scenario
  = ([Some "savetube"; Some "savetube"; Some "telegram_cache"]%string,
     [Some (PyStr "Never Gonna Give You Up");
      Some (PyStr "Never Gonna Give You Up")],
     [AtDownload; Done; Done],
     1%nat,
     Some 3).
Proof. by vm_compute. Qed.

(** ** Payload decoding *)

Lemma byte_val_range (c : ascii) : 0 <= byte_val c < 256.
Proof.
  unfold byte_val. pose proof (N_ascii_bounded c) as H.
  split; [lia |]. change 256 with (Z.of_N 256). lia.
Qed.

Lemma byte_of_val (c : ascii) : byte_of (byte_val c) = c.
Proof. unfold byte_of, byte_val. by rewrite N2Z.id, ascii_N_embedding. Qed.

Lemma xorb_cancel_r (a b : bool) : xorb (xorb a b) b = a.
Proof. by destruct a, b. Qed.

Lemma xor_byte_cancel (a b : ascii) : xor_byte (xor_byte a b) b = a.
Proof.
  destruct a as [a0 a1 a2 a3 a4 a5 a6 a7], b as [b0 b1 b2 b3 b4 b5 b6 b7].
  simpl. by rewrite !xorb_cancel_r.
Qed.

Lemma xor_bytes_length (x y : bytes) :
  length x = length y -> length (xor_bytes x y) = length x.
Proof. intros H. unfold xor_bytes. rewrite length_zip_with. lia. Qed.

Lemma xor_bytes_cancel (x y : bytes) :
  length x = length y -> xor_bytes (xor_bytes x y) y = x.
Proof.
  revert y. induction x as [|a x IH]; intros [|b y] H; try done.
  simpl in *. rewrite xor_byte_cancel. f_equal. apply IH. lia.
Qed.

(** Every six-bit value is carried by a character of the alphabet that
    is ASCII, is not the pad and decodes back to the value. *)
Lemma enc6_dec6 (n : Z) :
  0 <= n < 64 ->
  Base64.dec6 (Base64.enc6 n) = Some n
  ∧ Ascii.eqb (Base64.enc6 n) "=" = false
  ∧ (byte_val (Base64.enc6 n) <? 128) = true.
Proof.
  intros Hn.
  assert (H : ∃ m : nat, n = Z.of_nat m ∧ (m < 64)%nat)
    by (exists (Z.to_nat n); lia).
  destruct H as (m & -> & Hm).
  do 64 (destruct m as [|m]; [by vm_compute |]). lia.
Qed.

Lemma a2b_data (s : Z) (l : list ascii) (quad_pos : nat) (leftchar : Z)
    (pads : nat) :
  0 <= s < 64 ->
  Base64.a2b (Base64.enc6 s :: l) quad_pos leftchar pads
  = match quad_pos with
    | O => Base64.a2b l 1 s 0
    | 1%nat =>
        try! out := Base64.a2b l 2 (s mod 16) 0 in
        inr (byte_of ((leftchar * 4 + s / 16) mod 256) :: out)
    | 2%nat =>
        try! out := Base64.a2b l 3 (s mod 4) 0 in
        inr (byte_of ((leftchar * 16 + s / 4) mod 256) :: out)
    | _ =>
        try! out := Base64.a2b l 0 0 0 in
        inr (byte_of ((leftchar * 64 + s) mod 256) :: out)
    end.
Proof.
  intros Hs. destruct (enc6_dec6 s Hs) as (Hdec & Hpad & _).
  cbn [Base64.a2b]. by rewrite Hpad, Hdec.
Qed.

Lemma list_ind3 {A} (P : list A -> Prop) :
  P [] -> (∀ a, P [a]) -> (∀ a b, P [a; b]) ->
  (∀ a b c l, P l -> P (a :: b :: c :: l)) ->
  ∀ l, P l.
Proof.
  intros H0 H1 H2 H3 l.
  assert (H : P l ∧ (∀ a, P (a :: l)) ∧ (∀ a b, P (a :: b :: l))).
  { induction l as [|x l (IH0 & IH1 & IH2)]; [done |].
    split_and!; [apply IH1 | intros a; apply IH2 | intros a b; by apply H3]. }
  apply H.
Qed.

Lemma a2b_b2a (data : bytes) :
  Base64.a2b (Base64.b2a data) 0 0 0 = inr data.
Proof.
  induction data as [|a|a b|a b c data IH] using list_ind3; [done | | |].
  - pose proof (byte_val_range a) as Ha.
    cbn [Base64.b2a].
    rewrite a2b_data by (Z.div_mod_to_equations; lia).
    rewrite a2b_data by (Z.div_mod_to_equations; lia).
    cbn [Base64.a2b]. simpl.
    replace ((byte_val a / 4 * 4 + byte_val a mod 4 * 16 / 16) mod 256)
      with (byte_val a) by (Z.div_mod_to_equations; lia).
    by rewrite byte_of_val.
  - pose proof (byte_val_range a) as Ha. pose proof (byte_val_range b) as Hb.
    cbn [Base64.b2a].
    rewrite a2b_data by (Z.div_mod_to_equations; lia).
    rewrite a2b_data by (Z.div_mod_to_equations; lia).
    rewrite a2b_data by (Z.div_mod_to_equations; lia).
    cbn [Base64.a2b]. simpl.
    replace ((byte_val a / 4 * 4 + (byte_val a mod 4 * 16 + byte_val b / 16) / 16)
             mod 256)
      with (byte_val a) by (Z.div_mod_to_equations; lia).
    replace (((byte_val a mod 4 * 16 + byte_val b / 16) mod 16 * 16
              + byte_val b mod 16 * 4 / 4) mod 256)
      with (byte_val b) by (Z.div_mod_to_equations; lia).
    by rewrite !byte_of_val.
  - pose proof (byte_val_range a) as Ha. pose proof (byte_val_range b) as Hb.
    pose proof (byte_val_range c) as Hc.
    cbn [Base64.b2a].
    rewrite a2b_data by (Z.div_mod_to_equations; lia).
    rewrite a2b_data by (Z.div_mod_to_equations; lia).
    rewrite a2b_data by (Z.div_mod_to_equations; lia).
    rewrite a2b_data by (Z.div_mod_to_equations; lia).
    rewrite IH. simpl.
    replace ((byte_val a / 4 * 4 + (byte_val a mod 4 * 16 + byte_val b / 16) / 16)
             mod 256)
      with (byte_val a) by (Z.div_mod_to_equations; lia).
    replace (((byte_val a mod 4 * 16 + byte_val b / 16) mod 16 * 16
              + (byte_val b mod 16 * 4 + byte_val c / 64) / 4) mod 256)
      with (byte_val b) by (Z.div_mod_to_equations; lia).
    replace (((byte_val b mod 16 * 4 + byte_val c / 64) mod 4 * 64
              + byte_val c mod 64) mod 256)
      with (byte_val c) by (Z.div_mod_to_equations; lia).
    by rewrite !byte_of_val.
Qed.

Lemma b2a_ascii (data : bytes) :
  forallb (fun c => byte_val c <? 128) (Base64.b2a data) = true.
Proof.
  induction data as [|a|a b|a b c data IH] using list_ind3; [done | | |].
  - pose proof (byte_val_range a) as Ha. cbn [Base64.b2a forallb].
    destruct (enc6_dec6 (byte_val a / 4)) as (_ & _ & ->);
      [Z.div_mod_to_equations; lia |].
    destruct (enc6_dec6 (byte_val a mod 4 * 16)) as (_ & _ & ->);
      [Z.div_mod_to_equations; lia |].
    done.
  - pose proof (byte_val_range a) as Ha. pose proof (byte_val_range b) as Hb.
    cbn [Base64.b2a forallb].
    destruct (enc6_dec6 (byte_val a / 4)) as (_ & _ & ->);
      [Z.div_mod_to_equations; lia |].
    destruct (enc6_dec6 (byte_val a mod 4 * 16 + byte_val b / 16)) as (_ & _ & ->);
      [Z.div_mod_to_equations; lia |].
    destruct (enc6_dec6 (byte_val b mod 16 * 4)) as (_ & _ & ->);
      [Z.div_mod_to_equations; lia |].
    done.
  - pose proof (byte_val_range a) as Ha. pose proof (byte_val_range b) as Hb.
    pose proof (byte_val_range c) as Hc.
    cbn [Base64.b2a forallb].
    destruct (enc6_dec6 (byte_val a / 4)) as (_ & _ & ->);
      [Z.div_mod_to_equations; lia |].
    destruct (enc6_dec6 (byte_val a mod 4 * 16 + byte_val b / 16)) as (_ & _ & ->);
      [Z.div_mod_to_equations; lia |].
    destruct (enc6_dec6 (byte_val b mod 16 * 4 + byte_val c / 64)) as (_ & _ & ->);
      [Z.div_mod_to_equations; lia |].
    destruct (enc6_dec6 (byte_val c mod 64)) as (_ & _ & ->);
      [Z.div_mod_to_equations; lia |].
    by rewrite IH.
Qed.

(** Decoding inverts encoding. *)
Lemma b64decode_b64encode (data : bytes) :
  Base64.b64decode (Base64.b64encode data) = inr data.
Proof.
  unfold Base64.b64decode, Base64.b64encode.
  by rewrite chars_text, b2a_ascii, a2b_b2a.
Qed.

Example b64encode_hello :
  Base64.b64encode (chars "hello") = "aGVsbG8="%string.
Proof. reflexivity. Qed.

Example b64decode_skips_newline :
  Base64.b64decode "aGVs
bG8=" = inr (chars "hello").
Proof. reflexivity. Qed.

Example b64decode_bad_padding :
  Base64.b64decode "aGVsbG8" = inl "Incorrect padding"%string.
Proof. reflexivity. Qed.

Lemma pad_length (data : bytes) :
  ∃ n : nat, (1 <= n <= 16)%nat
    ∧ Pkcs7.pad data 16 = data ++ replicate n (byte_of (Z.of_nat n))
    ∧ ((length data + n) mod 16 = 0)%nat.
Proof.
  exists (16 - length data mod 16)%nat.
  pose proof (Nat.mod_upper_bound (length data) 16) as Hm.
  split_and!; [lia | lia | done |].
  pose proof (Nat.div_mod_eq (length data) 16) as Hd.
  replace (length data + (16 - length data mod 16))%nat
    with ((length data / 16 + 1) * 16)%nat by lia.
  apply Nat.Div0.mod_mul.
Qed.

Lemma byte_val_of (n : Z) : 0 <= n < 256 -> byte_val (byte_of n) = n.
Proof.
  intros Hn. unfold byte_val, byte_of.
  rewrite N_ascii_embedding; [lia |].
  change 256%N with (Z.to_N 256). lia.
Qed.

(** Unpadding inverts padding. *)
Lemma unpad_pad (data : bytes) :
  Pkcs7.unpad (Pkcs7.pad data 16) 16 = inr data
  ∧ (length (Pkcs7.pad data 16) mod 16 = 0)%nat.
Proof.
  destruct (pad_length data) as (n & Hn & -> & Hmod).
  assert (Hlen : length (data ++ replicate n (byte_of (Z.of_nat n)))
                 = (length data + n)%nat)
    by by rewrite length_app, length_replicate.
  split; [|by rewrite Hlen].
  unfold Pkcs7.unpad. rewrite Hlen.
  replace (length data + n =? 0)%nat with false
    by (symmetry; apply Nat.eqb_neq; lia).
  rewrite Hmod. simpl negb. cbv iota.
  assert (Hlast : List.last (data ++ replicate n (byte_of (Z.of_nat n))) "000"%char
                  = byte_of (Z.of_nat n)).
  { destruct n as [|n]; [lia |].
    rewrite replicate_S_end, app_assoc. apply List.last_last. }
  rewrite Hlast, byte_val_of, Nat2Z.id by lia.
  replace (n <? 1)%nat with false by (symmetry; apply Nat.ltb_ge; lia).
  replace (16 `min` (length data + n) <? n)%nat with false
    by (symmetry; apply Nat.ltb_ge; lia).
  simpl orb. cbv iota.
  replace (length data + n - n)%nat with (length data) by lia.
  rewrite drop_app_length, take_app_length.
  by rewrite bool_decide_eq_true_2.
Qed.

Section PayloadFacts.

Variable Doc : Type.
Variable aes_encrypt_block : bytes -> bytes -> bytes.
Variable aes_decrypt_block : bytes -> bytes -> bytes.
Variable decode_utf8 : bytes -> Exception + string.
Variable json_loads : string -> Exception + Doc.

(** The block cipher under the fixed key: decryption inverts encryption
    on a 16-byte block, and a block encrypts to a block. *)
Hypothesis decrypt_encrypt_block :
  ∀ b : bytes, length b = 16%nat ->
    aes_decrypt_block AES_KEY_BYTES (aes_encrypt_block AES_KEY_BYTES b) = b.
Hypothesis encrypt_block_length :
  ∀ b : bytes, length b = 16%nat ->
    length (aes_encrypt_block AES_KEY_BYTES b) = 16%nat.

Lemma cbc_blocks_round_trip (n : nat) :
  ∀ prev data : bytes,
    length prev = 16%nat -> length data = (16 * n)%nat ->
    length (cbc_encrypt_blocks aes_encrypt_block AES_KEY_BYTES n prev data)
    = (16 * n)%nat
    ∧ cbc_decrypt_blocks aes_decrypt_block AES_KEY_BYTES n prev
        (cbc_encrypt_blocks aes_encrypt_block AES_KEY_BYTES n prev data)
      = data.
Proof.
  induction n as [|n IH]; intros prev data Hprev Hdata.
  - destruct data; [done | simpl in Hdata; lia].
  - cbn [cbc_encrypt_blocks cbc_decrypt_blocks].
    set (block := xor_bytes (take 16 data) prev).
    assert (Htake : length (take 16 data) = 16%nat)
      by (rewrite length_take; lia).
    assert (Hblock : length block = 16%nat)
      by (unfold block; rewrite xor_bytes_length; lia).
    set (c := aes_encrypt_block AES_KEY_BYTES block).
    assert (Hc : length c = 16%nat) by by apply encrypt_block_length.
    destruct (IH c (drop 16 data)) as [Hlen Hdec];
      [done | rewrite length_drop; lia |].
    split; [rewrite length_app, Hlen; lia |].
    rewrite take_app_length' by done. rewrite drop_app_length' by done.
    unfold c at 1. rewrite decrypt_encrypt_block by done.
    unfold block. rewrite xor_bytes_cancel by lia.
    rewrite Hdec. apply take_drop.
Qed.

Lemma cbc_round_trip (iv data : bytes) :
  length iv = 16%nat -> (length data mod 16 = 0)%nat ->
  ∃ ciphertext,
    cbc_encrypt aes_encrypt_block AES_KEY_BYTES iv data = inr ciphertext
    ∧ cbc_decrypt aes_decrypt_block AES_KEY_BYTES iv ciphertext = inr data.
Proof.
  intros Hiv Hmod.
  assert (Hdata : length data = (16 * (length data / 16))%nat).
  { pose proof (Nat.div_mod_eq (length data) 16). lia. }
  destruct (cbc_blocks_round_trip (length data / 16) iv data Hiv Hdata)
    as [Hlen Hdec].
  exists (cbc_encrypt_blocks aes_encrypt_block AES_KEY_BYTES
            (length data / 16) iv data).
  unfold cbc_encrypt, cbc_decrypt.
  rewrite Hiv, Hmod, Hlen.
  replace (16 * (length data / 16))%nat with (length data / 16 * 16)%nat by lia.
  rewrite Nat.Div0.mod_mul, Nat.div_mul by done.
  split; [done |]. cbn [Nat.eqb negb]. by rewrite Hdec.
Qed.

(** The decoder returns a document only when every stage went through,
    and otherwise raises what the failing stage raised, after logging
    it. *)
Lemma decrypt_savetube_data_stages (b64_encrypted : string) (w : World) :
  (∀ d, (decrypt_savetube_data Doc aes_decrypt_block decode_utf8 json_loads
           b64_encrypted w).1 = inr d ->
        ∃ raw decrypted unpadded s,
          Base64.b64decode b64_encrypted = inr raw
          ∧ cbc_decrypt aes_decrypt_block AES_KEY_BYTES (take 16 raw) (drop 16 raw)
            = inr decrypted
          ∧ Pkcs7.unpad decrypted 16 = inr unpadded
          ∧ decode_utf8 unpadded = inr s
          ∧ json_loads s = inr d)
  ∧ (∀ e, decode_payload Doc aes_decrypt_block decode_utf8 json_loads
            b64_encrypted = inl e ->
          decrypt_savetube_data Doc aes_decrypt_block decode_utf8 json_loads
            b64_encrypted w
          = (inl e, log ERROR ("Decryption failed: " ++ e) w)).
Proof.
  unfold decrypt_savetube_data, decode_payload. split.
  - intros d.
    destruct (Base64.b64decode b64_encrypted) as [e|raw]; [done |]. simpl.
    destruct (cbc_decrypt _ _ _ _) as [e|decrypted] eqn:Hc; [done |]. simpl.
    destruct (Pkcs7.unpad decrypted 16) as [e|unpadded] eqn:Hu; [done |]. simpl.
    destruct (decode_utf8 unpadded) as [e|s] eqn:Hs; [done |]. simpl.
    destruct (json_loads s) as [e|d'] eqn:Hd; [done |]. simpl.
    intros [= <-]. by exists raw, decrypted, unpadded, s.
  - by intros e ->.
Qed.

Lemma decode_encrypted (iv plaintext : bytes) :
  length iv = 16%nat ->
  ∃ b64,
    encrypt_payload aes_encrypt_block iv plaintext = inr b64
    ∧ decode_payload Doc aes_decrypt_block decode_utf8 json_loads b64
      = (try! s := decode_utf8 plaintext in json_loads s).
Proof.
  intros Hiv. destruct (unpad_pad plaintext) as [Hunpad Hmod].
  destruct (cbc_round_trip iv (Pkcs7.pad plaintext 16) Hiv Hmod)
    as (ciphertext & Henc & Hdec).
  unfold encrypt_payload, decode_payload. rewrite Henc. simpl.
  eexists. split; [done |].
  rewrite b64decode_b64encode. simpl.
  rewrite take_app_length', drop_app_length' by done.
  rewrite Hdec. simpl. by rewrite Hunpad.
Qed.

(** C6: a document encrypted under the fixed key in chaining mode with
    PKCS#7 padding, behind its initialisation vector and base64-encoded,
    is what the decoder gives back; and the decoder returns a value only
    when the base64, the cipher, the unpadding, the text decoding and
    the JSON parse all succeed: otherwise it raises. *)
Theorem payload_round_trip (iv plaintext : bytes) (d : Doc) (w : World) :
  length iv = 16%nat ->
  (try! s := decode_utf8 plaintext in json_loads s) = inr d ->
  (∃ b64,
     encrypt_payload aes_encrypt_block iv plaintext = inr b64
     ∧ decrypt_savetube_data Doc aes_decrypt_block decode_utf8 json_loads b64 w
       = (inr d, w))
  ∧ (∀ (input : string) (w' : World) (d' : Doc),
       (decrypt_savetube_data Doc aes_decrypt_block decode_utf8 json_loads
          input w').1 = inr d' ->
       ∃ raw decrypted unpadded s,
         Base64.b64decode input = inr raw
         ∧ cbc_decrypt aes_decrypt_block AES_KEY_BYTES (take 16 raw) (drop 16 raw)
           = inr decrypted
         ∧ Pkcs7.unpad decrypted 16 = inr unpadded
         ∧ decode_utf8 unpadded = inr s
         ∧ json_loads s = inr d')
  ∧ (∀ (input : string) (w' : World) (e : Exception),
       decode_payload Doc aes_decrypt_block decode_utf8 json_loads input = inl e ->
       decrypt_savetube_data Doc aes_decrypt_block decode_utf8 json_loads input w'
       = (inl e, log ERROR ("Decryption failed: " ++ e) w')).
Proof.
  intros Hiv Hdoc. split_and!.
  - destruct (decode_encrypted iv plaintext Hiv) as (b64 & Henc & Hdec).
    exists b64. split; [done |].
    unfold decrypt_savetube_data. by rewrite Hdec, Hdoc.
  - intros input w' d'. apply decrypt_savetube_data_stages.
  - intros input w' e. apply decrypt_savetube_data_stages.
Qed.

End PayloadFacts.

(** ** The statements at sample inputs *)

Lemma toy_cipher_inverse (b : bytes) :
  length b = 16%nat ->
  toy_cipher AES_KEY_BYTES (toy_cipher AES_KEY_BYTES b) = b.
Proof. intros Hb. by apply xor_bytes_cancel. Qed.

Lemma toy_cipher_length (b : bytes) :
  length b = 16%nat -> length (toy_cipher AES_KEY_BYTES b) = 16%nat.
Proof. intros Hb. unfold toy_cipher. by rewrite xor_bytes_length. Qed.

Lemma payload_round_trip_witness :
  ∃ b64,
    encrypt_payload toy_cipher (chars "0123456789abcdef") (chars "{}")
    = inr b64
    ∧ decrypt_savetube_data string toy_cipher (fun b => inr (text b)) inr
        b64 sample_world
      = (inr "{}"%string, sample_world).
Proof.
  exact (proj1 (payload_round_trip string toy_cipher toy_cipher
                  (fun b => inr (text b)) inr
                  toy_cipher_inverse toy_cipher_length
                  (chars "0123456789abcdef") (chars "{}") "{}"%string
                  sample_world eq_refl eq_refl)).
Defined.

Lemma admission_quota_per_day_witness :
  ∃ rs w',
    admit_all "abc" [sample_clock; sample_clock; sample_clock] sample_world
    = (rs, w')
    ∧ admitted <$> rs = [true; true; false]
    ∧ counter "abc" w' = Some 2.
Proof.
  destruct (admission_quota_per_day "abc" "2023-11-15" 2 sample_token
              sample_world [sample_clock; sample_clock; sample_clock])
    as (rs & w' & Hrun & Hadm & _ & _ & Hcount & _).
  - discriminate.
  - apply lookup_singleton_eq.
  - reflexivity.
  - lia.
  - left. discriminate.
  - reflexivity.
  - repeat constructor.
  - exists rs, w'. by split_and!.
Defined.

Lemma invalid_reference_fails_fast_witness :
  ∃ w1,
    ytmp4 sample_cfg sample_env "not a link" "abc" None sample_world
    = (JSONResponse 400 "Invalid YouTube URL or ID", w1, None)
    ∧ cache w1 = cache sample_world.
Proof.
  destruct (check_api_key "abc" (clock sample_env) sample_world)
    as [[e|record] w1] eqn:Hadm; [by vm_compute in Hadm |].
  destruct (invalid_reference_fails_fast sample_cfg sample_env "not a link"
              "abc" None sample_world w1 record Hadm eq_refl)
    as (H4 & _ & Hcache & _).
  by exists w1.
Defined.

Lemma choose_best_quality_spec_witness :
  ∃ best,
    choose_best_quality sample_cfg (DocDict sample_metadata) "video"
    = inr (printed sample_cfg Video best)
    ∧ descriptor Video best = Some (PyInt 720).
Proof.
  destruct (choose_best_quality_spec sample_cfg sample_metadata Video
              [video_format 480; video_format 720; audio_format 128])
    as [_ Hsome].
  - by left.
  - intros f Hf.
    assert (f ∈ [video_format 480; video_format 720]) as Hin by exact Hf.
    apply elem_of_cons in Hin as [->|Hin]; [done |].
    apply elem_of_cons in Hin as [->|Hin]; [done |].
    by apply elem_of_nil in Hin.
  - destruct Hsome as (i & best & Hi & Hmax & _ & Hres & _); [done |].
    exists best. split; [exact Hres |].
    assert ([video_format 480; video_format 720] !! i = Some best) as Hi'
      by exact Hi.
    specialize (Hmax (video_format 720)).
    destruct i as [|[|i]]; [| by injection Hi' as <- | done].
    injection Hi' as <-. exfalso.
    assert (num_rank (PyInt 720) <= num_rank (PyInt 480)) as Hle.
    { apply Hmax. apply elem_of_cons. right. apply elem_of_cons. by left. }
    apply (proj1 (num_rank_int_le 720 480)) in Hle. lia.
Defined.

Lemma archival_crash_skips_cleanup_witness :
  ∃ e,
    background_download_and_upload sample_cfg untitled_args sample_archive_env
      sample_world
    = (Crashed e,
       with_processing (fun s => s ∪ {[archive_key untitled_args]}) sample_world).
Proof.
  destruct (archival_crash_skips_cleanup sample_cfg untitled_args
              sample_archive_env sample_world 4)
    as ((e & _ & Hrun) & _).
  - apply not_elem_of_empty.
  - reflexivity.
  - by exists e.
Defined.

Lemma single_flight_mark_outlives_crash_witness :
  let s := run_schedule sample_cfg [false; true]
             {| task0 := spawn untitled_args sample_archive_env;
                task1 := spawn untitled_args sample_archive_env;
                world := sample_world |} in
  settled (t_pc (task0 s)) = true ∧ settled (t_pc (task1 s)) = true
  ∧ channel (world s) = []
  ∧ archive_key untitled_args ∈ PROCESSING_SET (world s).
Proof.
  destruct (single_flight_mark_outlives_crash sample_cfg untitled_args
              untitled_args sample_archive_env sample_archive_env sample_world
              [false; true] false)
    as (H0 & H1 & _ & _ & Hchan & _ & _ & Hmark).
  - reflexivity.
  - apply not_elem_of_empty.
  - reflexivity.
  - reflexivity.
  - apply elem_of_cons. right. apply elem_of_cons. by left.
  - split_and!; [exact H0 | exact H1 | exact Hchan | exact Hmark].
Defined.

(** * Further properties of the code *)

(** ** Admission gate: rejections, frame and quota *)

Lemma check_api_key_changes (k : string) (clk : Clock)
    (w w' : World) (res : HTTPException + ApiKeyDoc) :
  check_api_key k clk w = (res, w') ->
  (∀ k', k' ≠ k -> apikeys w' !! k' = apikeys w !! k')
  ∧ (apikeys w !! k = None -> apikeys w' !! k = None)
  ∧ (∀ r, apikeys w !! k = Some r ->
       ∃ r', apikeys w' !! k = Some r'
             ∧ key r' = key r ∧ owner r' = owner r
             ∧ daily_limit r' = daily_limit r
             ∧ expiry_date r' = expiry_date r
             ∧ is_admin r' = is_admin r ∧ created_at r' = created_at r).
Proof.
  unfold check_api_key.
  destruct (String.eqb k ""); [intros [= <- <-]; split_and!; eauto 10 |].
  simpl. destruct (apikeys w !! k) as [r0|] eqn:Hr.
  2: { intros [= <- <-]. simpl. split_and!; [done | done |]. by rewrite Hr. }
  destruct (key_expired r0 clk).
  { intros [= <- <-]. simpl. split_and!; [done | by rewrite Hr |].
    intros r Hr'. rewrite Hr in *. eauto 10. }
  destruct (decide (last_used_date r0 = Some (ist_date_str clk))); simpl;
    match goal with |- context [?a <=? ?b] => destruct (a <=? b) end;
    intros [= <- <-]; simpl;
    (split_and!;
     [ intros k' Hk'; by rewrite ?lookup_alter_ne by done
     | done
     | intros r [= <-]; rewrite ?lookup_alter_eq, Hr; simpl; eauto 10 ]).
Qed.

(** X2: Whatever the outcome, [check_api_key] leaves every other token's
    record as it was, and of the token's own record it changes nothing
    but the counter and the date of last use. *)
Theorem check_api_key_touches_only_counter (k : string) (clk : Clock)
    (w w' : World) (res : HTTPException + ApiKeyDoc) :
  check_api_key k clk w = (res, w') ->
  (∀ k', k' ≠ k -> apikeys w' !! k' = apikeys w !! k')
  ∧ (apikeys w !! k = None -> apikeys w' !! k = None)
  ∧ (∀ r, apikeys w !! k = Some r ->
       ∃ r', apikeys w' !! k = Some r'
             ∧ key r' = key r ∧ owner r' = owner r
             ∧ daily_limit r' = daily_limit r
             ∧ expiry_date r' = expiry_date r
             ∧ is_admin r' = is_admin r ∧ created_at r' = created_at r).
Proof. apply check_api_key_changes. Qed.

(** X1: A rejection is one of three: 401 for an empty or unknown token, with
    nothing written (and the store not even asked for an empty token);
    403 for a token whose expiry lies strictly before the clock reading,
    with nothing written even on a new day; 429 when the uses counted
    for the day have reached the quota, and then the only write there
    can be is the reset of a new day. *)
Theorem check_api_key_rejection (k : string) (clk : Clock) (w w' : World)
    (s : Z) (d : string) :
  check_api_key k clk w = (inl (HTTP s d), w') ->
  (s = 401 ∨ s = 403 ∨ s = 429)
  ∧ (s = 401 ->
     (k = ""%string ∨ apikeys w !! k = None) ∧ apikeys w' = apikeys w
     ∧ (k = ""%string -> w' = w))
  ∧ (s = 403 ->
     apikeys w' = apikeys w
     ∧ ∃ r e, apikeys w !! k = Some r ∧ expiry_date r = Some e
              ∧ e < utcnow clk)
  ∧ (s = 429 ->
     ∃ r, apikeys w !! k = Some r
          ∧ default 1000 (daily_limit r) <= counted_today r clk
          ∧ (last_used_date r = Some (ist_date_str clk) ->
             apikeys w' = apikeys w)
          ∧ (last_used_date r ≠ Some (ist_date_str clk) ->
             apikeys w' !! k
             = Some (set_last_used_date (Some (ist_date_str clk))
                       (set_used_today (Some 0) r)))).
Proof.
  unfold check_api_key, counted_today.
  destruct (String.eqb k "") eqn:Hk.
  { apply String.eqb_eq in Hk. intros [= <- <- <-].
    split_and!; [by left | by intros _; split_and!; [left | |] | done | done]. }
  apply String.eqb_neq in Hk. simpl.
  destruct (apikeys w !! k) as [r0|] eqn:Hr.
  2: { intros [= <- <- <-]. simpl.
       split_and!; [by left | by intros _; split_and!; [right | |] | done | done]. }
  unfold key_expired. destruct (expiry_date r0) as [e|] eqn:He.
  - destruct (e <? utcnow clk) eqn:Hlt.
    { apply Z.ltb_lt in Hlt. intros [= <- <- <-]. simpl.
      split_and!; [by right; left | done | | done].
      intros _. split; [done |]. by exists r0, e. }
    destruct (decide (last_used_date r0 = Some (ist_date_str clk))); simpl;
      match goal with |- context [?a <=? ?b] => destruct (a <=? b) eqn:Hle end;
      intros [= <- <- <-]; apply Z.leb_le in Hle; simpl;
      (split_and!; [by right; right | done | done |]);
      intros _; exists r0; split_and!; try done;
      first [ by rewrite ?decide_True, ?decide_False by done
            | intros _; by rewrite lookup_alter_eq, Hr ].
  - destruct (decide (last_used_date r0 = Some (ist_date_str clk))); simpl;
      match goal with |- context [?a <=? ?b] => destruct (a <=? b) eqn:Hle end;
      intros [= <- <- <-]; apply Z.leb_le in Hle; simpl;
      (split_and!; [by right; right | done | done |]);
      intros _; exists r0; split_and!; try done;
      first [ by rewrite ?decide_True, ?decide_False by done
            | intros _; by rewrite lookup_alter_eq, Hr ].
Qed.

Lemma check_api_key_within_quota (k : string) (clk : Clock) (w : World) :
  within_quota k w -> within_quota k (check_api_key k clk w).2.
Proof.
  intros Hq. unfold check_api_key.
  destruct (String.eqb k ""); [done |]. simpl.
  destruct (apikeys w !! k) as [r0|] eqn:Hr; [|done].
  destruct (Hq r0 Hr) as [Hpos Hle].
  destruct (key_expired r0 clk); [done |].
  destruct (decide (last_used_date r0 = Some (ist_date_str clk))); simpl;
    match goal with |- context [?a <=? ?b] => destruct (a <=? b) eqn:Hcmp end;
    simpl; try done;
    intros r; simpl; rewrite ?lookup_alter_eq, Hr; simpl; intros [= <-]; simpl;
    first [apply Z.leb_le in Hcmp | apply Z.leb_gt in Hcmp]; simpl in *; lia.
Qed.

(** X3: The gate keeps the counter within the quota: it never counts a use
    beyond it, whatever the days and the clock readings of the
    attempts. *)
Theorem admit_all_within_quota_any_day (k : string) (clks : list Clock)
    (w : World) :
  within_quota k w -> within_quota k (admit_all k clks w).2.
Proof.
  revert w. induction clks as [|clk clks IH]; intros w Hq; [done |].
  simpl. pose proof (check_api_key_within_quota k clk w Hq) as H1.
  destruct (check_api_key k clk w) as [r w1].
  specialize (IH w1 H1). by destruct (admit_all k clks w1).
Qed.

(** ** Usage statistics *)

Lemma sum_list_Z_perm (l1 l2 : list Z) :
  l1 ≡ₚ l2 -> sum_list_Z l1 = sum_list_Z l2.
Proof.
  induction 1 as [|x l1 l2 _ IH|x y l|l1 l2 l3 _ IH1 _ IH2]; simpl;
    unfold sum_list_Z in *; simpl; lia.
Qed.

Lemma sum_used_today_split (today k : string) (r : ApiKeyDoc) (w : World) :
  apikeys w !! k = Some r ->
  sum_used_today today w
  = usage_of today r
    + sum_list_Z ((fun kr => usage_of today kr.2)
                    <$> map_to_list (delete k (apikeys w))).
Proof.
  intros Hr. unfold sum_used_today.
  rewrite <- (insert_delete_id (apikeys w) k r Hr) at 1.
  rewrite (sum_list_Z_perm _ _
             (fmap_Permutation _ _ _
                (map_to_list_insert (delete k (apikeys w)) k r
                   (lookup_delete_eq _ _)))).
  done.
Qed.

Lemma sum_used_today_alter (today k : string) (f : ApiKeyDoc -> ApiKeyDoc)
    (r : ApiKeyDoc) (w w' : World) :
  apikeys w !! k = Some r ->
  apikeys w' = alter f k (apikeys w) ->
  sum_used_today today w'
  = sum_used_today today w - usage_of today r + usage_of today (f r).
Proof.
  intros Hr Hw'.
  rewrite (sum_used_today_split today k r w Hr).
  rewrite (sum_used_today_split today k (f r) w').
  - rewrite Hw'. rewrite delete_alter_eq. lia.
  - by rewrite Hw', lookup_alter_eq, Hr.
Qed.

Lemma sum_used_today_same (today : string) (w w' : World) :
  apikeys w' = apikeys w -> sum_used_today today w' = sum_used_today today w.
Proof. unfold sum_used_today. by intros ->. Qed.

(** X5: The usage of the day that [api_stats] reports counts exactly the
    admitted requests: an admission raises it by one, also when it is
    the first of a new day for the token; a rejection of any kind leaves
    it as it was. The number of downloads is not affected. *)
Theorem today_usage_counts_admissions (k : string) (clk : Clock)
    (w w' : World) (res : HTTPException + ApiKeyDoc) :
  check_api_key k clk w = (res, w') ->
  today_usage (api_stats clk w')
  = today_usage (api_stats clk w) + (if admitted res then 1 else 0)
  ∧ total_downloads (api_stats clk w') = total_downloads (api_stats clk w).
Proof.
  intros Hc. split.
  2: { destruct (check_api_key_frame _ _ _ _ _ Hc) as (Hcache & _).
       unfold api_stats. simpl. by rewrite Hcache. }
  revert Hc.
  unfold api_stats. simpl. set (today := ist_date_str clk).
  unfold check_api_key.
  destruct (String.eqb k ""); [intros [= <- <-]; simpl; lia |].
  simpl. destruct (apikeys w !! k) as [r0|] eqn:Hr.
  2: { intros [= <- <-]. simpl. rewrite (sum_used_today_same today w); [lia | done]. }
  destruct (key_expired r0 clk).
  { intros [= <- <-]. simpl. rewrite (sum_used_today_same today w); [lia | done]. }
  fold today.
  destruct (decide (last_used_date r0 = Some today)) as [Hd|Hd]; simpl;
    match goal with |- context [?a <=? ?b] => destruct (a <=? b) eqn:Hcmp end;
    intros [= <- <-]; simpl.
  - rewrite (sum_used_today_same today w); [lia | done].
  - erewrite (sum_used_today_alter today k _ r0 w); [| done | reflexivity].
    unfold usage_of. simpl. rewrite !decide_True by done. simpl. lia.
  - erewrite (sum_used_today_alter today k _ r0 w); [| done | reflexivity].
    unfold usage_of. simpl. rewrite decide_False by done.
    rewrite decide_True by done. simpl. lia.
  - erewrite (sum_used_today_alter today k _ r0 w); [| done |].
    2: { simpl. rewrite alter_alter_eq. reflexivity. }
    unfold usage_of. simpl. rewrite decide_False by done.
    rewrite decide_True by done. simpl. lia.
Qed.

(** ** Admission gate, between awaits *)

(** Run on its own, the coroutine is the function [check_api_key]: four
    schedulings bring it to its end with the same outcome and the same
    state. *)
Lemma gate_run_alone (k : string) (clk : Clock) (w : World) :
  gate_run k clk 4 GEntry w
  = (GDone (check_api_key k clk w).1, (check_api_key k clk w).2).
Proof.
  unfold check_api_key, gate_run, gate_step, quota_check.
  destruct (String.eqb k ""); [done |]. simpl.
  destruct (apikeys w !! k) as [r0|]; [|done].
  destruct (key_expired r0 clk); [done |].
  destruct (decide (last_used_date r0 = Some (ist_date_str clk))); simpl;
    by match goal with |- context [?a <=? ?b] => destruct (a <=? b) end.
Qed.

Lemma gate_find_same_day (k today : string) (N : Z) (e : option Z) (u : Z)
    (clk : Clock) (w : World) :
  used_on k today N e u w -> ist_date_str clk = today ->
  match e with Some x => x <? utcnow clk | None => false end = false ->
  u < N ->
  ∃ r, gate_step k clk GAtFind w
       = (GAtInc r, with_apikeys id (ApikeysFindOne k) w).
Proof.
  intros (r & Hr & HN & He & Hd & Hu) Hday Hexp Hlt.
  exists r. unfold gate_step, quota_check, key_expired. simpl.
  rewrite Hr, He, Hexp, Hday, decide_True by done. rewrite Hu, HN. simpl.
  by replace (N <=? u) with false by (symmetry; apply Z.leb_gt; lia).
Qed.

Lemma gate_sys_step_0 (k : string) (clk0 clk1 : Clock) (p q : gate_pc)
    (w : World) :
  gate_sys_step k clk0 clk1 false {| gate0 := p; gate1 := q; gate_world := w |}
  = {| gate0 := (gate_step k clk0 p w).1; gate1 := q;
       gate_world := (gate_step k clk0 p w).2 |}.
Proof. unfold gate_sys_step. simpl. by destruct (gate_step k clk0 p w). Qed.

Lemma gate_sys_step_1 (k : string) (clk0 clk1 : Clock) (p q : gate_pc)
    (w : World) :
  gate_sys_step k clk0 clk1 true {| gate0 := p; gate1 := q; gate_world := w |}
  = {| gate0 := p; gate1 := (gate_step k clk1 q w).1;
       gate_world := (gate_step k clk1 q w).2 |}.
Proof. unfold gate_sys_step. simpl. by destruct (gate_step k clk1 q w). Qed.

Lemma gate_entry (k : string) (clk : Clock) (w : World) :
  k ≠ ""%string -> gate_step k clk GEntry w = (GAtFind, w).
Proof. intros Hk. simpl. by rewrite (key_given k Hk). Qed.

Lemma gate_inc (k : string) (clk : Clock) (r : ApiKeyDoc) (w : World) :
  gate_step k clk (GAtInc r) w = (GDone (inr r), apikeys_inc k w).
Proof. done. Qed.

Lemma gate_done (k : string) (clk : Clock)
    (res : HTTPException + ApiKeyDoc) (w : World) :
  gate_step k clk (GDone res) w = (GDone res, w).
Proof. done. Qed.

Lemma gate_find_exhausted (k today : string) (N : Z) (e : option Z) (u : Z)
    (clk : Clock) (w : World) :
  used_on k today N e u w -> ist_date_str clk = today ->
  match e with Some x => x <? utcnow clk | None => false end = false ->
  N <= u ->
  gate_step k clk GAtFind w
  = (GDone (inl (HTTP 429 "Daily limit reached")),
     with_apikeys id (ApikeysFindOne k) w).
Proof.
  intros (r & Hr & HN & He & Hd & Hu) Hday Hexp Hlt.
  unfold gate_step, quota_check, key_expired. simpl.
  rewrite Hr, He, Hexp, Hday, decide_True by done. rewrite Hu, HN. simpl.
  by replace (N <=? u) with true by (symmetry; apply Z.leb_le; lia).
Qed.

Lemma used_on_inc (k today : string) (N : Z) (e : option Z) (u : Z) (w : World) :
  used_on k today N e u w -> used_on k today N e (u + 1) (apikeys_inc k w).
Proof.
  intros (r & Hr & HN & He & Hd & Hu).
  exists (set_used_today (Some (u + 1)) r). simpl.
  rewrite lookup_alter_eq, Hr. simpl. by rewrite Hu.
Qed.

(** X4: The quota check reads the counter and the increment comes after an
    await, so two requests with the last use of the day still free can
    both pass: interleaved, both are admitted and the counter ends one
    above the quota; one after the other, the second is rejected and the
    counter ends at the quota. *)
Theorem interleaved_admissions_pass_quota (k today : string) (N : Z)
    (e : option Z) (clk0 clk1 : Clock) (w : World) :
  k ≠ ""%string -> 1 <= N -> used_on k today N e (N - 1) w ->
  ist_date_str clk0 = today -> ist_date_str clk1 = today ->
  match e with Some x => x <? utcnow clk0 | None => false end = false ->
  match e with Some x => x <? utcnow clk1 | None => false end = false ->
  let start := {| gate0 := GEntry; gate1 := GEntry; gate_world := w |} in
  let mixed :=
    gate_schedule k clk0 clk1 [false; true; false; true; false; true] start in
  let serial :=
    gate_schedule k clk0 clk1 [false; false; false; true; true; true] start in
  (∃ r0 r1, gate0 mixed = GDone (inr r0) ∧ gate1 mixed = GDone (inr r1)
            ∧ counter k (gate_world mixed) = Some (N + 1))
  ∧ (∃ r0, gate0 serial = GDone (inr r0)
           ∧ gate1 serial = GDone (inl (HTTP 429 "Daily limit reached"))
           ∧ counter k (gate_world serial) = Some N).
Proof.
  intros Hk HN Hon Hd0 Hd1 He0 He1 start mixed serial.
  set (w1 := with_apikeys id (ApikeysFindOne k) w).
  assert (Hon1 : used_on k today N e (N - 1) w1) by exact Hon.
  destruct (gate_find_same_day k today N e (N - 1) clk0 w Hon Hd0 He0)
    as (r0 & Hf0); [lia |].
  fold w1 in Hf0.
  split.
  - set (w2 := with_apikeys id (ApikeysFindOne k) w1).
    assert (Hon2 : used_on k today N e (N - 1) w2) by exact Hon.
    destruct (gate_find_same_day k today N e (N - 1) clk1 w1 Hon1 Hd1 He1)
      as (r1 & Hf1); [lia |].
    fold w2 in Hf1.
    exists r0, r1. unfold mixed, start, gate_schedule. cbn [foldl].
    rewrite gate_sys_step_0, gate_entry by done. cbn [fst snd].
    rewrite gate_sys_step_1, gate_entry by done. cbn [fst snd].
    rewrite gate_sys_step_0, Hf0. cbn [fst snd].
    rewrite gate_sys_step_1, Hf1. cbn [fst snd].
    rewrite gate_sys_step_0, gate_inc. cbn [fst snd].
    rewrite gate_sys_step_1, gate_inc. cbn [fst snd gate0 gate1 gate_world].
    split_and!; [done | done |].
    apply used_on_inc, used_on_inc in Hon2.
    apply used_on_counter in Hon2. rewrite Hon2. f_equal. lia.
  - set (w2 := apikeys_inc k w1).
    assert (Hon2 : used_on k today N e N w2).
    { apply used_on_inc in Hon1. by replace (N - 1 + 1) with N in Hon1 by lia. }
    exists r0. unfold serial, start, gate_schedule. cbn [foldl].
    rewrite gate_sys_step_0, gate_entry by done. cbn [fst snd].
    rewrite gate_sys_step_0, Hf0. cbn [fst snd].
    rewrite gate_sys_step_0, gate_inc. cbn [fst snd]. fold w2.
    rewrite gate_sys_step_1, gate_entry by done. cbn [fst snd].
    rewrite gate_sys_step_1,
      (gate_find_exhausted k today N e N clk1 w2 Hon2 Hd1 He1) by lia.
    cbn [fst snd].
    rewrite gate_sys_step_1, gate_done. cbn [fst snd gate0 gate1 gate_world].
    split_and!; [done | done |]. by apply used_on_counter in Hon2.
Qed.

(** ** Which identifier is found *)

(** The continuation of a successful match is called on what is left of
    the input. *)
Lemma rmatch_suffix {R} (r : Re.regex) :
  ∀ (s : list ascii) (cap : Re.match_obj) (k : Re.cont R) (x : R),
    Re.rmatch r s cap k = Some x ->
    ∃ s' cap', s' `suffix_of` s ∧ k s' cap' = Some x.
Proof.
  induction r as [|c|p|r1 IH1 r2 IH2|r1 IH1 r2 IH2|r1 IH1|n r1 IH1|r1 IH1];
    intros s cap k x H; simpl in H.
  - eauto.
  - destruct s as [|d s]; [done |]. destruct (Ascii.eqb c d); [|done].
    exists s, cap. split; [by apply suffix_cons_r | done].
  - destruct s as [|d s]; [done |]. destruct (p d); [|done].
    exists s, cap. split; [by apply suffix_cons_r | done].
  - apply IH1 in H as (s1 & cap1 & Hs1 & H).
    apply IH2 in H as (s2 & cap2 & Hs2 & H).
    exists s2, cap2. split; [by etrans | done].
  - destruct (Re.rmatch r1 s cap k) eqn:E; [|eauto].
    inversion H; subst. eauto.
  - destruct (Re.rmatch r1 s cap k) eqn:E; [|eauto].
    inversion H; subst. eauto.
  - revert s cap H. induction n as [|n IHn]; intros s cap H; [eauto |].
    apply IH1 in H as (s1 & cap1 & Hs1 & H).
    apply IHn in H as (s2 & cap2 & Hs2 & H).
    exists s2, cap2. split; [by etrans | done].
  - apply IH1 in H as (s1 & cap1 & Hs1 & H). eauto.
Qed.

(** What the pattern captures lies in the input. *)
Lemma yt_re_window (s : list ascii) (m : Re.match_obj) :
  Re.rmatch YT_RE s None (fun _ cap => Some cap) = Some m ->
  ∃ pre t post, m = Some t ∧ s = pre ++ t ++ post
                ∧ length t = 11%nat ∧ forallb token_char t = true.
Proof.
  rewrite yt_re_unfold. intros H.
  apply rmatch_suffix in H as (s1 & c1 & Hs1 & H).
  apply rmatch_suffix in H as (s2 & c2 & Hs2 & H).
  apply rmatch_suffix in H as (s3 & c3 & Hs3 & H).
  rewrite rmatch_id in H.
  destruct (11 <=? length s3)%nat eqn:Hlen; [|done].
  destruct (forallb token_char (take 11 s3)) eqn:Htok; [|done].
  simpl in H. injection H as <-. apply Nat.leb_le in Hlen.
  assert (Hs : s3 `suffix_of` s) by (etrans; [|exact Hs1]; by etrans).
  destruct Hs as [pre ->].
  exists pre, (take 11 s3), (drop 11 s3).
  split_and!; [done | by rewrite take_drop | rewrite length_take; lia | done].
Qed.

Lemma search_window (s : list ascii) (m : Re.match_obj) :
  Re.search YT_RE s = Some m ->
  ∃ pre t post, m = Some t ∧ s = pre ++ t ++ post
                ∧ length t = 11%nat ∧ forallb token_char t = true.
Proof.
  induction s as [|c s IH]; rewrite search_unfold;
    destruct (Re.rmatch YT_RE _ None (fun _ cap => Some cap)) eqn:E;
    intros H; try done;
    try (injection H as ->; by apply yt_re_window).
  destruct (IH H) as (pre & t & post & -> & -> & Hlen & Htok).
  by exists (c :: pre), t, post.
Qed.

Lemma search_none_drop (r : Re.regex) (s : list ascii) (i : nat) :
  Re.search r s = None -> Re.search r (drop i s) = None.
Proof.
  revert s. induction i as [|i IH]; intros s H; [by rewrite drop_0 |].
  destruct s as [|c s]; [done |]. simpl. apply IH.
  rewrite search_unfold in H.
  by destruct (Re.rmatch r (c :: s) None (fun _ cap => Some cap)).
Qed.

(** X6: [extract_vidid] answers with nothing exactly when the stripped input
    holds no eleven consecutive token characters anywhere; and what it
    answers with is always such a run, taken from the stripped input. *)
Theorem extract_vidid_finds_token_run (inp : string) :
  (extract_vidid inp = None
   ↔ ∀ pre t post : list ascii,
       chars (PyStr.strip inp) = pre ++ t ++ post -> length t = 11%nat ->
       forallb token_char t = false)
  ∧ (∀ v, extract_vidid inp = Some v ->
       well_formed_token v = true
       ∧ ∃ pre post, PyStr.strip inp = (pre ++ v ++ post)%string).
Proof.
  unfold extract_vidid.
  destruct (Re.search YT_RE (chars (PyStr.strip inp))) as [m|] eqn:Hs.
  - destruct (search_window _ _ Hs) as (pre & t & post & -> & Heq & Hlen & Htok).
    simpl. split.
    + split; [done |]. intros H. specialize (H pre t post Heq Hlen). congruence.
    + intros v [= <-]. split.
      * unfold well_formed_token. by rewrite chars_text, Hlen, Htok.
      * exists (text pre), (text post). apply chars_inj.
        by rewrite !chars_app, !chars_text.
  - rewrite (fallback_unreachable _ Hs). split; [|done].
    split; [|done]. intros _ pre t post Heq Hlen.
    destruct (forallb token_char t) eqn:Htok; [|done].
    pose proof (search_none_drop _ _ (length pre) Hs) as Hd.
    rewrite Heq, drop_app_length in Hd.
    by rewrite (yt_re_token_run t post Hlen Htok) in Hd.
Qed.

(** ** Keys and file names *)

(** X7: The key of the process-local map and of the in-flight set is the
    identifier and the kind joined by a colon. For identifiers of eleven
    token characters the key determines both parts, so the string-keyed
    containers and the pair-keyed store agree on what a record is. *)
Theorem cache_key_of_injective (v1 t1 v2 t2 : string) :
  well_formed_token v1 = true -> well_formed_token v2 = true ->
  cache_key_of v1 t1 = cache_key_of v2 t2 -> v1 = v2 ∧ t1 = t2.
Proof.
  intros [Hl1 _]%well_formed_token_chars [Hl2 _]%well_formed_token_chars Heq.
  apply (f_equal chars) in Heq. unfold cache_key_of in Heq.
  rewrite !chars_app in Heq.
  apply app_inj_1 in Heq as [Hv Ht]; [|congruence].
  apply app_inv_head in Ht.
  split; by apply chars_inj.
Qed.

Example cache_key_of_collision :
  cache_key_of "a:b" "c" = cache_key_of "a" "b:c".
Proof. reflexivity. Qed.

(** ** Request handlers *)

Lemma token_not_empty (v : string) :
  well_formed_token v = true -> String.eqb v "" = false.
Proof. intros [Hl _]%well_formed_token_chars. by destruct v. Qed.

(** [extract_vidid(url) or extract_vidid(yt_url)] is [extract_vidid(url)]. *)
Lemma resolve_vidid (url : string) :
  truthy (match extract_vidid url with
          | Some v => if String.eqb v ""
                      then extract_vidid (normalize_youtube_input url)
                      else Some v
          | None => extract_vidid (normalize_youtube_input url)
          end) = extract_vidid url.
Proof.
  destruct (extract_vidid url) as [v|] eqn:E.
  - pose proof (token_not_empty v (extract_well_formed _ _ E)) as Hv.
    rewrite Hv. simpl. by rewrite Hv.
  - by rewrite extract_normalized_none.
Qed.

Lemma resolve_paths (cfg : Config) (media_type label : string)
    (env : RequestEnv) (url k : string) (quality : option string) (w : World) :
  resolve_path cfg media_type label env url quality
    (check_api_key k (clock env) w).1 (check_api_key k (clock env) w).2
    (resolve cfg media_type label env url k quality w).1.1
    (resolve cfg media_type label env url k quality w).1.2
    (resolve cfg media_type label env url k quality w).2.
Proof.
  unfold resolve. cbv zeta. rewrite resolve_vidid.
  destruct (check_api_key k (clock env) w) as [[e|r] w1]; cbn [fst snd].
  { by constructor. }
  destruct (extract_vidid url) as [v|] eqn:Hv; cbn [fst snd].
  2: { by constructor. }
  destruct (get_cached_file v media_type w1) as [[cached|] w2] eqn:Hc;
    cbn [fst snd].
  { by eapply path_hit. }
  destruct (savetube_info env (normalize_youtube_input url))
    as [e|decrypted] eqn:Hi; cbn [fst snd].
  { by eapply path_info_failed. }
  destruct (selected_quality cfg decrypted media_type quality)
    as [e|selected] eqn:Hq; cbn [fst snd].
  { by eapply path_selector_failed. }
  destruct decrypted as [m|t]; cbn [fst snd].
  2: { by eapply path_not_object. }
  destruct (savetube_download env (default PyNone (resolver_key m)) selected
              media_type)
    as [e|download_url] eqn:Hd; cbn [fst snd].
  { by eapply path_download_failed. }
  by eapply path_origin.
Qed.

Lemma check_api_key_others (k k' : string) (clk : Clock) (w : World) :
  k' ≠ k -> apikeys (check_api_key k clk w).2 !! k' = apikeys w !! k'.
Proof.
  intros Hk. unfold check_api_key.
  destruct (String.eqb k ""); [done |]. simpl.
  destruct (apikeys w !! k) as [r0|]; [|done].
  destruct (key_expired r0 clk); [done |].
  destruct (decide (last_used_date r0 = Some (ist_date_str clk))); simpl;
    match goal with |- context [?a <=? ?b] => destruct (a <=? b) end;
    simpl; by rewrite ?lookup_alter_ne by done.
Qed.

Lemma cache_writes_find (vid ty : string) (w : World) :
  cache_writes (with_cache id (CacheFindOne vid ty) w) = cache_writes w.
Proof.
  unfold cache_writes. simpl. rewrite List.filter_app. simpl.
  by rewrite app_nil_r.
Qed.

Lemma check_api_key_cache_writes (k : string) (clk : Clock) (w : World) :
  cache_writes (check_api_key k clk w).2 = cache_writes w.
Proof.
  destruct (check_api_key k clk w) as [res w1] eqn:Hc.
  destruct (check_api_key_frame _ _ _ _ _ Hc)
    as (_ & _ & _ & _ & _ & ops & Hops & Hall).
  unfold cache_writes. simpl. rewrite Hops, List.filter_app.
  assert (List.filter is_cache_upsert ops = []) as ->; [|by rewrite app_nil_r].
  clear Hops. induction Hall as [|op ops Hop _ IH]; [done |].
  simpl. rewrite IH. by destruct op.
Qed.

(** What a lookup in the cache index does to the state. *)
Lemma get_cached_file_cases (vid ty : string) (w w' : World)
    (c : option CacheDoc) :
  get_cached_file vid ty w = (c, w') ->
  apikeys w' = apikeys w ∧ cache w' = cache w
  ∧ PROCESSING_SET w' = PROCESSING_SET w ∧ files w' = files w
  ∧ channel w' = channel w ∧ logs w' = logs w
  ∧ cache_writes w' = cache_writes w
  ∧ match c with
    | Some doc =>
        IN_MEMORY_CACHE w' !! cache_key_of vid ty = Some doc
        ∧ ((IN_MEMORY_CACHE w !! cache_key_of vid ty = Some doc ∧ w' = w)
           ∨ (IN_MEMORY_CACHE w !! cache_key_of vid ty = None
              ∧ cache w !! (vid, ty) = Some doc
              ∧ IN_MEMORY_CACHE w'
                = <[cache_key_of vid ty := doc]> (IN_MEMORY_CACHE w)))
    | None =>
        IN_MEMORY_CACHE w' = IN_MEMORY_CACHE w
        ∧ IN_MEMORY_CACHE w !! cache_key_of vid ty = None
        ∧ cache w !! (vid, ty) = None
    end.
Proof.
  unfold get_cached_file.
  destruct (IN_MEMORY_CACHE w !! cache_key_of vid ty) as [doc|] eqn:Hm.
  { intros [= <- <-]. split_and!; try done. by left. }
  simpl. destruct (cache w !! (vid, ty)) as [doc|] eqn:Hs;
    intros [= <- <-]; simpl; rewrite ?cache_writes_find;
    split_and!; try done; try apply cache_writes_find.
  - by rewrite lookup_insert_eq.
  - right. done.
Qed.

(** X8: Whatever the request and the reply, a handler writes nothing to the
    cache collection, marks no key as in flight, creates no file and
    posts nothing to the channel; of the tokens it touches only the
    caller's; and the process-local map keeps every entry it had and
    gains at most the store's record of the identifier asked for. *)
Theorem handler_leaves_archive_state (cfg : Config) (media_type label : string)
    (env : RequestEnv) (url k : string) (quality : option string) (w : World) :
  let w' := (resolve cfg media_type label env url k quality w).1.2 in
  cache w' = cache w ∧ cache_writes w' = cache_writes w
  ∧ PROCESSING_SET w' = PROCESSING_SET w
  ∧ files w' = files w ∧ channel w' = channel w
  ∧ (∀ k', k' ≠ k -> apikeys w' !! k' = apikeys w !! k')
  ∧ (∀ key doc, IN_MEMORY_CACHE w !! key = Some doc ->
       IN_MEMORY_CACHE w' !! key = Some doc)
  ∧ (∀ key doc, IN_MEMORY_CACHE w' !! key = Some doc ->
       IN_MEMORY_CACHE w !! key = Some doc
       ∨ ∃ v, extract_vidid url = Some v ∧ key = cache_key_of v media_type
              ∧ cache w !! (v, media_type) = Some doc).
Proof.
  intros w'. subst w'.
  pose proof (resolve_paths cfg media_type label env url k quality w) as Hp.
  pose proof (fun k' => check_api_key_others k k' (clock env) w) as Hothers.
  pose proof (check_api_key_cache_writes k (clock env) w) as Hwrites.
  destruct (check_api_key k (clock env) w) as [res w1] eqn:Hc.
  destruct (check_api_key_frame _ _ _ _ _ Hc)
    as (Hcache & Hmem & Hproc & Hfiles & Hchan & _).
  cbn [fst snd] in *.
  assert (∀ w2 c v,
    extract_vidid url = Some v ->
    get_cached_file v media_type w1 = (c, w2) ->
    cache w2 = cache w ∧ cache_writes w2 = cache_writes w
    ∧ PROCESSING_SET w2 = PROCESSING_SET w
    ∧ files w2 = files w ∧ channel w2 = channel w
    ∧ (∀ k', k' ≠ k -> apikeys w2 !! k' = apikeys w !! k')
    ∧ (∀ key doc, IN_MEMORY_CACHE w !! key = Some doc ->
         IN_MEMORY_CACHE w2 !! key = Some doc)
    ∧ (∀ key doc, IN_MEMORY_CACHE w2 !! key = Some doc ->
         IN_MEMORY_CACHE w !! key = Some doc
         ∨ ∃ v, extract_vidid url = Some v ∧ key = cache_key_of v media_type
                ∧ cache w !! (v, media_type) = Some doc)) as Hlookup.
  { intros w2 c v Hv Hg.
    destruct (get_cached_file_cases _ _ _ _ _ Hg)
      as (Ha & Hc2 & Hp2 & Hf2 & Hch2 & _ & Hw2 & Hcase).
    rewrite Ha, Hc2, Hp2, Hf2, Hch2, Hw2.
    split_and!; try congruence; try done.
    - destruct c as [doc0|].
      + destruct Hcase as [_ [[_ ->]|(Hnone & _ & ->)]];
          intros key doc Hk; [congruence |].
        destruct (decide (key = cache_key_of v media_type)) as [->|Hne].
        * congruence.
        * rewrite lookup_insert_ne by done. congruence.
      + destruct Hcase as (-> & _). congruence.
    - destruct c as [doc0|].
      + destruct Hcase as [_ [[_ ->]|(Hnone & Hstore & ->)]];
          intros key doc Hk; [left; congruence |].
        destruct (decide (key = cache_key_of v media_type)) as [->|Hne].
        * rewrite lookup_insert_eq in Hk. injection Hk as <-.
          right. exists v. split_and!; [done | done | congruence].
        * rewrite lookup_insert_ne in Hk by done. left. congruence.
      + destruct Hcase as (-> & _). intros key doc Hk. left. congruence. }
  destruct (resolve cfg media_type label env url k quality w)
    as [[resp w'] task].
  cbn [fst snd] in *.
  destruct Hp; try (by eapply Hlookup);
    try (match goal with
         | Hg : get_cached_file _ _ _ = _, Hv : extract_vidid _ = _ |- _ =>
             destruct (Hlookup _ _ _ Hv Hg) as (? & ? & ? & ? & ? & ? & ? & ?)
         end; by split_and!);
    rewrite Hmem; split_and!; try done; intros key doc Hk; by left.
Qed.

(** X9: A handler hands a task to the archiver exactly when it answers from
    the origin. The task is then for the identifier found in the
    reference and the handler's kind, carries the link and the quality of
    the reply, and no record of that identifier was in the index; a reply
    from the cache creates none and carries the file of the record the
    process-local map now holds. *)
Theorem archival_dispatched_with_origin_reply (cfg : Config)
    (media_type label : string) (env : RequestEnv) (url k : string)
    (quality : option string) (w : World) :
  let r := resolve cfg media_type label env url k quality w in
  match r.2 with
  | Some a =>
      ∃ res, r.1.1 = Success res
             ∧ r_source res = "savetube"%string ∧ r_file_id res = None
             ∧ extract_vidid url = Some (a_ytid a)
             ∧ well_formed_token (a_ytid a) = true
             ∧ a_media_type a = media_type
             ∧ a_download_url a = r_url res
             ∧ PyStr (a_quality a) = r_quality res
             ∧ cache w !! (a_ytid a, media_type) = None
             ∧ IN_MEMORY_CACHE w !! archive_key a = None
  | None =>
      ∀ res, r.1.1 = Success res ->
        r_source res = "telegram_cache"%string
        ∧ ∃ v doc, extract_vidid url = Some v
                   ∧ IN_MEMORY_CACHE r.1.2 !! cache_key_of v media_type = Some doc
                   ∧ r_file_id res = Some (file_id doc)
                   ∧ r_url res = get_telegram_download_url env (file_id doc)
  end.
Proof.
  intros r. subst r.
  pose proof (resolve_paths cfg media_type label env url k quality w) as Hp.
  destruct (check_api_key k (clock env) w) as [g w1] eqn:Hc.
  destruct (check_api_key_frame _ _ _ _ _ Hc) as (Hcache & Hmem & _).
  destruct (resolve cfg media_type label env url k quality w)
    as [[resp w'] task].
  cbn [fst snd] in *.
  destruct Hp; try done.
  - intros res [= <-].
    match goal with
    | Hg : get_cached_file _ _ _ = _ |- _ =>
        destruct (get_cached_file_cases _ _ _ _ _ Hg)
          as (_ & _ & _ & _ & _ & _ & _ & Hin & _)
    end.
    split; [done |]. by exists v, cached.
  - match goal with
    | Hg : get_cached_file _ _ _ = _ |- _ =>
        destruct (get_cached_file_cases _ _ _ _ _ Hg)
          as (_ & _ & _ & _ & _ & _ & _ & _ & Hin & Hst)
    end.
    eexists. split; [done |]. cbn.
    split_and!; try done; try congruence.
    + by eapply extract_well_formed.
    + unfold archive_key. cbn. congruence.
Qed.

(** X10: Every request that gets past the gate costs one use of the quota,
    whatever the reply that follows: an invalid reference (400), a
    failure of the origin (500) and a reply served from the cache are
    charged like a fresh resolution. Only the gate's own rejection is
    raised, and nothing the handler does after the gate touches the
    tokens. *)
Theorem every_admitted_request_is_charged (cfg : Config)
    (media_type label : string) (env : RequestEnv) (url k : string)
    (quality : option string) (w : World) :
  let r := resolve cfg media_type label env url k quality w in
  let g := check_api_key k (clock env) w in
  apikeys r.1.2 = apikeys g.2
  ∧ match r.1.1 with
    | Raised e => g.1 = inl e ∧ r.1.2 = g.2
    | JSONResponse _ _ | Success _ =>
        ∃ r0, apikeys w !! k = Some r0
              ∧ counted_today r0 (clock env) < default 1000 (daily_limit r0)
              ∧ counter k r.1.2 = Some (counted_today r0 (clock env) + 1)
    end.
Proof.
  intros r g. subst r g.
  pose proof (resolve_paths cfg media_type label env url k quality w) as Hp.
  destruct (check_api_key k (clock env) w) as [g w1] eqn:Hc.
  destruct (resolve cfg media_type label env url k quality w)
    as [[resp w'] task].
  cbn [fst snd] in *.
  assert (admitted g = true ->
          ∃ r0, apikeys w !! k = Some r0
                ∧ counted_today r0 (clock env) < default 1000 (daily_limit r0)
                ∧ counter k w1 = Some (counted_today r0 (clock env) + 1))
    as Hcharged.
  { destruct g as [e|rec]; [done |]. intros _.
    destruct (check_api_key_admitted _ _ _ _ _ Hc) as (r0 & Hr0 & Hcnt & _).
    exists r0. split_and!; [done | | done].
    revert Hc. unfold check_api_key, counted_today.
    destruct (String.eqb k ""); [done |]. simpl. rewrite Hr0.
    destruct (key_expired r0 (clock env)); [done |].
    destruct (decide (last_used_date r0 = Some (ist_date_str (clock env))));
      simpl;
      match goal with |- context [?a <=? ?b] => destruct (a <=? b) eqn:Hle end;
      try done; apply Z.leb_gt in Hle; intros _; simpl in Hle; lia. }
  assert (∀ v c w2, get_cached_file v media_type w1 = (c, w2) ->
                    apikeys w2 = apikeys w1) as Hsame.
  { intros v c w2 Hg. by destruct (get_cached_file_cases _ _ _ _ _ Hg) as [-> _]. }
  unfold counter in *.
  destruct Hp; cbn [log apikeys];
    try (erewrite Hsame by done); (split; [done |]); by auto.
Qed.

Lemma get_cached_file_hit (v ty : string) (doc : CacheDoc) (w : World) :
  IN_MEMORY_CACHE w !! cache_key_of v ty = Some doc
  ∨ (IN_MEMORY_CACHE w !! cache_key_of v ty = None
     ∧ cache w !! (v, ty) = Some doc) ->
  ∃ w', get_cached_file v ty w = (Some doc, w')
        ∧ IN_MEMORY_CACHE w' !! cache_key_of v ty = Some doc.
Proof.
  unfold get_cached_file. intros [Hm|[Hm Hs]]; rewrite Hm.
  - by exists w.
  - simpl. rewrite Hs. eexists. split; [done |]. simpl.
    by rewrite lookup_insert_eq.
Qed.

(** X11: A request for an identifier the index holds is answered from the
    record alone: the origin is not consulted (the reply is the same
    whatever the origin would have answered) and the quality hint is
    ignored; the record the process-local map holds is preferred to the
    store's, and a record found in the store only is put into the map. *)
Theorem cache_hit_needs_no_origin (cfg : Config) (media_type label : string)
    (env env' : RequestEnv) (url k : string) (quality quality' : option string)
    (w : World) (v : string) (doc : CacheDoc) :
  extract_vidid url = Some v ->
  admitted (check_api_key k (clock env) w).1 = true ->
  IN_MEMORY_CACHE w !! cache_key_of v media_type = Some doc
  ∨ (IN_MEMORY_CACHE w !! cache_key_of v media_type = None
     ∧ cache w !! (v, media_type) = Some doc) ->
  clock env' = clock env ->
  get_telegram_download_url env' = get_telegram_download_url env ->
  let r := resolve cfg media_type label env url k quality w in
  r.1.1 = Success (hit_reply env doc) ∧ r.2 = None
  ∧ IN_MEMORY_CACHE r.1.2 !! cache_key_of v media_type = Some doc
  ∧ resolve cfg media_type label env' url k quality' w = r.
Proof.
  intros Hv Hadm Hrec Hclk Htg r. subst r.
  unfold resolve, hit_reply. cbv zeta. rewrite resolve_vidid, Hv, Hclk, Htg.
  destruct (check_api_key k (clock env) w) as [[e|rec] w1] eqn:Hc; [done |].
  destruct (check_api_key_frame _ _ _ _ _ Hc) as (Hcache & Hmem & _).
  rewrite <- Hcache, <- Hmem in Hrec.
  destruct (get_cached_file_hit _ _ _ _ Hrec) as (w2 & -> & Hin).
  done.
Qed.

(** X12: A handler answers with a status of its own in two cases only. 400:
    no identifier was found in the reference. 500: the identifier has no
    record and something raised inside the handler's [try]: the origin on
    the metadata; the reading of the metadata, which is the quality
    selector when no hint is given or [decrypted.get] on a document that
    is not an object; or the origin on the link. For the origin's
    failures and for the document that is not an object the message is
    the text of the exception. It is in every case the last line of the
    log, and no task is created. *)
Theorem handler_error_replies (cfg : Config) (media_type label : string)
    (env : RequestEnv) (url k : string) (quality : option string) (w : World)
    (s : Z) (m : string) :
  let r := resolve cfg media_type label env url k quality w in
  r.1.1 = JSONResponse s m ->
  r.2 = None
  ∧ ((s = 400 ∧ m = "Invalid YouTube URL or ID"%string
      ∧ extract_vidid url = None)
     ∨ (s = 500
        ∧ (∃ v, extract_vidid url = Some v
                ∧ cache w !! (v, media_type) = None
                ∧ IN_MEMORY_CACHE w !! cache_key_of v media_type = None)
        ∧ (savetube_info env (normalize_youtube_input url) = inl m
           ∨ ∃ decrypted,
               savetube_info env (normalize_youtube_input url) = inr decrypted
               ∧ ((∃ e, selected_quality cfg decrypted media_type quality
                        = inl e)
                  ∨ ∃ selected,
                      selected_quality cfg decrypted media_type quality
                      = inr selected
                      ∧ match decrypted with
                        | DocOther t => m = no_attribute_get t
                        | DocDict d =>
                            savetube_download env
                              (default PyNone (resolver_key d)) selected
                              media_type = inl m
                        end))
        ∧ last (logs r.1.2) = Some (ERROR, (label ++ " error: " ++ m)%string))).
Proof.
  intros r. subst r.
  pose proof (resolve_paths cfg media_type label env url k quality w) as Hp.
  destruct (check_api_key k (clock env) w) as [g w1] eqn:Hc.
  destruct (check_api_key_frame _ _ _ _ _ Hc) as (Hcache & Hmem & _).
  destruct (resolve cfg media_type label env url k quality w)
    as [[resp w'] task].
  cbn [fst snd] in *.
  destruct Hp; intros [= <- <-]; (split; [done |]); [by left | right ..];
    match goal with
    | Hg : get_cached_file _ _ _ = _ |- _ =>
        destruct (get_cached_file_cases _ _ _ _ _ Hg)
          as (_ & _ & _ & _ & _ & _ & _ & _ & Hin & Hst)
    end;
    (split_and!;
     [done | exists v; split_and!; congruence | | simpl; by rewrite last_snoc]).
  - by left.
  - right. eexists. split; [done |]. left. by eexists.
  - right. eexists. split; [done |]. right. by eexists.
  - right. eexists. split; [done |]. right. by eexists.
Qed.

(** ** From a miss to a hit *)

(** A run of the archiver in which nothing fails ends with the record in
    the cache collection and in the process-local map, the key unmarked
    and one message more in the channel. *)
Lemma archival_success_record (cfg : Config) (a : ArchiveArgs)
    (env : ArchiveEnv) (w : World) :
  archive_key a ∉ PROCESSING_SET w ->
  is_str (a_title a) = true ->
  all_succeed env = true ->
  ∃ w' fid mid now,
    background_download_and_upload cfg a env w = (Done, w')
    ∧ upload_outcome env = inr (fid, mid)
    ∧ save_outcome env = inr now
    ∧ cache w' = <[(a_ytid a, a_media_type a) := archived_doc cfg a fid mid now]>
                   (cache w)
    ∧ IN_MEMORY_CACHE w'
      = <[archive_key a := archived_doc cfg a fid mid now]> (IN_MEMORY_CACHE w)
    ∧ apikeys w' = apikeys w
    ∧ PROCESSING_SET w' = PROCESSING_SET w
    ∧ channel w' = channel w ++ [uploaded cfg a fid mid].
Proof.
  intros Hfree Hstr Hok. unfold all_succeed in Hok.
  unfold background_download_and_upload.
  rewrite run_task_step, task_step_enter by done.
  cbn [fst snd]. rewrite run_task_step. cbn [task_step].
  destruct (download_outcome env) as [|e created]; [|done].
  cbn [fst snd]. rewrite run_task_step. cbn [task_step].
  destruct (upload_outcome env) as [e|[fid mid]]; [done |].
  cbn [fst snd]. rewrite run_task_step. cbn [task_step].
  destruct (save_outcome env) as [e|now]; [done |].
  unfold save_cache_record. cbn [fst snd].
  match goal with
  | |- context [run_task _ _ _ 1 AtFinally ?w1] =>
      destruct (finally_step cfg a env w1)
        as (w' & Hstep & Hproc & _ & Hcache & Hmem & _ & _)
  end.
  rewrite run_task_step, Hstep. cbn [fst snd]. rewrite run_task_done.
  exists w', fid, mid, now. split; [done |]. split; [done |]. split; [done |].
  rewrite Hcache, Hmem, Hproc. simpl.
  split_and!; try done.
  - cbn [task_step] in Hstep.
    case_decide; [destruct (remove_outcome env) |]; by injection Hstep as <-.
  - by apply add_then_discard.
  - cbn [task_step] in Hstep.
    case_decide; [destruct (remove_outcome env) |]; by injection Hstep as <-.
Qed.

Lemma archived_meta (cfg : Config) (v ty : string) (d : Metadata)
    (sel dl fid : string) (mid now : Z) :
  let m := meta (archived_doc cfg (archive_args v ty d sel dl) fid mid now) in
  m !! "title"%string = Some (default (PyStr v) (title d))
  ∧ m !! "quality"%string = Some (PyStr sel)
  ∧ m !! "duration"%string
    = Some (default (PyStr "Unknown") (durationLabel d)).
Proof.
  cbn [archived_doc archive_args meta a_meta a_title a_quality].
  rewrite !lookup_union.
  split_and!;
    repeat first [ rewrite lookup_insert_eq
                 | rewrite lookup_insert_ne by done
                 | rewrite lookup_singleton_eq
                 | rewrite lookup_singleton_ne by done ];
    done.
Qed.

(** X13: Resolution, archival and a second request, end to end. A request
    answered from the origin hands over a task; once that task, whose
    title is a string, has run with nothing failing, a request for the
    same identifier that passes the gate is answered from the cache, with
    the file the upload returned, the message of the channel, and the
    quality and duration the first reply announced. The title is the one
    that was archived: the origin's, or the identifier itself where the
    origin gave none (the first reply says Unknown there). *)
Theorem archived_miss_becomes_hit (cfg : Config) (media_type label : string)
    (env env2 : RequestEnv) (url url2 k k2 : string)
    (quality quality2 : option string) (w w1 : World) (res : ResultBody)
    (a : ArchiveArgs) (aenv : ArchiveEnv) :
  resolve cfg media_type label env url k quality w = (Success res, w1, Some a) ->
  archive_key a ∉ PROCESSING_SET w ->
  is_str (a_title a) = true ->
  all_succeed aenv = true ->
  extract_vidid url2 = extract_vidid url ->
  let w2 := (background_download_and_upload cfg a aenv w1).2 in
  let r2 := resolve cfg media_type label env2 url2 k2 quality2 w2 in
  admitted (check_api_key k2 (clock env2) w2).1 = true ->
  ∃ fid mid res2,
    upload_outcome aenv = inr (fid, mid)
    ∧ r2.1.1 = Success res2 ∧ r2.2 = None
    ∧ r_source res2 = "telegram_cache"%string
    ∧ r_file_id res2 = Some fid
    ∧ r_url res2 = get_telegram_download_url env2 fid
    ∧ r_telegram_msg res2
      = Some (CACHE_CHANNEL_ID cfg, mid,
              ("https://t.me/c/"
               ++ replace "-100" "" (str_of_Z (CACHE_CHANNEL_ID cfg))
               ++ "/" ++ str_of_Z mid)%string)
    ∧ r_quality res2 = r_quality res
    ∧ r_duration res2 = r_duration res
    ∧ r_title res2 = a_title a
    ∧ (r_title res ≠ PyStr "Unknown" -> r_title res2 = r_title res).
Proof.
  intros Hfirst Hfree Hstr Hok Hurl w2 r2 Hadm. subst w2 r2.
  pose proof (resolve_paths cfg media_type label env url k quality w) as Hp.
  rewrite Hfirst in Hp. cbn [fst snd] in Hp.
  destruct (check_api_key k (clock env) w) as [g w0] eqn:Hc.
  destruct (check_api_key_frame _ _ _ _ _ Hc) as (_ & _ & Hproc & _).
  cbn [fst snd] in Hp.
  inversion Hp as [| | | | | | |v w1' d sel dl _ Hv Hg Hi Hq Hd]; subst.
  destruct (get_cached_file_cases _ _ _ _ _ Hg) as (_ & _ & Hproc1 & _).
  set (a := archive_args v media_type d sel dl) in *.
  assert (archive_key a ∉ PROCESSING_SET w1) as Hfree1 by congruence.
  destruct (archival_success_record cfg a aenv w1 Hfree1 Hstr Hok)
    as (w2 & fid & mid & now & Hrun & Hup & _ & _ & Hmem & _).
  rewrite Hrun in *. cbn [fst snd] in *.
  exists fid, mid, (hit_reply env2 (archived_doc cfg a fid mid now)).
  split; [done |].
  unfold resolve. cbv zeta. rewrite resolve_vidid, Hurl, Hv.
  destruct (check_api_key k2 (clock env2) w2) as [[e|rec] w3] eqn:Hc2; [done |].
  destruct (check_api_key_frame _ _ _ _ _ Hc2) as (_ & Hmem3 & _).
  assert (IN_MEMORY_CACHE w3 !! cache_key_of v media_type
          = Some (archived_doc cfg a fid mid now)) as Hin.
  { rewrite Hmem3, Hmem. apply lookup_insert_eq. }
  destruct (get_cached_file_hit v media_type _ w3 (or_introl Hin))
    as (w4 & -> & _).
  cbn [fst snd]. split; [done |]. split; [done |].
  destruct (archived_meta cfg v media_type d sel dl fid mid now)
    as (Ht & Hqm & Hdur).
  fold a in Ht, Hqm, Hdur.
  unfold hit_reply, get_or_unknown.
  cbn [r_source r_file_id r_url r_telegram_msg r_quality r_duration r_title
       origin_reply].
  rewrite Ht, Hqm, Hdur.
  split_and!; try done.
  cbn. destruct (title d); [done |]. intros H. by destruct H.
Qed.

(** ** What the archiver leaves alone *)

Lemma task_step_isolated (cfg : Config) (a : ArchiveArgs) (env : ArchiveEnv)
    (p : pc) (w : World) :
  let w' := (task_step cfg a env p w).2 in
  apikeys w' = apikeys w
  ∧ (∀ K, K ≠ archive_key a ->
       (K ∈ PROCESSING_SET w' ↔ K ∈ PROCESSING_SET w)
       ∧ IN_MEMORY_CACHE w' !! K = IN_MEMORY_CACHE w !! K)
  ∧ (∀ vt, vt ≠ (a_ytid a, a_media_type a) -> cache w' !! vt = cache w !! vt)
  ∧ (∀ f, f ≠ archive_filepath cfg a -> f ∈ files w' ↔ f ∈ files w)
  ∧ channel w `prefix_of` channel w'
  ∧ mongo_ops w `prefix_of` mongo_ops w'.
Proof.
  assert (∀ (K x : string) (s : gset string), x ≠ K -> x ∈ s ∪ {[K]} ↔ x ∈ s)
    as Hadd.
  { intros K x s Hx. rewrite elem_of_union, elem_of_singleton. tauto. }
  assert (∀ (K x : string) (s : gset string), x ≠ K -> x ∈ s ∖ {[K]} ↔ x ∈ s)
    as Hdel.
  { intros K x s Hx. rewrite elem_of_difference, elem_of_singleton. tauto. }
  destruct p; cbn [task_step].
  - case_decide; [| destruct (sanitize_filename (a_title a))]; cbn;
      split_and!; try done; intros K HK; split; try done; by apply Hadd.
  - destruct (download_outcome env) as [|e []]; cbn; split_and!; try done;
      intros f Hf; by apply Hadd.
  - destruct (upload_outcome env) as [e|[fid mid]]; cbn; split_and!; try done.
    by apply prefix_app_r.
  - destruct (save_outcome env) as [e|now]; cbn; split_and!; try done.
    + intros K HK. split; [done |]. by rewrite lookup_insert_ne.
    + intros vt Hvt. by rewrite lookup_insert_ne.
    + by apply prefix_app_r.
  - case_decide; [destruct (remove_outcome env) |]; cbn; split_and!; try done;
      try (intros K HK; split; [by apply Hdel | done]).
    intros f Hf. by apply Hdel.
  - cbn. by split_and!.
  - cbn. by split_and!.
Qed.

Lemma sys_step_world (cfg : Config) (who : bool) (s : Sys) :
  world (sys_step cfg who s)
  = (task_step cfg (t_args (task_of who s)) (t_env (task_of who s))
       (t_pc (task_of who s)) (world s)).2.
Proof.
  unfold sys_step.
  destruct (task_step cfg _ _ _ (world s)) as [p w'].
  by destruct who.
Qed.

Lemma run_schedule_snoc (cfg : Config) (sch : list bool) (who : bool) (s : Sys) :
  run_schedule cfg (sch ++ [who]) s = sys_step cfg who (run_schedule cfg sch s).
Proof. unfold run_schedule. by rewrite foldl_app. Qed.

Lemma run_schedule_args (cfg : Config) (sch : list bool) (s : Sys) :
  t_args (task0 (run_schedule cfg sch s)) = t_args (task0 s)
  ∧ t_args (task1 (run_schedule cfg sch s)) = t_args (task1 s).
Proof.
  induction sch as [|who sch IH] using rev_ind; [done |].
  rewrite run_schedule_snoc.
  destruct (sys_step_args cfg who (run_schedule cfg sch s)) as [-> ->].
  done.
Qed.

(** X15: Two archival tasks, scheduled in any order and with any outcomes,
    stay within their own keys: no token is touched, no other key is
    marked or unmarked, no other entry of the process-local map, no
    other record of the cache collection and no other file is created,
    changed or removed, and what the channel and the store's request log
    held before is still there, in the same order. *)
Theorem archival_touches_only_its_key (cfg : Config) (sch : list bool)
    (s : Sys) :
  let a0 := t_args (task0 s) in
  let a1 := t_args (task1 s) in
  let w := world s in
  let w' := world (run_schedule cfg sch s) in
  apikeys w' = apikeys w
  ∧ (∀ K, K ≠ archive_key a0 -> K ≠ archive_key a1 ->
       (K ∈ PROCESSING_SET w' ↔ K ∈ PROCESSING_SET w)
       ∧ IN_MEMORY_CACHE w' !! K = IN_MEMORY_CACHE w !! K)
  ∧ (∀ vt, vt ≠ (a_ytid a0, a_media_type a0) ->
           vt ≠ (a_ytid a1, a_media_type a1) ->
           cache w' !! vt = cache w !! vt)
  ∧ (∀ f, f ≠ archive_filepath cfg a0 -> f ≠ archive_filepath cfg a1 ->
          f ∈ files w' ↔ f ∈ files w)
  ∧ channel w `prefix_of` channel w'
  ∧ mongo_ops w `prefix_of` mongo_ops w'.
Proof.
  cbv zeta.
  induction sch as [|who sch IH] using rev_ind; [by split_and! |].
  rewrite run_schedule_snoc, sys_step_world.
  destruct IH as (Hk & Hmark & Hcache & Hfiles & Hchan & Hops).
  destruct (run_schedule_args cfg sch s) as [Ha0 Ha1].
  set (s1 := run_schedule cfg sch s) in *.
  destruct (task_step_isolated cfg (t_args (task_of who s1))
              (t_env (task_of who s1)) (t_pc (task_of who s1)) (world s1))
    as (Hk' & Hmark' & Hcache' & Hfiles' & Hchan' & Hops').
  assert (t_args (task_of who s1) = t_args (task0 s)
          ∨ t_args (task_of who s1) = t_args (task1 s)) as Hwho.
  { destruct who; [by right | by left]. }
  split_and!.
  - congruence.
  - intros K H0 H1.
    destruct (Hmark K H0 H1) as [Hm1 Hm2].
    destruct (Hmark' K) as [Hm1' Hm2']; [by destruct Hwho as [-> | ->] |].
    split; [by rewrite Hm1' | by rewrite Hm2'].
  - intros vt H0 H1. rewrite Hcache'; [by apply Hcache |].
    by destruct Hwho as [-> | ->].
  - intros f H0 H1. rewrite Hfiles'; [by apply Hfiles |].
    by destruct Hwho as [-> | ->].
  - by etrans.
  - by etrans.
Qed.

Lemma archival_unmarks (cfg : Config) (a : ArchiveArgs) (env : ArchiveEnv)
    (w : World) :
  archive_key a ∉ PROCESSING_SET w ->
  is_str (a_title a) = true ->
  archive_key a ∉ PROCESSING_SET (background_download_and_upload cfg a env w).2.
Proof.
  intros Hfree Hstr. unfold background_download_and_upload.
  destruct (body_steps cfg a env w Hfree Hstr) as (n & w1 & _ & -> & _).
  destruct (finally_step cfg a env w1) as (w' & Hstep & Hproc & _).
  rewrite run_task_step, Hstep. cbn [fst snd]. rewrite run_task_done.
  cbn [snd]. rewrite Hproc. apply unmarked_after_discard.
Qed.

(** X16: The in-flight mark is the archiver's only guard. For a task whose
    title is a string, a call that starts after an earlier call for the
    same key has returned does the whole work: after a failed run it is
    the retry that publishes the record; after a successful run it
    uploads the file a second time and its record replaces the first
    one. The archiver never looks up the index. *)
Theorem archival_repeats_after_return (cfg : Config) (a : ArchiveArgs)
    (env1 env2 : ArchiveEnv) (w : World) :
  archive_key a ∉ PROCESSING_SET w ->
  is_str (a_title a) = true ->
  all_succeed env2 = true ->
  let w1 := (background_download_and_upload cfg a env1 w).2 in
  ∃ w2 fid mid now,
    background_download_and_upload cfg a env2 w1 = (Done, w2)
    ∧ upload_outcome env2 = inr (fid, mid)
    ∧ cache w2 !! (a_ytid a, a_media_type a)
      = Some (archived_doc cfg a fid mid now)
    ∧ IN_MEMORY_CACHE w2 !! archive_key a
      = Some (archived_doc cfg a fid mid now)
    ∧ channel w2 = channel w1 ++ [uploaded cfg a fid mid]
    ∧ (all_succeed env1 = true ->
       ∃ fid1 mid1,
         upload_outcome env1 = inr (fid1, mid1)
         ∧ channel w2
           = channel w ++ [uploaded cfg a fid1 mid1; uploaded cfg a fid mid]).
Proof.
  intros Hfree Hstr Hok2 w1. subst w1.
  pose proof (archival_unmarks cfg a env1 w Hfree Hstr) as Hfree1.
  destruct (archival_success_record cfg a env2 _ Hfree1 Hstr Hok2)
    as (w2 & fid & mid & now & Hrun & Hup & _ & Hcache & Hmem & _ & _ & Hchan).
  exists w2, fid, mid, now.
  split_and!; try done.
  - rewrite Hcache. apply lookup_insert_eq.
  - rewrite Hmem. apply lookup_insert_eq.
  - intros Hok1.
    destruct (archival_success_record cfg a env1 w Hfree Hstr Hok1)
      as (w1 & fid1 & mid1 & now1 & Hrun1 & Hup1 & _ & _ & _ & _ & _ & Hchan1).
    exists fid1, mid1. split; [done |].
    rewrite Hchan, Hrun1. cbn [snd]. rewrite Hchan1, <- app_assoc. done.
Qed.

(** ** Temporary files *)

Lemma archive_filename_chars (a : ArchiveArgs) :
  chars (archive_filename a)
  = chars (a_ytid a)
    ++ "_"%char :: chars (a_media_type a)
    ++ "_"%char :: chars (a_quality a)
    ++ "."%char :: chars (if String.eqb (a_media_type a) "video"
                          then "mp4" else "mp3")%string.
Proof. unfold archive_filename. by rewrite !chars_app. Qed.

Lemma archive_filename_relative (a : ArchiveArgs) :
  well_formed_token (a_ytid a) = true ->
  PyStr.starts_with (chars "/") (chars (archive_filename a)) = false.
Proof.
  intros [Hlen Htok]%well_formed_token_chars.
  rewrite archive_filename_chars.
  destruct (chars (a_ytid a)) as [|c y]; [done |].
  simpl in Htok. apply andb_prop in Htok as [Hc _].
  cbn -[Ascii.eqb]. destruct (Ascii.eqb "/" c) eqn:E; [|done].
  apply Ascii.eqb_eq in E. by subst.
Qed.

Lemma path_join_inj (dir n1 n2 : string) :
  PyStr.starts_with (chars "/") (chars n1) = false ->
  PyStr.starts_with (chars "/") (chars n2) = false ->
  path_join dir n1 = path_join dir n2 -> n1 = n2.
Proof.
  unfold path_join. intros -> ->.
  destruct (String.eqb dir ""); [done |].
  destruct (PyStr.starts_with (chars "/") (rev (chars dir)));
    intros H%(f_equal chars); rewrite !chars_app in H;
    apply app_inv_head in H; apply chars_inj.
  - done.
  - by injection H.
Qed.

(** X17: The temporary file of an archival is named after the identifier, the
    kind and the quality, and the name tells them apart: for identifiers
    of eleven token characters and the two kinds the handlers use, two
    tasks with the same path have the same identifier, kind and quality.
    So tasks for different keys never share a file. *)
Theorem archive_filepath_injective (cfg : Config) (a a' : ArchiveArgs) :
  well_formed_token (a_ytid a) = true ->
  well_formed_token (a_ytid a') = true ->
  a_media_type a = "video"%string ∨ a_media_type a = "audio"%string ->
  a_media_type a' = "video"%string ∨ a_media_type a' = "audio"%string ->
  archive_filepath cfg a = archive_filepath cfg a' ->
  a_ytid a = a_ytid a' ∧ a_media_type a = a_media_type a'
  ∧ a_quality a = a_quality a'.
Proof.
  intros Hw Hw' Ht Ht' Hpath.
  apply path_join_inj in Hpath; try by apply archive_filename_relative.
  apply (f_equal chars) in Hpath. rewrite !archive_filename_chars in Hpath.
  apply well_formed_token_chars in Hw as [Hl _].
  apply well_formed_token_chars in Hw' as [Hl' _].
  apply app_inj_1 in Hpath as [Hy Hrest]; [|congruence].
  apply chars_inj in Hy. split; [done |].
  destruct Ht as [Ht|Ht], Ht' as [Ht'|Ht']; rewrite Ht, Ht' in *;
    try discriminate Hrest; (split; [done |]);
    apply chars_inj; simpl in Hrest; injection Hrest as Hq;
    by apply app_inv_tail in Hq.
Qed.

(** ** Token administration *)

Lemma create_api_key_inv (token own : string) (L d : Z) (adm : bool)
    (now now' : Z) (coll coll' : ApiKeys) (doc : ApiKeyDoc) :
  create_api_key token own L d adm now now' coll = (inr doc, coll') ->
  coll !! token = None ∧ coll' = <[token := stored doc]> coll
  ∧ key doc = token ∧ owner doc = own ∧ daily_limit doc = Some L
  ∧ used_today doc = Some 0 ∧ last_used_date doc = None
  ∧ is_admin doc = adm ∧ created_at doc = now'
  ∧ bson_int_ok L = true
  ∧ ((d = 0 ∧ expiry_date doc = None)
     ∨ (d ≠ 0 ∧ Z.abs d <= 999999999 ∧ 0 <= now + d * DAY <= DATETIME_MAX
        ∧ expiry_date doc = Some (now + d * DAY))).
Proof.
  unfold create_api_key, timedelta_days, datetime_add.
  destruct (d =? 0) eqn:Hd.
  - apply Z.eqb_eq in Hd.
    destruct (bson_int_ok L); [|done]. simpl.
    destruct (coll !! token); [done |].
    intros [= <- <-]. split_and!; try done. by left.
  - apply Z.eqb_neq in Hd.
    destruct (Z.abs d <=? 999999999) eqn:Habs; [|done].
    apply Z.leb_le in Habs. simpl.
    destruct ((0 <=? now + d * DAY) && (now + d * DAY <=? DATETIME_MAX))
      eqn:Hrange; [|done].
    apply andb_prop in Hrange as [H0%Z.leb_le H1%Z.leb_le]. simpl.
    destruct (bson_int_ok L); [|done]. simpl.
    destruct (coll !! token); [done |].
    intros [= <- <-]. split_and!; try done. right. by split_and!.
Qed.

Lemma check_fresh_key (k : string) (clk : Clock) (w : World) (r : ApiKeyDoc) :
  k ≠ ""%string -> apikeys w !! k = Some r ->
  last_used_date r = None -> key_expired r clk = false ->
  ∃ w', check_api_key k clk w
        = (if default 1000 (daily_limit r) <=? 0
           then inl (HTTP 429 "Daily limit reached")
           else inr (set_used_today (Some 0) r), w')
        ∧ (0 < default 1000 (daily_limit r) -> counter k w' = Some 1).
Proof.
  intros Hk Hr Hdate Hexp. unfold check_api_key.
  rewrite (key_given k Hk). simpl. rewrite Hr, Hexp.
  rewrite decide_False by (by rewrite Hdate). simpl.
  destruct (default 1000 (daily_limit r) <=? 0) eqn:Hl.
  - eexists. split; [done |]. apply Z.leb_le in Hl. lia.
  - eexists. split; [done |]. intros _. unfold counter. simpl.
    by rewrite !lookup_alter_eq, Hr.
Qed.

(** X18: A token made by [create_api_key], at the gate. The insertion adds
    the token and changes no other. With a share of zero or less the
    token is never admitted; with zero days of validity it never
    expires; otherwise it is refused as expired once the clock has
    passed the creation time plus the days of validity, cut to the
    millisecond as the store keeps it, so a negative number of days
    makes a token that is expired from the start. A first use that is
    admitted is counted as use number one. *)
Theorem created_key_at_the_gate (token own : string) (L d : Z) (adm : bool)
    (now now' : Z) (coll coll' : ApiKeys) (doc : ApiKeyDoc) (clk : Clock)
    (w : World) :
  create_api_key token own L d adm now now' coll = (inr doc, coll') ->
  token ≠ ""%string ->
  apikeys w = coll' ->
  let g := check_api_key token clk w in
  let expired := bool_decide (d ≠ 0 ∧ bson_datetime (now + d * DAY) < utcnow clk) in
  coll !! token = None
  ∧ (∀ k, k ≠ token -> coll' !! k = coll !! k)
  ∧ g.1 = (if expired then inl (HTTP 403 "API key expired")
           else if L <=? 0 then inl (HTTP 429 "Daily limit reached")
           else inr (set_used_today (Some 0) (stored doc)))
  ∧ (admitted g.1 = true -> counter token g.2 = Some 1)
  ∧ (d < 0 -> now <= utcnow clk -> expired = true).
Proof.
  intros Hcreate Htok Hw g expired. subst g expired.
  destruct (create_api_key_inv _ _ _ _ _ _ _ _ _ _ Hcreate)
    as (Hnone & -> & Hkey & _ & Hlim & _ & Hdate & _ & _ & _ & Hexp).
  assert (apikeys w !! token = Some (stored doc)) as Hr.
  { rewrite Hw. apply lookup_insert_eq. }
  split; [done |]. split; [intros k Hk; by rewrite lookup_insert_ne |].
  assert (key_expired (stored doc) clk
          = bool_decide (d ≠ 0 ∧ bson_datetime (now + d * DAY) < utcnow clk))
    as Hexpired.
  { unfold key_expired. cbn [stored expiry_date].
    destruct Hexp as [[-> ->]|(Hd & _ & _ & ->)].
    - symmetry. apply bool_decide_eq_false_2. by intros [? _].
    - change (bson_datetime <$> Some (now + d * DAY))
        with (Some (bson_datetime (now + d * DAY))).
      destruct (bson_datetime (now + d * DAY) <? utcnow clk) eqn:E; symmetry.
      + apply Z.ltb_lt in E. by apply bool_decide_eq_true_2.
      + apply Z.ltb_ge in E. apply bool_decide_eq_false_2.
        intros [_ ?]. lia. }
  split_and!.
  - destruct (bool_decide _) eqn:Hb in |- *.
    + unfold check_api_key. rewrite (key_given _ Htok). simpl.
      by rewrite Hr, Hexpired, Hb.
    + rewrite Hb in Hexpired.
      destruct (check_fresh_key token clk w (stored doc) Htok Hr Hdate Hexpired)
        as (w' & -> & _).
      cbn [fst stored daily_limit]. by rewrite Hlim.
  - destruct (bool_decide _) eqn:Hb in Hexpired.
    + unfold check_api_key. rewrite (key_given _ Htok). simpl.
      by rewrite Hr, Hexpired.
    + destruct (check_fresh_key token clk w (stored doc) Htok Hr Hdate Hexpired)
        as (w' & -> & Hcnt).
      cbn [fst snd stored daily_limit] in *. rewrite Hlim in *. simpl in *.
      destruct (L <=? 0) eqn:HL; [done |]. intros _. apply Hcnt.
      by apply Z.leb_gt in HL.
  - intros Hneg Hnow. apply bool_decide_eq_true_2. split; [lia |].
    unfold bson_datetime, DAY.
    pose proof (Z.mod_pos_bound (now + d * 86400000000) 1000 ltac:(lia)). lia.
Qed.

Lemma get_current_admin_some (c : option string) (coll : ApiKeys) :
  is_Some (get_current_admin c coll)
  ↔ ∃ k r, c = Some k ∧ k ≠ ""%string ∧ coll !! k = Some r
           ∧ is_admin r = true.
Proof.
  unfold get_current_admin. split.
  - intros [r Hr]. destruct c as [k|]; [|done].
    destruct (String.eqb k "") eqn:Hk; [done |].
    apply String.eqb_neq in Hk.
    destruct (coll !! k) as [r0|] eqn:Hc; [|done]. simpl in Hr.
    destruct (is_admin r0) eqn:Ha; [|done].
    by exists k, r0.
  - intros (k & r & -> & Hk & Hr & Ha).
    rewrite (key_given k Hk), Hr. simpl. rewrite Ha. by eexists.
Qed.

(** X19: The two routes of the administrator, as the framework dispatches
    them. [POST /admin/create_key] is refused with 401, the collection
    left as it is, unless the session cookie names a record of the
    collection that has the administrator flag, and with such a cookie it
    does not raise 401. [DELETE /admin/user/{api_key}] makes the same
    check on the key in the path, which is the key to delete, and not on
    the cookie: it is refused with 401 unless the key to delete is itself
    an administrator's, and its outcome is the same whatever cookie the
    caller sends. *)
Theorem admin_operations_need_admin_session (cookie : option string)
    (coll : ApiKeys) (api_key token own : string) (L d : Z) (adm : bool)
    (now now' : Z) :
  api_key ≠ ""%string ->
  let admin_key (c : option string) :=
    ∃ k r, c = Some k ∧ k ≠ ""%string ∧ coll !! k = Some r
           ∧ is_admin r = true in
  let refused := (AdminRaised (HTTP 401 "Admin access required"), coll) in
  let mk := create_key_route cookie token own L d adm now now' coll in
  let del := delete_user_route api_key cookie coll in
  (admin_key cookie -> ∀ e, mk.1 ≠ AdminRaised e)
  ∧ (¬ admin_key cookie -> mk = refused)
  ∧ (admin_key (Some api_key) -> ∀ e, del.1 ≠ AdminRaised e)
  ∧ (¬ admin_key (Some api_key) -> del = refused)
  ∧ (∀ cookie', delete_user_route api_key cookie' coll = del).
Proof.
  intros _. cbv zeta. unfold create_key_route, delete_user_route.
  pose proof (get_current_admin_some cookie coll) as Hc.
  pose proof (get_current_admin_some (Some api_key) coll) as Hk.
  split_and!.
  - intros [r Hr]%Hc. rewrite Hr. unfold admin_create_key_api.
    by destruct (create_api_key token own L d adm now now' coll) as [[?|?] ?].
  - intros Hno. destruct (get_current_admin cookie coll) eqn:Hr; [|done].
    destruct Hno. apply Hc. by eexists.
  - intros [r Hr]%Hk. rewrite Hr. unfold delete_user_api.
    by destruct (coll !! api_key).
  - intros Hno. destruct (get_current_admin (Some api_key) coll) eqn:Hr; [|done].
    destruct Hno. apply Hk. by eexists.
  - done.
Qed.

(** X20: The session checks read the record and nothing else: a token the
    gate has just refused as expired or as over its share, or has just
    admitted, still gives its holder a session, and an administrator's
    session if the record has the flag. They look at neither the expiry
    nor the counter. *)
Theorem session_checks_ignore_the_gate (k : string) (clk : Clock)
    (w : World) (r : ApiKeyDoc) :
  k ≠ ""%string -> apikeys w !! k = Some r ->
  let w' := (check_api_key k clk w).2 in
  ∃ r', get_current_user (Some k) (apikeys w') = Some r'
        ∧ key r' = key r ∧ is_admin r' = is_admin r
        ∧ expiry_date r' = expiry_date r
        ∧ get_current_admin (Some k) (apikeys w')
          = (if is_admin r then Some r' else None).
Proof.
  intros Hk Hr w'. subst w'.
  destruct (check_api_key k clk w) as [res w'] eqn:Hc.
  destruct (check_api_key_changes _ _ _ _ _ Hc) as (_ & _ & Hown).
  destruct (Hown r Hr) as (r' & Hr' & Hkey & _ & _ & Hexp & Hadm & _).
  exists r'. unfold get_current_user, get_current_admin.
  rewrite (key_given k Hk). cbn [snd]. rewrite Hr'. simpl. rewrite Hadm.
  done.
Qed.

(** X21: Deleting a token through [DELETE /admin/user/{api_key}], whoever
    calls. A key that is an administrator's is deleted, with the reply
    that it was; from then on the gate refuses it with 401 and so do both
    session checks. Every other request is refused with 401 and changes
    nothing: a user's key cannot be deleted, by an administrator either.
    No other token is touched, the reply that the user was not found is
    never given, and a second deletion of the same key is refused with
    401. *)
Theorem deleted_key_is_refused (api_key : string) (cookie : option string)
    (coll : ApiKeys) :
  api_key ≠ ""%string ->
  let r := delete_user_route api_key cookie coll in
  let refused c := (AdminRaised (HTTP 401 "Admin access required"), c) in
  let admin_key :=
    match coll !! api_key with
    | Some rec => is_admin rec
    | None => false
    end in
  r = (if admin_key
       then (AdminOk true "User deleted successfully", delete api_key coll)
       else refused coll)
  ∧ (∀ k, k ≠ api_key -> r.2 !! k = coll !! k)
  ∧ r.1 ≠ AdminOk false "User not found"
  ∧ (admin_key = true ->
     (∀ w clk, apikeys w = r.2 ->
        ∃ detail w', check_api_key api_key clk w = (inl (HTTP 401 detail), w')
                     ∧ apikeys w' = r.2)
     ∧ get_current_user (Some api_key) r.2 = None
     ∧ get_current_admin (Some api_key) r.2 = None)
  ∧ (∀ cookie', delete_user_route api_key cookie' r.2 = refused r.2).
Proof.
  intros Hk%key_given. cbv zeta.
  unfold delete_user_route, delete_user_api, get_current_admin.
  rewrite Hk.
  assert (∀ coll' : ApiKeys, coll' !! api_key = None ->
    (∀ w clk, apikeys w = coll' ->
       ∃ detail w', check_api_key api_key clk w = (inl (HTTP 401 detail), w')
                    ∧ apikeys w' = coll')
    ∧ get_current_user (Some api_key) coll' = None) as Hgone.
  { intros coll' Hnone. split.
    - intros w clk Hw. unfold check_api_key. rewrite Hk.
      simpl. rewrite Hw, Hnone. by eexists _, _.
    - unfold get_current_user. by rewrite Hk. }
  destruct (coll !! api_key) as [r0|] eqn:Hr; cbn [mbind option_bind].
  2: { cbn [fst snd]. rewrite Hr. by split_and!. }
  destruct (is_admin r0) eqn:Ha; cbn [fst snd].
  2: { rewrite Hr. cbn [mbind option_bind]. rewrite Ha. by split_and!. }
  rewrite lookup_delete_eq. cbn [mbind option_bind].
  destruct (Hgone (delete api_key coll)) as (? & ?);
    [apply lookup_delete_eq |].
  split_and!; try done.
  intros k Hne. by rewrite lookup_delete_ne.
Qed.

(** On the sample collection: the administrator cannot delete the user's
    token, and a caller without any cookie deletes the administrator's. *)
Example delete_route_on_sample_tokens :
  delete_user_route "abc" (Some "root-key"%string) sample_tokens
  = (AdminRaised (HTTP 401 "Admin access required"), sample_tokens)
  ∧ delete_user_route "root-key" None sample_tokens
    = (AdminOk true "User deleted successfully",
       delete "root-key"%string sample_tokens)
  ∧ get_current_admin (Some "root-key"%string)
      (delete "root-key"%string sample_tokens) = None
  ∧ (delete "root-key"%string sample_tokens) !! "abc"%string
    = Some sample_token.
Proof. by vm_compute. Qed.

(** X22: Start-up and the first administrator. On a collection that holds a
    token, start-up leaves the collection alone. On an empty one, at any
    time at least a year before the end of the calendar, it creates one
    token: an administrator's, with a share of 10000 a day and an expiry
    365 days on, which opens an administrator's session; the token is
    written to the log in clear. Start-up is idempotent on the
    collection: after a start-up that did not fail, another one changes
    nothing. *)
Theorem startup_creates_first_admin (token : string) (now now' : Z)
    (coll : ApiKeys) (lg : list (LogLevel * string)) :
  let r := startup_event token now now' coll lg in
  (coll ≠ ∅ -> r.1.1 = None ∧ r.1.2 = coll)
  ∧ (coll = ∅ -> 0 <= now -> now + 365 * DAY <= DATETIME_MAX ->
     r.1.1 = None
     ∧ (∃ doc, r.1.2 = {[ token := doc ]}
               ∧ key doc = token ∧ is_admin doc = true
               ∧ daily_limit doc = Some 10000
               ∧ expiry_date doc = Some (bson_datetime (now + 365 * DAY))
               ∧ (token ≠ ""%string ->
                  get_current_admin (Some token) r.1.2 = Some doc))
     ∧ last r.2 = Some (INFO, ("Created default admin key: " ++ token)%string))
  ∧ (r.1.1 = None ->
     ∀ token2 now2 now2' lg2,
       (startup_event token2 now2 now2' r.1.2 lg2).1 = (None, r.1.2)).
Proof.
  cbv zeta.
  assert (∀ c : ApiKeys, c ≠ ∅ ->
            ∀ t n n' l, (startup_event t n n' c l).1 = (None, c)) as Hkeep.
  { intros c Hc t n n' l. unfold startup_event.
    destruct (size c =? 0)%nat eqn:Hs; [|done].
    apply Nat.eqb_eq, map_size_empty_iff in Hs. done. }
  split_and!.
  - intros Hne. by rewrite (surjective_pairing (startup_event _ _ _ _ _).1),
      Hkeep.
  - intros -> H0 Hmax. unfold startup_event, create_api_key.
    rewrite map_size_empty. cbn [Nat.eqb].
    change (365 =? 0) with false.
    change (timedelta_days 365) with (Some (365 * DAY)).
    change (bson_int_ok 10000) with true.
    cbn [mbind option_bind negb]. unfold datetime_add.
    assert ((0 <=? now + 365 * DAY) && (now + 365 * DAY <=? DATETIME_MAX) = true)
      as ->.
    { apply andb_true_intro. split; apply Z.leb_le; unfold DAY in *; lia. }
    cbn [fmap option_fmap option_map].
    rewrite lookup_empty. cbn [fst snd key].
    split_and!; [done | | by rewrite last_snoc].
    eexists. split; [by rewrite insert_empty |].
    cbn [stored key is_admin daily_limit expiry_date].
    split_and!; try done.
    intros Htok. unfold get_current_admin. rewrite (key_given _ Htok).
    by rewrite lookup_insert_eq.
  - intros Hok token2 now2 now2' lg2. apply Hkeep.
    revert Hok. unfold startup_event.
    destruct (size coll =? 0)%nat eqn:Hs.
    + destruct (create_api_key token "admin" 10000 365 true now now' coll)
        as [[e|doc] coll'] eqn:Hc; [done |]. intros _. cbn [fst snd].
      destruct (create_api_key_inv _ _ _ _ _ _ _ _ _ _ Hc) as (_ & -> & _).
      apply insert_non_empty.
    + intros _. cbn [fst snd]. intros ->.
      by rewrite map_size_empty in Hs.
Qed.

(** ** Link to a cached file *)

(** X23: [get_telegram_download_url] always answers with a link, whatever
    fails, and changes nothing but the log. The link is on the blob
    store's API host and has the bot token in it; where both attempts to
    locate the file fail it is not a link to the file but the API query
    for the file's location, with the identifier of the file. *)
Theorem download_url_carries_bot_token (BOT_TOKEN : string)
    (get_file : Exception + string) (fallback : Telegram.Fallback)
    (file_id : string) (w : World) :
  let r := Telegram.get_telegram_download_url BOT_TOKEN get_file fallback
             file_id w in
  (∃ kind rest,
     r.1 = ("https://api.telegram.org/" ++ kind ++ "bot" ++ BOT_TOKEN ++ "/"
            ++ rest)%string
     ∧ ((kind = "file/"%string
         ∧ (get_file = inr rest
            ∨ ∃ e, get_file = inl e
                   ∧ fallback = Telegram.FallbackAnswer 200 (Some rest)))
        ∨ (kind = ""%string ∧ rest = ("getFile?file_id=" ++ file_id)%string
           ∧ ∃ e, get_file = inl e
                  ∧ ∀ p, fallback ≠ Telegram.FallbackAnswer 200 (Some p))))
  ∧ apikeys r.2 = apikeys w ∧ cache r.2 = cache w
  ∧ mongo_ops r.2 = mongo_ops w
  ∧ IN_MEMORY_CACHE r.2 = IN_MEMORY_CACHE w
  ∧ PROCESSING_SET r.2 = PROCESSING_SET w
  ∧ files r.2 = files w ∧ channel r.2 = channel w
  ∧ logs w `prefix_of` logs r.2
  ∧ (∀ p, get_file = inr p -> r.2 = w).
Proof.
  cbv zeta. unfold Telegram.get_telegram_download_url.
  destruct get_file as [e|p].
  - destruct fallback as [e2|status [p|]].
    + cbn. split_and!; try done.
      * exists ""%string, ("getFile?file_id=" ++ file_id)%string.
        split; [done |]. right. split_and!; try done. by exists e.
      * rewrite <- app_assoc. by apply prefix_app_r.
    + destruct (status =? 200) eqn:Hs.
      * apply Z.eqb_eq in Hs as ->. cbn. split_and!; try done.
        -- exists "file/"%string, p. split; [done |]. left. split; [done |].
           right. by exists e.
        -- by apply prefix_app_r.
      * apply Z.eqb_neq in Hs. cbn. split_and!; try done.
        -- exists ""%string, ("getFile?file_id=" ++ file_id)%string.
           split; [done |]. right. split_and!; try done. exists e.
           split; [done |]. intros p' [= -> _]. done.
        -- by apply prefix_app_r.
    + assert ((if status =? 200 then @None string else None) = None) as ->
        by (by destruct (status =? 200)).
      cbn. split_and!; try done.
      * exists ""%string, ("getFile?file_id=" ++ file_id)%string.
        split; [done |]. right. split_and!; try done. by exists e.
      * by apply prefix_app_r.
  - cbn. split_and!; try done.
    exists "file/"%string, p. split; [done |]. left. by split; [|left].
Qed.

(** X24: A reply served from the cache gives the caller the bot token: its
    link is the one [get_telegram_download_url] builds. *)
Theorem cache_hit_reply_discloses_bot_token (cfg : Config)
    (media_type label : string) (env : RequestEnv) (url k : string)
    (quality : option string) (w : World) (BOT_TOKEN : string)
    (get_file : string -> Exception + string)
    (fallback : string -> Telegram.Fallback) (res : ResultBody) :
  (∀ file_id w0,
     get_telegram_download_url env file_id
     = (Telegram.get_telegram_download_url BOT_TOKEN (get_file file_id)
          (fallback file_id) file_id w0).1) ->
  (resolve cfg media_type label env url k quality w).1.1 = Success res ->
  r_source res = "telegram_cache"%string ->
  ∃ pre post, r_url res = (pre ++ BOT_TOKEN ++ post)%string.
Proof.
  intros Himpl Hres Hsrc.
  pose proof (resolve_paths cfg media_type label env url k quality w) as Hp.
  rewrite Hres in Hp.
  inversion Hp
    as [| |v cached w2 _ _ _ Hreply| | | | |v w2 d sel dl _ _ _ _ _ _ Hreply];
    subst res; [|done].
  cbn [hit_reply r_url]. rewrite (Himpl _ w).
  unfold Telegram.get_telegram_download_url,
    Telegram.file_url, Telegram.get_file_url.
  destruct (get_file (file_id cached)) as [e|p].
  - destruct (fallback (file_id cached)) as [e2|status [p|]];
      [| destruct (status =? 200) |
       assert ((if status =? 200 then @None string else None) = None) as ->
         by (by destruct (status =? 200))];
      cbn [fst];
      first [ by exists "https://api.telegram.org/file/bot"%string,
                        ("/" ++ p)%string
            | by exists "https://api.telegram.org/bot"%string,
                        ("/getFile?file_id=" ++ file_id cached)%string ].
  - by exists "https://api.telegram.org/file/bot"%string, ("/" ++ p)%string.
Qed.

(** ** Payloads the decoder refuses *)

Section PayloadEdges.

Variable Doc : Type.
Variable aes_decrypt_block : bytes -> bytes -> bytes.
Variable decode_utf8 : bytes -> Exception + string.
Variable json_loads : string -> Exception + Doc.

(** X25: A payload whose decoded bytes are fewer than two blocks, or not a
    whole number of blocks, is refused whatever the cipher does: there
    is no initialisation vector, nothing to unpad, or a broken last
    block. The failure is logged and raised; so a payload that decodes
    to a document has at least thirty-two bytes, a multiple of
    sixteen. *)
Theorem short_payload_is_refused (b64_encrypted : string) (raw : bytes)
    (w : World) :
  Base64.b64decode b64_encrypted = inr raw ->
  (length raw < 32 ∨ length raw mod 16 ≠ 0)%nat ->
  ∃ e, decrypt_savetube_data Doc aes_decrypt_block decode_utf8 json_loads
         b64_encrypted w
       = (inl e, log ERROR ("Decryption failed: " ++ e) w).
Proof.
  intros Hraw Hlen.
  unfold decrypt_savetube_data, decode_payload. rewrite Hraw.
  cbn [try_bind]. unfold cbc_decrypt.
  rewrite length_take, length_drop.
  destruct (Nat.min 16 (length raw) =? 16)%nat eqn:Hiv; cbn [negb].
  2: { by eexists. }
  apply Nat.eqb_eq in Hiv.
  destruct ((length raw - 16) mod 16 =? 0)%nat eqn:Hblk; cbn [negb].
  2: { by eexists. }
  apply Nat.eqb_eq in Hblk. cbn [try_bind].
  assert (length raw = 16%nat) as Hsixteen.
  { destruct Hlen as [Hlt|Hmod].
    - assert (length raw - 16 < 16)%nat as Hsmall by lia.
      rewrite Nat.mod_small in Hblk by done. lia.
    - exfalso. apply Hmod.
      replace (length raw) with ((length raw - 16) + 1 * 16)%nat by lia.
      by rewrite Nat.Div0.mod_add. }
  rewrite Hsixteen. cbn [Nat.sub Nat.div Nat.divmod fst].
  by eexists.
Qed.

End PayloadEdges.

(** ** The quality hint and the temporary file *)

Lemma path_join_suffix (dir name : string) :
  ∃ pre, path_join dir name = (pre ++ name)%string.
Proof.
  unfold path_join.
  destruct (PyStr.starts_with (chars "/") (chars name)); [by exists ""%string |].
  destruct (String.eqb dir ""); [by exists ""%string |].
  destruct (PyStr.starts_with (chars "/") (rev (chars dir))).
  - by exists dir.
  - exists (dir ++ "/")%string. apply chars_inj. rewrite !chars_app.
    by rewrite <- app_assoc.
Qed.

(** X14: A quality hint that is given goes into the name of the temporary
    file as it is: the handlers pass it on unchecked and the archiver
    builds the path from the identifier, the kind and the quality
    without cleaning any of them ([sanitize_filename] is applied to the
    title, and its result is not used). *)
Theorem quality_hint_names_the_file (cfg : Config) (media_type label : string)
    (env : RequestEnv) (url k : string) (quality : option string) (w : World)
    (q : string) (a : ArchiveArgs) :
  truthy quality = Some q ->
  (resolve cfg media_type label env url k quality w).2 = Some a ->
  a_quality a = q
  ∧ archive_filename a
    = (a_ytid a ++ "_" ++ media_type ++ "_" ++ q ++ "."
       ++ (if String.eqb media_type "video" then "mp4" else "mp3"))%string
  ∧ ∃ pre post, archive_filepath cfg a = (pre ++ q ++ post)%string.
Proof.
  intros Hq Htask.
  pose proof (resolve_paths cfg media_type label env url k quality w) as Hp.
  rewrite Htask in Hp.
  inversion Hp as [| | | | | | |v w2 d sel dl _ _ _ _ Hsel _ Hreply Hw Ha].
  subst a. unfold selected_quality in Hsel. rewrite Hq in Hsel.
  injection Hsel as <-.
  unfold archive_filepath, archive_filename.
  cbn [archive_args a_quality a_ytid a_media_type].
  split; [done |]. split; [done |].
  destruct (path_join_suffix (DOWNLOAD_DIR cfg)
              (v ++ "_" ++ media_type ++ "_" ++ q ++ "."
               ++ (if String.eqb media_type "video" then "mp4" else "mp3")))
    as [pre ->].
  exists (pre ++ v ++ "_" ++ media_type ++ "_")%string,
         ("." ++ (if String.eqb media_type "video" then "mp4" else "mp3"))%string.
  apply chars_inj. rewrite !chars_app. by rewrite <- !app_assoc.
Qed.

(** ** Instances *)

Lemma check_api_key_touches_only_counter_witness :
  ∃ r', apikeys (check_api_key "abc" sample_clock sample_world).2
          !! "abc"%string = Some r'
        ∧ daily_limit r' = Some 2 ∧ is_admin r' = false.
Proof.
  destruct (check_api_key "abc" sample_clock sample_world) as [res w'] eqn:H.
  destruct (check_api_key_touches_only_counter _ _ _ _ _ H) as (_ & _ & Hown).
  destruct (Hown sample_token) as (r' & Hr' & _ & _ & Hlim & _ & Hadm & _).
  - by vm_compute.
  - exists r'. by split_and!.
Defined.

Lemma check_api_key_rejection_witness :
  apikeys (check_api_key "zzz" sample_clock sample_world).2
  = apikeys sample_world.
Proof.
  assert (check_api_key "zzz" sample_clock sample_world
          = (inl (HTTP 401 "Invalid API key"),
             (check_api_key "zzz" sample_clock sample_world).2)) as H
    by (vm_compute; reflexivity).
  destruct (check_api_key_rejection _ _ _ _ _ _ H) as (_ & H401 & _).
  destruct (H401 eq_refl) as (_ & Hsame & _). exact Hsame.
Defined.

Lemma admit_all_within_quota_any_day_witness :
  within_quota "abc"
    (admit_all "abc" [sample_clock; sample_clock; sample_clock] sample_world).2.
Proof.
  apply admit_all_within_quota_any_day.
  intros r Hr. vm_compute in Hr. injection Hr as <-. vm_compute.
  split; discriminate.
Defined.

Lemma today_usage_counts_admissions_witness :
  today_usage (api_stats sample_clock
                 (check_api_key "abc" sample_clock sample_world).2)
  = today_usage (api_stats sample_clock sample_world) + 1.
Proof.
  assert (check_api_key "abc" sample_clock sample_world
          = (inr (set_used_today (Some 0) sample_token),
             (check_api_key "abc" sample_clock sample_world).2)) as H
    by (vm_compute; reflexivity).
  exact (proj1 (today_usage_counts_admissions _ _ _ _ _ H)).
Defined.

Lemma interleaved_admissions_pass_quota_witness :
  counter "abc"
    (gate_world
       (gate_schedule "abc" sample_clock sample_clock
          [false; true; false; true; false; true]
          {| gate0 := GEntry; gate1 := GEntry; gate_world := same_day_world |}))
  = Some 2.
Proof.
  destruct (interleaved_admissions_pass_quota "abc" "2023-11-15" 1 None
              sample_clock sample_clock same_day_world)
    as [(r0 & r1 & _ & _ & Hcount) _].
  - discriminate.
  - lia.
  - eexists. split_and!; [by vm_compute | reflexivity..].
  - reflexivity.
  - reflexivity.
  - reflexivity.
  - reflexivity.
  - exact Hcount.
Defined.

Lemma cache_key_of_injective_witness :
  "dQw4w9WgXcQ"%string = "dQw4w9WgXcQ"%string ∧ "video"%string = "video"%string.
Proof.
  apply (cache_key_of_injective "dQw4w9WgXcQ" "video" "dQw4w9WgXcQ" "video");
    reflexivity.
Defined.

Lemma cache_hit_needs_no_origin_witness :
  (ytmp4 sample_cfg sample_env sample_url "abc" (Some "144"%string)
     archived_world).1.1
  = Success (hit_reply sample_env
               (archived_doc sample_cfg sample_args "file-1" 42 1700000100)).
Proof.
  destruct (cache_hit_needs_no_origin sample_cfg "video" "YTMP4"
              sample_env sample_env sample_url "abc" (Some "144"%string) None
              archived_world "dQw4w9WgXcQ"
              (archived_doc sample_cfg sample_args "file-1" 42 1700000100))
    as (Hreply & _).
  - by vm_compute.
  - by vm_compute.
  - left. by vm_compute.
  - reflexivity.
  - reflexivity.
  - exact Hreply.
Defined.

Lemma handler_error_replies_witness :
  (ytmp4 sample_cfg sample_env "not a link" "abc" None sample_world).2 = None.
Proof.
  refine (proj1 (handler_error_replies sample_cfg "video" "YTMP4" sample_env
                   "not a link" "abc" None sample_world
                   400 "Invalid YouTube URL or ID" _)).
  by vm_compute.
Defined.

Lemma archived_miss_becomes_hit_witness :
  let r1 := ytmp4 sample_cfg sample_env sample_url "abc" None sample_world in
  let a := default sample_args r1.2 in
  let w2 := (background_download_and_upload sample_cfg a sample_archive_env
               r1.1.2).2 in
  ∃ res2,
    (ytmp4 sample_cfg sample_env sample_url "abc" None w2).1.1 = Success res2
    ∧ r_file_id res2 = Some "file-1"%string.
Proof.
  intros r1 a w2.
  destruct (archived_miss_becomes_hit sample_cfg "video" "YTMP4"
              sample_env sample_env sample_url sample_url "abc" "abc" None None
              sample_world r1.1.2 (reply_of r1.1.1) a sample_archive_env)
    as (fid & mid & res2 & Hup & Hreply & _ & _ & Hfile & _).
  - by vm_compute.
  - apply not_elem_of_empty.
  - reflexivity.
  - reflexivity.
  - reflexivity.
  - by vm_compute.
  - exists res2. split; [exact Hreply |].
    rewrite Hfile. by injection Hup as <- _.
Defined.

Lemma archival_repeats_after_return_witness :
  ∃ w2 fid mid,
    background_download_and_upload sample_cfg sample_args sample_archive_env
      archived_world = (Done, w2)
    ∧ upload_outcome sample_archive_env = inr (fid, mid).
Proof.
  destruct (archival_repeats_after_return sample_cfg sample_args
              sample_archive_env sample_archive_env sample_world)
    as (w2 & fid & mid & now & Hrun & Hup & _).
  - apply not_elem_of_empty.
  - reflexivity.
  - reflexivity.
  - by exists w2, fid, mid.
Defined.

Lemma archive_filepath_injective_witness :
  a_ytid sample_args = a_ytid sample_args
  ∧ a_media_type sample_args = a_media_type sample_args
  ∧ a_quality sample_args = a_quality sample_args.
Proof.
  apply (archive_filepath_injective sample_cfg sample_args sample_args);
    first [reflexivity | by left].
Defined.

Lemma created_key_at_the_gate_witness :
  counter "tok" (check_api_key "tok" early_clock created_world).2 = Some 1.
Proof.
  destruct (created_key_at_the_gate "tok" "user" 5 30 false
              63000000000000000 63000000000000001 ∅ created_sample.2
              {| key := "tok"; owner := "user"; daily_limit := Some 5;
                 used_today := Some 0; last_used_date := None;
                 expiry_date := Some 63002592000000000; is_admin := false;
                 created_at := 63000000000000001 |}
              early_clock created_world)
    as (_ & _ & _ & Hcount & _).
  - by vm_compute.
  - discriminate.
  - reflexivity.
  - apply Hcount. by vm_compute.
Defined.

Lemma admin_operations_need_admin_session_witness :
  delete_user_route "abc" (Some "root-key"%string) sample_tokens
  = (AdminRaised (HTTP 401 "Admin access required"), sample_tokens)
  ∧ delete_user_route "abc" None sample_tokens
    = delete_user_route "abc" (Some "root-key"%string) sample_tokens.
Proof.
  destruct (admin_operations_need_admin_session (Some "root-key"%string)
              sample_tokens "abc" "tok" "user" 5 30 false 0 0)
    as (_ & _ & _ & Hdel & Hany); [discriminate |].
  split; [| exact (Hany None)].
  apply Hdel. intros (k & r & [= <-] & _ & Hr & Ha).
  vm_compute in Hr. injection Hr as <-. discriminate.
Defined.

Lemma deleted_key_is_refused_witness :
  delete_user_route "root-key" None sample_tokens
  = (AdminOk true "User deleted successfully",
     delete "root-key"%string sample_tokens).
Proof.
  destruct (deleted_key_is_refused "root-key" None sample_tokens)
    as (Hr & _); [discriminate |].
  exact Hr.
Defined.

Lemma session_checks_ignore_the_gate_witness :
  ∃ r', get_current_user (Some "abc"%string)
          (apikeys (check_api_key "abc" sample_clock sample_world).2)
        = Some r'
        ∧ key r' = "abc"%string.
Proof.
  destruct (session_checks_ignore_the_gate "abc" sample_clock sample_world
              sample_token)
    as (r' & Huser & Hkey & _).
  - discriminate.
  - by vm_compute.
  - by exists r'.
Defined.

Lemma cache_hit_reply_discloses_bot_token_witness :
  ∃ pre post,
    r_url (reply_of (ytmp4 sample_cfg linking_env sample_url "abc" None
                       archived_world).1.1)
    = (pre ++ "123:TOKEN" ++ post)%string.
Proof.
  apply (cache_hit_reply_discloses_bot_token sample_cfg "video" "YTMP4"
           linking_env sample_url "abc" None archived_world "123:TOKEN"
           (fun file_id => inr ("videos/" ++ file_id)%string)
           (fun _ => Telegram.FallbackRaised "")).
  - intros file_id w0. reflexivity.
  - by vm_compute.
  - by vm_compute.
Defined.

Lemma short_payload_is_refused_witness :
  ∃ e, decrypt_savetube_data string toy_cipher (fun b => inr (text b)) inr
         "" sample_world
       = (inl e, log ERROR ("Decryption failed: " ++ e) sample_world).
Proof.
  apply (short_payload_is_refused string toy_cipher (fun b => inr (text b)) inr
           "" []).
  - reflexivity.
  - left. simpl. lia.
Defined.

Lemma quality_hint_names_the_file_witness :
  a_quality (default sample_args
               (ytmp4 sample_cfg sample_env sample_url "abc"
                  (Some "9999"%string) sample_world).2)
  = "9999"%string.
Proof.
  refine (proj1 (quality_hint_names_the_file sample_cfg "video" "YTMP4"
                   sample_env sample_url "abc" (Some "9999"%string)
                   sample_world "9999" _ eq_refl _)).
  by vm_compute.
Defined.
